(** * Porto container subsystem: a shallow embedding of [src/container.cpp]

    The development follows the C++ source function by function.  Containers
    live in a heap (a list indexed by pointers), the [Parent] link of the C++
    class is a pointer into that heap and every loop that chases [Parent]
    pointers runs over the chain the pointers form.  Calls into collaborators
    that are outside of the container engine (cgroup driver, task launcher,
    key-value store, property registry) are either parameters of a [Section]
    or are recorded in an explicit trace. *)

From Stdlib Require Import ZArith String Ascii List Bool Lia HexString DecimalString.
From stdpp Require Import base list gmap.

Open Scope string_scope.

(** ** Errors ([src/util/error.hpp]) *)

Inductive EError :=
| Success | Unknown | InvalidValue | InvalidProperty | InvalidState
| Permission | Busy | NotSupported | NoValue | ResourceNotAvailable
| ContainerDoesNotExist | ContainerAlreadyExists | Queued.

Definition EError_eqb (a b : EError) : bool :=
  match a, b with
  | Success, Success | Unknown, Unknown | InvalidValue, InvalidValue
  | InvalidProperty, InvalidProperty | InvalidState, InvalidState
  | Permission, Permission | Busy, Busy | NotSupported, NotSupported
  | NoValue, NoValue | ResourceNotAvailable, ResourceNotAvailable
  | ContainerDoesNotExist, ContainerDoesNotExist
  | ContainerAlreadyExists, ContainerAlreadyExists | Queued, Queued => true
  | _, _ => false
  end.

Lemma EError_eqb_eq a b : EError_eqb a b = true <-> a = b.
Proof. destruct a, b; simpl; split; congruence. Qed.

(** [class TError { EError Error; int Errno = 0; TString Text; }] *)
Record TError := mkTError { Error : EError; Errno : Z; Text : string }.

(** [TError(): Error(EError::Success) {}] and [extern const TError OK] *)
Definition OK : TError := mkTError Success 0 "".

(** [TError(EError err, const TString &text)] *)
Definition TError_ (err : EError) (text : string) : TError := mkTError err 0 text.

(** [explicit operator bool() const { return Error != EError::Success; }] *)
Definition failed (e : TError) : bool := negb (EError_eqb (Error e) Success).

Lemma failed_OK : failed OK = false.
Proof. reflexivity. Qed.

Lemma failed_true_iff e : failed e = true <-> Error e <> Success.
Proof.
  unfold failed. rewrite negb_true_iff. split.
  - intros H E. apply EError_eqb_eq in E. congruence.
  - intros H. destruct (EError_eqb (Error e) Success) eqn:E; [|reflexivity].
    apply EError_eqb_eq in E. contradiction.
Qed.

(** [std::to_string] on an unsigned number *)
Definition to_string (n : nat) : string := NilEmpty.string_of_uint (Nat.to_uint n).

(** ** Name validation ([TContainer::ValidName], container.cpp:56) *)

Module Name.

(** Constants of [src/common.hpp]. *)
Definition CONTAINER_NAME_MAX : nat := 128.
Definition CONTAINER_PATH_MAX : nat := 200.
Definition CONTAINER_PATH_MAX_FOR_SUPERUSER : nat := 220.
Definition ROOT_CONTAINER : string := "/".
Definition DOT_CONTAINER : string := ".".
Definition SELF_CONTAINER : string := "self".

Definition NUL : ascii := "000"%char.
Definition SLASH : ascii := "/"%char.

(** [name[i]]: [std::string::operator[]] returns the terminating NUL at
    [i == name.length()]. *)
Definition at_ (name : string) (i : nat) : ascii :=
  match String.get i name with Some c => c | None => NUL end.

Definition in_range (lo hi c : ascii) : bool :=
  (nat_of_ascii lo <=? nat_of_ascii c)%nat && (nat_of_ascii c <=? nat_of_ascii hi)%nat.

(** The labels [case 'a'...'z': case 'A'...'Z': case '0'...'9': case '_':
    case '-': case '@': case ':': case '.':] of the switch. *)
Definition name_char (c : ascii) : bool :=
  in_range "a" "z" c || in_range "A" "Z" c || in_range "0" "9" c ||
  Ascii.eqb c "_" || Ascii.eqb c "-" || Ascii.eqb c "@" || Ascii.eqb c ":" ||
  Ascii.eqb c ".".

(** The labels [case '/': case '\0':]. *)
Definition is_sep (c : ascii) : bool := Ascii.eqb c SLASH || Ascii.eqb c NUL.

(** [StringFormat("%#x", (unsigned char)c)] for a non-zero byte. *)
Definition format_hex (c : ascii) : string := HexString.of_nat (nat_of_ascii c).

(** The [for] loop of [ValidName]: [n] counts the iterations that are left
    ([name.length() + 1 - i]), [first] and [i] are the loop variables. *)
Fixpoint ValidName_loop (name : string) (n first i : nat) : TError :=
  match n with
  | O => OK
  | S n' =>
    let c := at_ name i in
    if is_sep c then
      if (i =? first)%nat then
        TError_ InvalidValue ("double/trailing '/' in container path: " ++ name)
      else if (CONTAINER_NAME_MAX <? i - first)%nat then
        TError_ InvalidValue
          ("container name component too long, limit is " ++
           to_string CONTAINER_NAME_MAX ++
           ": '" ++ substring first (i - first) name ++ "'")
      else if String.eqb (substring first (i - first) name) SELF_CONTAINER then
        TError_ InvalidValue "container name 'self' is reserved"
      else if String.eqb (substring first (i - first) name) DOT_CONTAINER then
        TError_ InvalidValue "container name '.' is reserved"
      else
        (* first = i + 1; falls through to the break *)
        ValidName_loop name n' (i + 1) (i + 1)
    else if name_char c then
      ValidName_loop name n' first (i + 1)
    else
      TError_ InvalidValue ("forbidden character " ++ format_hex c)
  end.

Definition ValidName (name : string) (superuser : bool) : TError :=
  if (String.length name =? 0)%nat then
    TError_ InvalidValue "container path too short"
  else
    let path_max :=
      if superuser then CONTAINER_PATH_MAX_FOR_SUPERUSER else CONTAINER_PATH_MAX in
    if (path_max <? String.length name)%nat then
      TError_ InvalidValue
        ("container path too long, limit is " ++ to_string path_max)
    else if Ascii.eqb (at_ name 0) SLASH then
      if String.eqb name ROOT_CONTAINER then OK
      else TError_ InvalidValue ("container path starts with '/': " ++ name)
    else
      ValidName_loop name (String.length name + 1) 0 0.

(** *** The rule as the specification words it *)

(** Components of a ['/']-separated path. *)
Fixpoint components_aux (cur : string) (s : string) : list string :=
  match s with
  | EmptyString => [cur]
  | String c s' =>
    if Ascii.eqb c SLASH then cur :: components_aux "" s'
    else components_aux (cur ++ String c "") s'
  end.

Definition components (s : string) : list string := components_aux "" s.

Fixpoint string_forallb (p : ascii -> bool) (s : string) : bool :=
  match s with
  | EmptyString => true
  | String c s' => p c && string_forallb p s'
  end.

(** A component: non-empty, from the charset, at most 128 bytes, neither
    ["."] nor ["self"]. *)
Definition component_ok (comp : string) : bool :=
  negb (String.length comp =? 0)%nat &&
  string_forallb name_char comp &&
  (String.length comp <=? CONTAINER_NAME_MAX)%nat &&
  negb (String.eqb comp DOT_CONTAINER) &&
  negb (String.eqb comp SELF_CONTAINER).

(** Spec-side definition: the names the specification declares valid. *)
Definition valid_name_spec (name : string) (superuser : bool) : bool :=
  String.eqb name ROOT_CONTAINER ||
  (forallb component_ok (components name) &&
   (String.length name <=?
      (if superuser then CONTAINER_PATH_MAX_FOR_SUPERUSER else CONTAINER_PATH_MAX))%nat).

(** A name without an embedded NUL byte. *)
Fixpoint no_nul (s : string) : bool :=
  match s with
  | EmptyString => true
  | String c s' => negb (Ascii.eqb c NUL) && no_nul s'
  end.

(** The checks the loop makes when it closes a component, and the loop as a
    scan that carries the current component instead of its two indices. *)
Definition component_ok' (comp : string) : bool :=
  negb (String.length comp =? 0)%nat &&
  (String.length comp <=? CONTAINER_NAME_MAX)%nat &&
  negb (String.eqb comp SELF_CONTAINER) &&
  negb (String.eqb comp DOT_CONTAINER).

Fixpoint scan (cur rest : string) : bool :=
  match rest with
  | EmptyString => component_ok' cur
  | String c r =>
    if Ascii.eqb c SLASH then component_ok' cur && scan "" r
    else if name_char c then scan (cur ++ String c "") r
    else false
  end.

Definition head_or_nul (s : string) : ascii :=
  match s with EmptyString => NUL | String c _ => c end.

End Name.

(** ** The container record ([class TContainer]) *)

Inductive EContainerState :=
| Stopped | Dead | Starting | Running | Stopping | Paused | Meta | Destroyed.

Definition state_eqb (a b : EContainerState) : bool :=
  match a, b with
  | Stopped, Stopped | Dead, Dead | Starting, Starting | Running, Running
  | Stopping, Stopping | Paused, Paused | Meta, Meta | Destroyed, Destroyed => true
  | _, _ => false
  end.

(** The property tags ([enum class EProperty]) that container.cpp names. *)
Inductive EProperty :=
| P_NONE | P_STATE | P_START_TIME | P_ROOT_PID | P_SEIZE_PID | P_DEATH_TIME
| P_EXIT_STATUS | P_OOM_KILLED | P_RESPAWN_COUNT | P_RESOLV_CONF | P_DEVICE_CONF
| P_CPU_SET | P_CPU_SET_AFFINITY | P_MEM_GUARANTEE | P_MEM_LIMIT | P_CPU_GUARANTEE
| P_CPU_LIMIT | P_CONTROLLERS | P_PRIVATE
| P_ANON_LIMIT | P_DIRTY_LIMIT | P_RECHARGE_ON_PGFAULT | P_PRESSURIZE_ON_DEATH
| P_IO_LIMIT | P_IO_OPS_LIMIT | P_IO_WEIGHT | P_IO_POLICY | P_HUGETLB_LIMIT
| P_CPU_PERIOD | P_CPU_POLICY | P_CPU_WEIGHT | P_NET_PRIO | P_NET_LIMIT
| P_NET_GUARANTEE | P_NET_RX_LIMIT | P_ULIMIT | P_THREAD_LIMIT.

(** Position of a tag in the [bool PropSet[]] and [bool PropDirty[]] arrays. *)
Definition prop_index (p : EProperty) : N :=
  match p with
  | P_NONE => 0 | P_STATE => 1 | P_START_TIME => 2 | P_ROOT_PID => 3
  | P_SEIZE_PID => 4 | P_DEATH_TIME => 5 | P_EXIT_STATUS => 6 | P_OOM_KILLED => 7
  | P_RESPAWN_COUNT => 8 | P_RESOLV_CONF => 9 | P_DEVICE_CONF => 10
  | P_CPU_SET => 11 | P_CPU_SET_AFFINITY => 12 | P_MEM_GUARANTEE => 13
  | P_MEM_LIMIT => 14 | P_CPU_GUARANTEE => 15 | P_CPU_LIMIT => 16
  | P_CONTROLLERS => 17 | P_PRIVATE => 18
  | P_ANON_LIMIT => 19 | P_DIRTY_LIMIT => 20 | P_RECHARGE_ON_PGFAULT => 21
  | P_PRESSURIZE_ON_DEATH => 22 | P_IO_LIMIT => 23 | P_IO_OPS_LIMIT => 24
  | P_IO_WEIGHT => 25 | P_IO_POLICY => 26 | P_HUGETLB_LIMIT => 27
  | P_CPU_PERIOD => 28 | P_CPU_POLICY => 29 | P_CPU_WEIGHT => 30
  | P_NET_PRIO => 31 | P_NET_LIMIT => 32 | P_NET_GUARANTEE => 33
  | P_NET_RX_LIMIT => 34 | P_ULIMIT => 35 | P_THREAD_LIMIT => 36
  end%N.

(** [ECpuSetType] *)
Inductive ECpuSetType := Inherit | Absolute | Node | Cores | Threads | Reserve.

Definition cpuset_type_eqb (a b : ECpuSetType) : bool :=
  match a, b with
  | Inherit, Inherit | Absolute, Absolute | Node, Node | Cores, Cores
  | Threads, Threads | Reserve, Reserve => true
  | _, _ => false
  end.

(** Modelled from the spec: [TBitMap] is declared outside src/.  The spec
    calls [CpuAffinity], [CpuVacant] and [CpuReserve] bitmaps of CPUs; a
    bitmap is the number whose binary digits are its bits. *)
Abbreviation TBitMap := N (only parsing).

(** A pointer to a container: its position in the heap. *)
Abbreviation ptr := nat (only parsing).

(** The fields of [TContainer] that the modelled functions read or write.
    [Parent] is the [std::shared_ptr<TContainer> Parent] link, [Children] the
    [std::list<std::shared_ptr<TContainer>>], [Level] the depth that the
    constructor computes ([parent ? parent->Level + 1 : 0]).  The lock slots
    and the child counters are counts of threads and of containers; the 64-bit
    unsigned fields ([NewMemGuarantee], [MemLimit], [CpuGuarantee],
    [CpuGuaranteeSum], [CpuGuaranteeCur]) hold values below [2^64] and their
    arithmetic wraps (see [u64]); [CpuSetArg] is an [int].  [IsMeta] is the
    value of [IsMeta()], which container.hpp (not under src/) derives from
    the configuration.

    Left out are the fields that the functions below only hand over to the
    kernel or to the collaborators, and the fields that no function below
    reads back: paths, credentials, capabilities, network and volume
    configuration, the limits other than [MemLimit], and the bookkeeping of
    what was last written to a cgroup ([CpuLimitSum], [CpuLimitCur],
    [MemSoftLimit]). *)
Record TContainer := mkTContainer {
  Id : Z;
  Name : string;
  Parent : option ptr;
  Children : list ptr;
  Level : Z;
  State : EContainerState;
  (* locking slots *)
  Locked : Z;
  PendingWrite : bool;
  SubtreeRead : Z;
  SubtreeWrite : Z;
  LastOwner : Z;
  (* state machine *)
  StartingChildren : Z;
  RunningChildren : Z;
  (* configuration *)
  IsMeta : bool;
  Isolate : bool;
  NetInherit : bool;
  Controllers : N;
  RequiredControllers : N;
  Private : string;
  AutoRespawn : bool;
  RespawnLimit : Z;
  RespawnCount : Z;
  NewMemGuarantee : Z;
  MemLimit : Z;
  CpuSetType : ECpuSetType;
  CpuSetArg : Z;
  CpuGuarantee : Z;
  CpuGuaranteeSum : Z;
  CpuGuaranteeCur : Z;
  PropSet : N;
  PropDirty : N;
  (* runtime *)
  Task_Pid : Z;
  TaskVPid : Z;
  WaitTask_Pid : Z;
  SeizeTask_Pid : Z;
  StartTime : Z;
  DeathTime : Z;
  ExitStatus : Z;
  OomEvents : Z;
  OomKilled : bool;
  (* cpu sets *)
  CpuAffinity : TBitMap;
  CpuVacant : TBitMap;
  CpuReserve : TBitMap
}.

(** Field assignment.  [assign proj] builds, from the eta-expansion of the
    record, the function that replaces the field [proj] and keeps the rest. *)
Definition eta_ct (c : TContainer) : TContainer :=
  mkTContainer (Id c) (Name c) (Parent c) (Children c) (Level c) (State c)
    (Locked c) (PendingWrite c) (SubtreeRead c) (SubtreeWrite c) (LastOwner c)
    (StartingChildren c) (RunningChildren c)
    (IsMeta c) (Isolate c) (NetInherit c) (Controllers c) (RequiredControllers c)
    (Private c) (AutoRespawn c) (RespawnLimit c) (RespawnCount c) (NewMemGuarantee c)
    (MemLimit c)
    (CpuSetType c) (CpuSetArg c) (CpuGuarantee c) (CpuGuaranteeSum c)
    (CpuGuaranteeCur c)
    (PropSet c) (PropDirty c)
    (Task_Pid c) (TaskVPid c) (WaitTask_Pid c) (SeizeTask_Pid c)
    (StartTime c) (DeathTime c) (ExitStatus c) (OomEvents c) (OomKilled c)
    (CpuAffinity c) (CpuVacant c) (CpuReserve c).

Ltac assign proj :=
  let v := fresh "v" in
  let c := fresh "c" in
  intros v c;
  let e := eval cbv [eta_ct] in (eta_ct c) in
  match eval pattern (proj c) in e with
  | ?g _ => let r := eval cbv beta in (g v) in exact r
  end.

Definition set_State : EContainerState -> TContainer -> TContainer.
Proof. assign State. Defined.
Definition set_Locked : Z -> TContainer -> TContainer.
Proof. assign Locked. Defined.
Definition set_PendingWrite : bool -> TContainer -> TContainer.
Proof. assign PendingWrite. Defined.
Definition set_SubtreeRead : Z -> TContainer -> TContainer.
Proof. assign SubtreeRead. Defined.
Definition set_SubtreeWrite : Z -> TContainer -> TContainer.
Proof. assign SubtreeWrite. Defined.
Definition set_LastOwner : Z -> TContainer -> TContainer.
Proof. assign LastOwner. Defined.
Definition set_StartingChildren : Z -> TContainer -> TContainer.
Proof. assign StartingChildren. Defined.
Definition set_RunningChildren : Z -> TContainer -> TContainer.
Proof. assign RunningChildren. Defined.
Definition set_Controllers : N -> TContainer -> TContainer.
Proof. assign Controllers. Defined.
Definition set_RequiredControllers : N -> TContainer -> TContainer.
Proof. assign RequiredControllers. Defined.
Definition set_Private : string -> TContainer -> TContainer.
Proof. assign Private. Defined.
Definition set_NewMemGuarantee : Z -> TContainer -> TContainer.
Proof. assign NewMemGuarantee. Defined.
Definition set_CpuSetType : ECpuSetType -> TContainer -> TContainer.
Proof. assign CpuSetType. Defined.
Definition set_CpuSetArg : Z -> TContainer -> TContainer.
Proof. assign CpuSetArg. Defined.
Definition set_CpuGuarantee : Z -> TContainer -> TContainer.
Proof. assign CpuGuarantee. Defined.
Definition set_CpuGuaranteeSum : Z -> TContainer -> TContainer.
Proof. assign CpuGuaranteeSum. Defined.
Definition set_CpuGuaranteeCur : Z -> TContainer -> TContainer.
Proof. assign CpuGuaranteeCur. Defined.
Definition set_PropSet : N -> TContainer -> TContainer.
Proof. assign PropSet. Defined.
Definition set_PropDirty : N -> TContainer -> TContainer.
Proof. assign PropDirty. Defined.
Definition set_Task_Pid : Z -> TContainer -> TContainer.
Proof. assign Task_Pid. Defined.
Definition set_TaskVPid : Z -> TContainer -> TContainer.
Proof. assign TaskVPid. Defined.
Definition set_WaitTask_Pid : Z -> TContainer -> TContainer.
Proof. assign WaitTask_Pid. Defined.
Definition set_SeizeTask_Pid : Z -> TContainer -> TContainer.
Proof. assign SeizeTask_Pid. Defined.
Definition set_StartTime : Z -> TContainer -> TContainer.
Proof. assign StartTime. Defined.
Definition set_DeathTime : Z -> TContainer -> TContainer.
Proof. assign DeathTime. Defined.
Definition set_ExitStatus : Z -> TContainer -> TContainer.
Proof. assign ExitStatus. Defined.
Definition set_OomEvents : Z -> TContainer -> TContainer.
Proof. assign OomEvents. Defined.
Definition set_OomKilled : bool -> TContainer -> TContainer.
Proof. assign OomKilled. Defined.
Definition set_CpuAffinity : TBitMap -> TContainer -> TContainer.
Proof. assign CpuAffinity. Defined.
Definition set_CpuVacant : TBitMap -> TContainer -> TContainer.
Proof. assign CpuVacant. Defined.
Definition set_CpuReserve : TBitMap -> TContainer -> TContainer.
Proof. assign CpuReserve. Defined.

(** Modelled from the spec: [SetProp], [ClearProp], [HasProp],
    [TestPropDirty] and [TestClearPropDirty] are declared in container.hpp,
    not under src/.
    [PropSet[P]] records that P was set, [PropDirty[P]] that it needs to be
    applied again; setting a property marks it set and dirty, clearing it
    drops the set mark. *)
Definition HasProp (p : EProperty) (c : TContainer) : bool :=
  N.testbit (PropSet c) (prop_index p).
Definition SetProp (p : EProperty) (c : TContainer) : TContainer :=
  set_PropDirty (N.setbit (PropDirty c) (prop_index p))
    (set_PropSet (N.setbit (PropSet c) (prop_index p)) c).
Definition ClearProp (p : EProperty) (c : TContainer) : TContainer :=
  set_PropSet (N.clearbit (PropSet c) (prop_index p)) c.
Definition TestPropDirty (p : EProperty) (c : TContainer) : bool :=
  N.testbit (PropDirty c) (prop_index p).
Definition TestClearPropDirty (p : EProperty) (c : TContainer) : bool * TContainer :=
  (N.testbit (PropDirty c) (prop_index p),
   set_PropDirty (N.clearbit (PropDirty c) (prop_index p)) c).

(** ** The heap of containers *)

Abbreviation heap := (list TContainer) (only parsing).

(** [ct->field = ...] through a pointer. *)
Definition update (x : ptr) (f : TContainer -> TContainer) (h : heap) : heap :=
  alter f x h.

(** Modelled from the spec: [IsRoot()] is declared in container.hpp, not under
    src/; the root is the container that has no parent. *)
Definition IsRoot (c : TContainer) : bool :=
  match Parent c with None => true | Some _ => false end.

(** The chain [Parent, Parent->Parent, ...] that the loops
    [for (auto ct = Parent.get(); ct; ct = ct->Parent.get())] walk.  A chain
    of distinct containers has fewer links than the heap has containers, which
    bounds the walk. *)
Fixpoint chain (n : nat) (h : heap) (p : option ptr) : list ptr :=
  match n with
  | O => []
  | S n' =>
    match p with
    | None => []
    | Some a =>
      a :: chain n' h (match h !! a with Some c => Parent c | None => None end)
    end
  end.

Definition ancestors (h : heap) (x : ptr) : list ptr :=
  chain (length h) h (match h !! x with Some c => Parent c | None => None end).

(** [a] is a proper ancestor of [x]: reachable through [Parent] links. *)
Inductive Ancestor (h : heap) : ptr -> ptr -> Prop :=
| Anc_parent x c a : h !! x = Some c -> Parent c = Some a -> Ancestor h a x
| Anc_step x c p a :
    h !! x = Some c -> Parent c = Some p -> Ancestor h a p -> Ancestor h a x.

(** [a] is reached from the link [p] by following [Parent] links, and the
    [Parent] link of a container, by pointer. *)
Inductive Reach (h : heap) : option ptr -> ptr -> Prop :=
| Reach_here a : Reach h (Some a) a
| Reach_up b cb a : h !! b = Some cb -> Reach h (Parent cb) a -> Reach h (Some b) a.

Definition parent_of (h : heap) (x : ptr) : option ptr :=
  match h !! x with Some c => Parent c | None => None end.

(** Containers are constructed after their parent
    ([TContainer(std::shared_ptr<TContainer> parent, ...)]), so a parent sits
    below its children in the heap, and links stay inside the heap. *)
Definition wf (h : heap) : Prop :=
  forall x c, h !! x = Some c ->
    (forall a, Parent c = Some a -> a < x) /\
    (forall k, In k (Children c) -> x < k < length h).

(** [TContainer::Subtree()]: "Subtree in DFS post-order: childs first".  The
    reverse iterator inserts the children of every node in front of it, which
    yields the post-order listing.  [n] bounds the depth. *)
Fixpoint Subtree_ (n : nat) (h : heap) (x : ptr) : list ptr :=
  match n with
  | O => [x]
  | S n' =>
    match h !! x with
    | Some c => flat_map (Subtree_ n' h) (Children c) ++ [x]
    | None => [x]
    end
  end.

Definition Subtree (h : heap) (x : ptr) : list ptr := Subtree_ (length h) h x.

(** [TContainer::Childs()] *)
Definition Childs (h : heap) (x : ptr) : list ptr :=
  match h !! x with Some c => Children c | None => [] end.

(** 64-bit unsigned arithmetic. *)
Definition u64 (z : Z) : Z := (z mod 2 ^ 64)%Z.

(** ** The world around the containers *)

(** What leaves the container engine: calls into the collaborators (cgroup
    subsystems, task launcher, network, volumes, key-value store, client),
    notifications and log lines.

    Methods of [TContainer] that write no field of the record above appear
    here as calls too; they act on the kernel and on fields that are left out
    of the record: [Terminate], [PrepareStart] (paths, credentials,
    capabilities, the [Start] hooks of the registry), [CreateWorkDir],
    [RemoveWorkDir], [PropagateCpuLimit] ([CpuLimitSum]), [UpdateSoftLimit]
    ([MemSoftLimit]), [ApplyCpuLimit] ([CpuLimitCur]), [ApplySchedPolicy],
    [ApplyIoPolicy], [ApplyResolvConf], [ApplyDeviceConf], [ApplyUlimits],
    [ShutdownOom] (the OOM eventfd) and [ScheduleRespawn].

    The lock that a client holds belongs to the client ([CL], client.cpp,
    outside src/): what [Start] and [Stop] do with it
    ([CL->LockedContainer->DowngradeLock()], [->UpgradeLock()],
    [CL->LockContainer(target)]) is recorded, not run.

    [Log] carries the fixed part of a line written with [L], [L_WRN] or
    [L_ERR]; the action and debug traces ([L_ACT], [L_EVT], [L_VERBOSE],
    [L_DBG]) are left out.  [Subsystem] is a method of a cgroup subsystem, of
    the network or of the epoll loop, called for a container; [Has] asks the
    environment about data that is left out of the record. *)
Inductive Event :=
| NotifyWaiters (ct : ptr)
| Log (text : string)
| DowngradeLock
| UpgradeLock
| LockContainer (ct : ptr)
| Kill (ct : ptr)
| Terminate (ct : ptr) (deadline : Z)
| Freeze (ct : ptr)
| Thaw (ct : ptr) (wait : bool)
| IsFrozen (ct : ptr)
| PropagateCpuLimit (ct : ptr)
| UpdateSoftLimit (ct : ptr)
| ApplyCpuLimit (ct : ptr)
| ApplySchedPolicy (ct : ptr)
| ApplyIoPolicy (ct : ptr)
| ApplyResolvConf (ct : ptr)
| ApplyDeviceConf (ct : ptr)
| ApplyUlimits (ct : ptr)
| ShutdownOom (ct : ptr)
| KvSave (id : Z)
| PrepareStart (ct : ptr)
| CreateWorkDir (ct : ptr)
| RemoveWorkDir (ct : ptr)
| InitClass (ct : ptr)
| MountLinks (ct : ptr)
| UmountLinks (ct : ptr)
| CheckRequired (ct : ptr)
| StartNetwork (ct : ptr)
| StopNetwork (ct : ptr)
| OpenNamespaces (ct : ptr)
| PrepareTask (ct : ptr)
| NewMountNs (ct : ptr)
| TaskEnvStart (ct : ptr)
| RotateStdStreams (ct : ptr)
| RemoveStdStreams (ct : ptr)
| ScheduleRespawn (ct : ptr)
| ReadSysfs (path : string)
| CpusetExists (ct : ptr)
| SetCpus (ct : ptr) (cpus : TBitMap)
| SetMems (ct : ptr)
| CgroupExists (ct : ptr) (hierarchy : N)
| CgroupCreate (ct : ptr) (hierarchy : N)
| CgroupRemove (ct : ptr) (hierarchy : N)
| DetectSystemd (ct : ptr)
| Subsystem (method : string) (ct : ptr)
| Has (what : string) (ct : ptr).

(** The state of the daemon and of its environment.  [cts] is the heap of
    containers, [kvs] the key-value store (one record per container id; a
    record is the snapshot of the container that [Save] wrote), [frozen] the
    freezer cgroups that are frozen on their own account, [trace] the calls
    made so far (latest first), [now] the clock ([GetCurrentTimeMs()]),
    [TotalMemory] the value of [GetTotalMemory()], [memory_guarantee_reserve]
    the configured reserve, [RootContainer] the global of that name and
    [LockedContainer] the container the client holds locked
    ([CL->LockedContainer]), [propagate_cpu_guarantee] the configuration flag
    of that name, [Hierarchies] the controllers of every cgroup hierarchy
    (the [Controllers] mask of each member of the global [Hierarchies]) and
    [Subsystems] the [Kind] and the [Type] of every cgroup subsystem.
    [kernel], [kernel_flag], [kernel_cpus] and
    [kernel_oom] are the environment: the result of a call, the answer to a
    query, the contents of a CPU list file and the value read from a
    container's OOM eventfd (zero when nothing can be read), as functions of
    the history; nothing is assumed about them. *)
Record World := mkWorld {
  cts : heap;
  kvs : gmap Z TContainer;
  frozen : list ptr;
  trace : list Event;
  now : Z;
  TotalMemory : Z;
  memory_guarantee_reserve : Z;
  RootContainer : ptr;
  LockedContainer : ptr;
  propagate_cpu_guarantee : bool;
  Hierarchies : list N;
  Subsystems : list (N * string);
  CoreThreads : list TBitMap;
  NumaNodes : TBitMap;
  NodeThreads : list TBitMap;
  kernel : list Event -> Event -> TError;
  kernel_flag : list Event -> Event -> bool;
  kernel_cpus : list Event -> string -> TBitMap;
  kernel_oom : list Event -> ptr -> Z
}.

Definition eta_w (w : World) : World :=
  mkWorld (cts w) (kvs w) (frozen w) (trace w) (now w) (TotalMemory w)
    (memory_guarantee_reserve w) (RootContainer w) (LockedContainer w)
    (propagate_cpu_guarantee w) (Hierarchies w) (Subsystems w)
    (CoreThreads w) (NumaNodes w) (NodeThreads w)
    (kernel w) (kernel_flag w) (kernel_cpus w) (kernel_oom w).

Ltac assign_w proj :=
  let v := fresh "v" in
  let w := fresh "w" in
  intros v w;
  let e := eval cbv [eta_w] in (eta_w w) in
  match eval pattern (proj w) in e with
  | ?g _ => let r := eval cbv beta in (g v) in exact r
  end.

Definition set_cts : heap -> World -> World.
Proof. assign_w cts. Defined.
Definition set_kvs : gmap Z TContainer -> World -> World.
Proof. assign_w kvs. Defined.
Definition set_frozen : list ptr -> World -> World.
Proof. assign_w frozen. Defined.
Definition set_trace : list Event -> World -> World.
Proof. assign_w trace. Defined.
Definition set_CoreThreads : list TBitMap -> World -> World.
Proof. assign_w CoreThreads. Defined.
Definition set_NumaNodes : TBitMap -> World -> World.
Proof. assign_w NumaNodes. Defined.
Definition set_NodeThreads : list TBitMap -> World -> World.
Proof. assign_w NodeThreads. Defined.

(** A computation that threads the world. *)
Definition M (A : Type) := World -> A * World.

Definition ret {A} (a : A) : M A := fun w => (a, w).
Definition bind {A B} (m : M A) (k : A -> M B) : M B :=
  fun w => let '(a, w') := m w in k a w'.

Notation "x <- m ;; k" := (bind m (fun x => k))
  (at level 100, m at next level, right associativity).
Notation "m ;;; k" := (bind m (fun _ => k))
  (at level 100, right associativity).

(** Reading and changing the world. *)
Definition gets {A} (f : World -> A) : M A := fun w => (f w, w).
Definition change (f : World -> World) : M unit := fun w => (tt, f w).

Definition get_ct (x : ptr) : M (option TContainer) := gets (fun w => cts w !! x).
Definition modify (x : ptr) (f : TContainer -> TContainer) : M unit :=
  change (fun w => set_cts (update x f (cts w)) w).
Definition emit (e : Event) : M unit :=
  change (fun w => set_trace (e :: trace w) w).
(** A call into a collaborator: the environment decides the result, the call
    is recorded. *)
Definition call (e : Event) : M TError :=
  fun w => (kernel w (trace w) e, set_trace (e :: trace w) w).
(** A query whose answer is a flag. *)
Definition query (e : Event) : M bool :=
  fun w => (kernel_flag w (trace w) e, set_trace (e :: trace w) w).

(** [for (auto &x : l) body(x)] *)
Fixpoint for_each {A} (l : list A) (body : A -> M unit) : M unit :=
  match l with
  | [] => ret tt
  | a :: l' => body a ;;; for_each l' body
  end.

(** [for (auto &x : l) { error = body(x); if (error) return error; }] *)
Fixpoint for_each_err {A} (l : list A) (body : A -> M TError) : M TError :=
  match l with
  | [] => ret OK
  | a :: l' =>
    e <- body a ;;
    if failed e then ret e else for_each_err l' body
  end.

(** ** Subtree locks ([TContainer::Lock], container.cpp:152) *)

Module Locking.

(** What one pass through the body of [while (1)] leads to: the lock is taken
    ([break], then the acquisition), the call returns an error, or the thread
    sleeps in [ContainersCV.wait(lock)] and runs the body again when woken. *)
Inductive LockResult := Granted | Refused (e : TError) | Waiting.

(** [busy = Locked < 0 || PendingWrite || SubtreeWrite;] for a read lock and
    [busy = Locked || SubtreeRead || SubtreeWrite;] for a write lock. *)
Definition busy_self (for_read : bool) (c : TContainer) : bool :=
  if for_read
  then (Locked c <? 0)%Z || PendingWrite c || negb (SubtreeWrite c =? 0)%Z
  else negb (Locked c =? 0)%Z || negb (SubtreeRead c =? 0)%Z ||
       negb (SubtreeWrite c =? 0)%Z.

(** [ct->PendingWrite || (for_read ? ct->Locked < 0 : ct->Locked)] *)
Definition busy_ancestor (for_read : bool) (c : TContainer) : bool :=
  PendingWrite c ||
  (if for_read then (Locked c <? 0)%Z else negb (Locked c =? 0)%Z).

(** [for (auto ct = Parent.get(); !busy && ct; ct = ct->Parent.get())
       busy = ...;] *)
Fixpoint busy_chain (for_read : bool) (h : heap) (busy : bool) (l : list ptr) : bool :=
  match l with
  | [] => busy
  | a :: l' =>
    if busy then busy
    else busy_chain for_read h
           (match h !! a with Some c => busy_ancestor for_read c | None => false end) l'
  end.

Definition busy (for_read : bool) (h : heap) (x : ptr) (c : TContainer) : bool :=
  busy_chain for_read h (busy_self for_read c) (ancestors h x).

(** The acquisition after the loop:
    [PendingWrite = false; Locked += for_read ? 1 : -1; LastOwner = GetTid();]
    and the bump of [SubtreeRead] or [SubtreeWrite] on every ancestor. *)
Definition acquire (for_read : bool) (tid : Z) (c : TContainer) : TContainer :=
  set_LastOwner tid
    (set_Locked (Locked c + (if for_read then 1 else -1))%Z
       (set_PendingWrite false c)).

Definition bump (for_read : bool) (c : TContainer) : TContainer :=
  if for_read then set_SubtreeRead (SubtreeRead c + 1)%Z c
  else set_SubtreeWrite (SubtreeWrite c + 1)%Z c.

(** One pass of [TContainer::Lock(lock, for_read, try_lock)] on the container
    [x], run by thread [tid]. *)
Definition Lock (h : heap) (x : ptr) (for_read try_lock : bool) (tid : Z)
  : LockResult * heap :=
  match h !! x with
  | None => (Waiting, h)
  | Some c =>
    if state_eqb (State c) Destroyed then
      (Refused (TError_ ContainerDoesNotExist "Container was destroyed"), h)
    else if negb (busy for_read h x c) then
      (Granted,
       foldl (fun h' a => update a (bump for_read) h')
         (update x (acquire for_read tid) h) (ancestors h x))
    else if try_lock then
      (Refused (TError_ Busy ("Container is busy: " ++ Name c)), h)
    else
      (Waiting, if for_read then h else update x (set_PendingWrite true) h)
  end.

(** [TContainer::Unlock]: the ancestors' counters drop, then
    [Locked += (Locked > 0) ? -1 : 1]. *)
Definition unbump (held : Z) (c : TContainer) : TContainer :=
  if (0 <? held)%Z then set_SubtreeRead (SubtreeRead c - 1)%Z c
  else set_SubtreeWrite (SubtreeWrite c - 1)%Z c.

Definition Unlock (h : heap) (x : ptr) : heap :=
  match h !! x with
  | None => h
  | Some c =>
    update x (fun c => set_Locked (Locked c + (if (0 <? Locked c)%Z then -1 else 1))%Z c)
      (foldl (fun h' a => update a (unbump (Locked c)) h') h (ancestors h x))
  end.

(** *** The lock rules as the specification words them *)

(** "X is not write-locked, X has no pending writer, X has no active subtree
    writer, AND no ancestor of X has a pending writer or is write-locked." *)
Definition read_rule (h : heap) (x : ptr) (c : TContainer) : Prop :=
  ~ (Locked c < 0)%Z /\ PendingWrite c = false /\ SubtreeWrite c = 0%Z /\
  forall a ca, Ancestor h a x -> h !! a = Some ca ->
    PendingWrite ca = false /\ ~ (Locked ca < 0)%Z.

(** "X is not locked, X has no subtree reader or writer, AND no ancestor is
    write-locked or has a pending writer." *)
Definition write_rule (h : heap) (x : ptr) (c : TContainer) : Prop :=
  Locked c = 0%Z /\ SubtreeRead c = 0%Z /\ SubtreeWrite c = 0%Z /\
  forall a ca, Ancestor h a x -> h !! a = Some ca ->
    ~ (Locked ca < 0)%Z /\ PendingWrite ca = false.

(** The write rule of the code: no ancestor holds any lock, read or write. *)
Definition write_rule_code (h : heap) (x : ptr) (c : TContainer) : Prop :=
  Locked c = 0%Z /\ SubtreeRead c = 0%Z /\ SubtreeWrite c = 0%Z /\
  forall a ca, Ancestor h a x -> h !! a = Some ca ->
    Locked ca = 0%Z /\ PendingWrite ca = false.

End Locking.

(** ** The state machine ([TContainer::SetState], container.cpp:790) *)

Module StateMachine.

(** [for (auto p = Parent; p; p = p->Parent)
       p->StartingChildren += next == EContainerState::Starting ? 1 : -1;] *)
Definition count_starting (next : EContainerState) (c : TContainer) : TContainer :=
  set_StartingChildren
    (StartingChildren c + (if state_eqb next Starting then 1 else -1))%Z c.

(** One turn of the second loop: the counter moves, and a [Meta] container
    whose counter reached zero notifies its waiters. *)
Definition count_running (next : EContainerState) (p : ptr) : M unit :=
  modify p (fun c =>
    set_RunningChildren
      (RunningChildren c + (if state_eqb next Running then 1 else -1))%Z c) ;;;
  oc <- get_ct p ;;
  match oc with
  | Some c =>
    if (RunningChildren c =? 0)%Z && state_eqb (State c) Meta
    then emit (NotifyWaiters p) else ret tt
  | None => ret tt
  end.

Definition SetState (x : ptr) (next : EContainerState) : M unit :=
  oc <- get_ct x ;;
  match oc with
  | None => ret tt
  | Some c =>
    if state_eqb (State c) next then ret tt
    else
      let prev := State c in
      modify x (set_State next) ;;;
      up <- gets (fun w => ancestors (cts w) x) ;;
      (if state_eqb prev Starting || state_eqb next Starting
       then for_each up (fun p => modify p (count_starting next))
       else ret tt) ;;;
      (if state_eqb prev Running || state_eqb next Running
       then for_each up (count_running next)
       else ret tt) ;;;
      (if negb (state_eqb next Running) && negb (state_eqb next Meta) &&
          negb (state_eqb next Starting) && negb (state_eqb next Stopping)
       then emit (NotifyWaiters x) else ret tt)
  end.

Definition b2z (b : bool) : Z := if b then 1 else 0.

(** The heap that [SetState] leaves. *)
Definition run_count (next : EContainerState) (c : TContainer) : TContainer :=
  set_RunningChildren
    (RunningChildren c + (if state_eqb next Running then 1 else -1))%Z c.

Definition SetState_heap (h : heap) (x : ptr) (next : EContainerState) : heap :=
  match h !! x with
  | None => h
  | Some c =>
    if state_eqb (State c) next then h
    else
      let h1 := update x (set_State next) h in
      let up := ancestors h1 x in
      let h2 :=
        if state_eqb (State c) Starting || state_eqb next Starting
        then foldl (fun h' a => update a (count_starting next) h') h1 up else h1 in
      if state_eqb (State c) Running || state_eqb next Running
      then foldl (fun h' a => update a (run_count next) h') h2 up else h2
  end.

(** The change of the [Starting] or [Running] counter ([target]) of a container
    that is ([on]) or is not among the ancestors. *)
Definition delta (next target : EContainerState) (prev : EContainerState) (on : bool) : Z :=
  if (state_eqb prev target || state_eqb next target) && on
  then (if state_eqb next target then 1 else -1) else 0.

(** *** The counters as the specification words them *)

(** The containers of the heap that satisfy [p], by pointer. *)
Fixpoint count_from (i : ptr) (l : list TContainer)
  (p : ptr -> TContainer -> bool) : Z :=
  match l with
  | [] => 0
  | c :: l' => ((if p i c then 1 else 0) + count_from (S i) l' p)%Z
  end.

Definition count_where (h : heap) (p : ptr -> TContainer -> bool) : Z :=
  count_from 0 h p.

Definition is_child (a : ptr) (c : TContainer) : bool :=
  match Parent c with Some p => Nat.eqb p a | None => false end.

Definition inb (a : ptr) (l : list ptr) : bool := existsb (Nat.eqb a) l.

(** Children of [a] (its direct descendants) in state [s]. *)
Definition children_in (h : heap) (a : ptr) (s : EContainerState) : Z :=
  count_where h (fun _ c => is_child a c && state_eqb (State c) s).

(** Containers below [a], at any depth, in state [s]. *)
Definition descendants_in (h : heap) (a : ptr) (s : EContainerState) : Z :=
  count_where h (fun i c => inb a (ancestors h i) && state_eqb (State c) s).

(** I7 as worded: the counters of every container equal the count of its
    children in the two states. *)
Definition counters_children (h : heap) : Prop :=
  forall a c, h !! a = Some c ->
    StartingChildren c = children_in h a Starting /\
    RunningChildren c = children_in h a Running.

(** The counters count whole subtrees. *)
Definition counters_descendants (h : heap) : Prop :=
  forall a c, h !! a = Some c ->
    StartingChildren c = descendants_in h a Starting /\
    RunningChildren c = descendants_in h a Running.

End StateMachine.

(** ** Memory guarantees ([CheckMemGuarantee], [GetTotalMemGuarantee],
       container.cpp:959) *)

Module MemGuarantee.

(** [uint64_t TContainer::GetTotalMemGuarantee(bool locked) const].  [n]
    bounds the depth of the recursion through [Children]; [sum] is a
    [uint64_t]. *)
Fixpoint GetTotalMemGuarantee_ (n : nat) (h : heap) (x : ptr) : Z :=
  match n with
  | O => 0
  | S n' =>
    match h !! x with
    | None => 0
    | Some c =>
      (* Stopped container doesn't have memory guarantees *)
      if state_eqb (State c) Stopped then 0
      else
        Z.max (NewMemGuarantee c)
          (foldl (fun sum child => u64 (sum + GetTotalMemGuarantee_ n' h child))
             0%Z (Children c))
    end
  end.

Definition GetTotalMemGuarantee (h : heap) (x : ptr) : Z :=
  GetTotalMemGuarantee_ (S (length h)) h x.

(** [TError TContainer::CheckMemGuarantee() const]; [total], [usage] and
    [reserve] are [uint64_t]. *)
Definition CheckMemGuarantee (w : World) : TError :=
  let total := TotalMemory w in
  let usage := GetTotalMemGuarantee (cts w) (RootContainer w) in
  let reserve := memory_guarantee_reserve w in
  if (total <? u64 (usage + reserve))%Z then
    TError_ ResourceNotAvailable
      ("Memory guarantee overcommit by " ++
       to_string (Z.to_nat (u64 (u64 (usage + reserve) - total))) ++ " bytes")
  else OK.

(** *** The roll-up as the specification words it *)

(** "A Stopped container contributes zero; every other node contributes the
    maximum of its own guarantee and the sum of its children's totals", in
    unbounded integers. *)
Fixpoint total_guarantee (n : nat) (h : heap) (x : ptr) : Z :=
  match n with
  | O => 0
  | S n' =>
    match h !! x with
    | None => 0
    | Some c =>
      if state_eqb (State c) Stopped then 0
      else
        Z.max (NewMemGuarantee c)
          (foldl (fun sum child => sum + total_guarantee n' h child)%Z
             0%Z (Children c))
    end
  end.

(** "The root container's total memory guarantee plus the configured reserve
    exceeds host memory." *)
Definition overcommitted (w : World) : Prop :=
  (TotalMemory w <
   total_guarantee (S (length (cts w))) (cts w) (RootContainer w) +
   memory_guarantee_reserve w)%Z.

End MemGuarantee.

(** ** CPU affinity distribution ([ReserveCpus], [DistributeCpus],
       container.cpp:1168) *)

Module Cpu.

(** Modelled from the spec: the operations of [TBitMap] (declared outside
    src/) on a set of CPU numbers: membership, insertion and removal of one
    CPU or of a whole set, the number of members, the length of the bitmap
    (one more than its highest member), inclusion and equality. *)
Definition Get (b : TBitMap) (i : nat) : bool := N.testbit b (N.of_nat i).
Definition Set1 (b : TBitMap) (i : nat) (v : bool) : TBitMap :=
  if v then N.setbit b (N.of_nat i) else N.clearbit b (N.of_nat i).
Definition SetMap (b other : TBitMap) (v : bool) : TBitMap :=
  if v then N.lor b other else N.ldiff b other.
Fixpoint pos_weight (p : positive) : nat :=
  match p with
  | xH => 1
  | xO p' => pos_weight p'
  | xI p' => S (pos_weight p')
  end.
Definition Weight (b : TBitMap) : nat :=
  match b with N0 => 0 | Npos p => pos_weight p end.
Definition Size (b : TBitMap) : nat := N.size_nat b.
Definition IsSubsetOf (a b : TBitMap) : bool := N.eqb (N.ldiff a b) 0.
Definition IsEqual (a b : TBitMap) : bool := N.eqb a b.

(** [unsigned] arithmetic of [nr_threads] and [nr_cores]. *)
Definition u32 (z : Z) : Z := (z mod 2 ^ 32)%Z.

(** Modelled from the spec: single-bit controller masks; their values are
    declared in cgroup.hpp, outside src/. *)
Definition CGROUP_FREEZER : N := 1.
Definition CGROUP_MEMORY : N := 2.
Definition CGROUP_CPU : N := 4.
Definition CGROUP_NETCLS : N := 16.
Definition CGROUP_BLKIO : N := 32.
Definition CGROUP_CPUSET : N := 64.
Definition CGROUP_DEVICES : N := 128.
Definition CGROUP_SYSTEMD : N := 4096.

Definition has_controller (c : TContainer) (mask : N) : bool :=
  negb (N.eqb (N.land (Controllers c) mask) 0).

(** The local state of [ReserveCpus]: the parent's [CpuVacant], the output
    bitmaps and the counters. *)
Record Reserving := mkReserving {
  vacant : TBitMap;
  threads : TBitMap;
  cores : TBitMap;
  nr_threads : Z;
  nr_cores : Z;
  try_thread : bool
}.

(** [CoreThreads[cpu]] *)
Definition core_threads (ct : list TBitMap) (cpu : nat) : TBitMap := nth cpu ct 0%N.

(** The body of the [for] loop over the CPUs, up to the test for [break]. *)
Definition reserve_cpu (ct : list TBitMap) (cpu : nat) (s : Reserving) : Reserving :=
  if IsSubsetOf (core_threads ct cpu) (vacant s) then
    if negb (nr_cores s =? 0)%Z then
      mkReserving (SetMap (vacant s) (core_threads ct cpu) false)
        (SetMap (threads s) (core_threads ct cpu) true)
        (Set1 (cores s) cpu true)
        (nr_threads s) (u32 (nr_cores s - 1)) (try_thread s)
    else if negb (try_thread s) then
      mkReserving (Set1 (vacant s) cpu false) (Set1 (threads s) cpu true)
        (cores s) (u32 (nr_threads s - 1)) (nr_cores s) true
    else s
  else if negb (nr_threads s =? 0)%Z then
    mkReserving (Set1 (vacant s) cpu false) (Set1 (threads s) cpu true)
      (cores s) (u32 (nr_threads s - 1)) (nr_cores s) (try_thread s)
  else s.

(** [for (unsigned cpu = 0; cpu < CpuVacant.Size(); cpu++)] over the CPUs
    that are still to visit. *)
Fixpoint reserve_pass (ct : list TBitMap) (cpus : list nat) (s : Reserving) : Reserving :=
  match cpus with
  | [] => s
  | cpu :: rest =>
    if negb (cpu <? Size (vacant s))%nat then s
    else if negb (Get (vacant s) cpu) then reserve_pass ct rest s
    else
      let s' := reserve_cpu ct cpu s in
      if (nr_threads s' =? 0)%Z && (nr_cores s' =? 0)%Z then s'
      else reserve_pass ct rest s'
  end.

(** The label [again:] and the [goto].  Every jump but the first follows a
    pass that took a thread, so [n] need not exceed [nr_threads + 1]. *)
Fixpoint reserve_again (n : nat) (ct : list TBitMap) (s : Reserving) : Reserving :=
  let s' := reserve_pass ct (seq 0 (Size (vacant s))) s in
  match n with
  | O => s'
  | S n' =>
    if try_thread s' && negb (nr_threads s' =? 0)%Z
    then reserve_again n' ct
           (mkReserving (vacant s') (threads s') (cores s')
              (nr_threads s') (nr_cores s') false)
    else s'
  end.

(** [TError TContainer::ReserveCpus(unsigned nr_threads, unsigned nr_cores,
       TBitMap &threads, TBitMap &cores)] called on [parent]; the two bitmaps
    are returned. *)
Definition ReserveCpus (parent : ptr) (nthreads ncores : Z)
  : M (TError * TBitMap * TBitMap) :=
  fun w =>
    match cts w !! parent with
    | None => ((OK, 0%N, 0%N), w)
    | Some p =>
      let s := reserve_again (Z.to_nat nthreads + 1) (CoreThreads w)
                 (mkReserving (CpuVacant p) 0%N 0%N nthreads ncores true) in
      if negb (nr_threads s =? 0)%Z || negb (nr_cores s =? 0)%Z ||
         (IsRoot p && (Weight (vacant s) =? 0)%nat)
      then
        ((TError_ ResourceNotAvailable
            ("Not enough cpus in CT" ++ to_string (Z.to_nat (Id p)) ++ ":" ++ Name p),
          0%N, 0%N),
         set_cts (update parent (set_CpuVacant (SetMap (vacant s) (threads s) true))
                    (cts w)) w)
      else
        ((OK, threads s, cores s),
         set_cts (update parent (set_CpuVacant (vacant s)) (cts w)) w)
    end.

(** How a call ends: it returns, or it dereferences a null pointer. *)
Inductive Outcome := Returned (e : TError) | Crashed.

(** The same for a [void] method. *)
Inductive Ending := Done | Died.

Definition order : list ECpuSetType :=
  [Absolute; Node; Cores; Threads; Reserve; Inherit].

Definition dormant (c : TContainer) : bool :=
  state_eqb (State c) Stopped || state_eqb (State c) Dead.

Definition ct_label (c : TContainer) : string :=
  "CT" ++ to_string (Z.to_nat (Id c)) ++ ":" ++ Name c.

(** The [switch (type)]: the affinity of the child [ct], or the error the
    function returns.  [CpuSetArg] is an [int]: [TBitMap::Get] and
    [ReserveCpus] take it as an [unsigned], the index of [NodeThreads] is a
    [size_t]; a node that [NodeThreads] has no slot for has no CPUs. *)
Definition choose_affinity (parent ct : ptr) (type : ECpuSetType)
  (p c : TContainer) : M (TError * TBitMap) :=
  match type with
  | Inherit => ret (OK, CpuVacant p)
  | Absolute => ret (OK, CpuAffinity c)
  | Node =>
    nodes <- gets NumaNodes ;;
    node_threads <- gets NodeThreads ;;
    if negb (Get nodes (Z.to_nat (u32 (CpuSetArg c)))) then
      ret (TError_ ResourceNotAvailable ("Numa node not found for " ++ ct_label c),
           0%N)
    else ret (OK, nth (Z.to_nat (u64 (CpuSetArg c))) node_threads 0%N)
  | Cores =>
    r <- ReserveCpus parent 0 (u32 (CpuSetArg c)) ;;
    let '(e, thr, cor) := r in
    modify ct (set_CpuReserve thr) ;;;
    ret (e, cor)
  | Threads =>
    r <- ReserveCpus parent (u32 (CpuSetArg c)) 0 ;;
    let '(e, thr, cor) := r in
    modify ct (set_CpuReserve thr) ;;;
    ret (e, SetMap cor thr true)
  | Reserve =>
    r <- ReserveCpus parent (u32 (CpuSetArg c)) 0 ;;
    let '(e, thr, cor) := r in
    modify ct (set_CpuReserve thr) ;;;
    ret (e, SetMap cor (CpuAffinity p) true)
  end.

(** The body of the two nested loops over [order] and [childs];
    [vacantGuarantee] is a [uint64_t]. *)
Definition place_child (parent : ptr) (type : ECpuSetType) (ct : ptr)
  (vacantGuarantee : Z) : M (TError * Z) :=
  oc <- get_ct ct ;;
  op <- get_ct parent ;;
  match oc, op with
  | Some c, Some p =>
    if negb (cpuset_type_eqb (CpuSetType c) type) || dormant c
    then ret (OK, vacantGuarantee)
    else
      modify ct (fun c => set_CpuReserve 0%N (set_CpuVacant 0%N c)) ;;;
      r <- choose_affinity parent ct type p c ;;
      let '(e, affinity) := r in
      if failed e then ret (e, vacantGuarantee)
      else if (Weight affinity =? 0)%nat || negb (IsSubsetOf affinity (CpuAffinity p))
      then ret (TError_ ResourceNotAvailable ("Not enough cpus for " ++ ct_label c),
                vacantGuarantee)
      else
        (if negb (IsEqual (CpuAffinity c) affinity)
         then modify ct (fun c => SetProp P_CPU_SET_AFFINITY (set_CpuAffinity affinity c))
         else ret tt) ;;;
        oc' <- get_ct ct ;;
        let vg :=
          match oc' with
          | Some c' =>
            if negb (Weight (CpuReserve c') =? 0)%nat then vacantGuarantee
            else u64 (vacantGuarantee + Z.max (CpuGuarantee c') (CpuGuaranteeSum c'))
          | None => vacantGuarantee
          end in
        modify ct (fun c => set_CpuVacant (SetMap (CpuVacant c) (CpuAffinity c) true) c) ;;;
        ret (OK, vg)
  | _, _ => ret (OK, vacantGuarantee)
  end.

Fixpoint place_children (parent : ptr) (l : list (ECpuSetType * ptr))
  (vacantGuarantee : Z) : M (TError * Z) :=
  match l with
  | [] => ret (OK, vacantGuarantee)
  | (type, ct) :: l' =>
    r <- place_child parent type ct vacantGuarantee ;;
    if failed (fst r) then ret r else place_children parent l' (snd r)
  end.

Section Distribute.

(** The CPU power of one CPU for one second: a constant that is declared
    outside src/. *)
Variable CPU_POWER_PER_SEC : Z.

(** The test that follows the placement of the children of [parent], inside
    [DistributeCpus] called on [this]:
    [if (vacantGuarantee > parent->CpuVacant.Weight() * CPU_POWER_PER_SEC)].
    The error text reads [Parent->Name], the name of the parent of [this].
    [None] stands for falling through to the next parent. *)
Definition check_guarantee (this parent : ptr) (vacantGuarantee : Z)
  : M (option Outcome) :=
  op <- get_ct parent ;;
  match op with
  | None => ret None
  | Some p =>
    if (u64 (Z.of_nat (Weight (CpuVacant p)) * CPU_POWER_PER_SEC) <? vacantGuarantee)%Z
    then
      if negb (IsEqual (CpuVacant p) (CpuAffinity p)) then
        othis <- get_ct this ;;
        match othis with
        | Some t =>
          match Parent t with
          | Some a =>
            opp <- get_ct a ;;
            match opp with
            | Some pp =>
              ret (Some (Returned
                     (TError_ ResourceNotAvailable
                        ("Not enough cpus for cpu_guarantee in CT" ++
                         to_string (Z.to_nat (Id p)) ++ ":" ++ Name pp))))
            | None => ret (Some Crashed)
            end
          | None => ret (Some Crashed)
          end
        | None => ret (Some Crashed)
        end
      else
        emit (Log ("CPU guarantee overcommit in " ++ ct_label p)) ;;;
        ret None
    else ret None
  end.

(** The body of [for (auto &parent: subtree)]. *)
Definition distribute_parent (this parent : ptr) : M (option Outcome) :=
  op <- get_ct parent ;;
  match op with
  | None => ret None
  | Some p =>
    if dormant p then ret None
    else
      let childs := Children p in
      match childs with
      | [] => ret None
      | _ =>
        r <- place_children parent
               (flat_map (fun type => map (pair type) childs) order) 0%Z ;;
        if failed (fst r) then ret (Some (Returned (fst r)))
        else check_guarantee this parent (snd r)
      end
  end.

Fixpoint distribute_parents (this : ptr) (l : list ptr) : M (option Outcome) :=
  match l with
  | [] => ret None
  | parent :: l' =>
    o <- distribute_parent this parent ;;
    match o with
    | Some out => ret (Some out)
    | None => distribute_parents this l'
    end
  end.

(** Reading a CPU list from sysfs: the result of the read and the set. *)
Definition read_cpus (path : string) : M (TError * TBitMap) :=
  fun w =>
    ((kernel w (trace w) (ReadSysfs path), kernel_cpus w (trace w) path),
     set_trace (ReadSysfs path :: trace w) w).

(** One list per member of [mask], stored by [store] at the member's index. *)
Fixpoint read_each (mask : TBitMap) (path : nat -> string)
  (store : nat -> TBitMap -> World -> World) (l : list nat) : M TError :=
  match l with
  | [] => ret OK
  | i :: l' =>
    if negb (Get mask i) then read_each mask path store l'
    else
      r <- read_cpus (path i) ;;
      if failed (fst r) then ret (fst r)
      else change (store i (snd r)) ;;; read_each mask path store l'
  end.

(** The part of [DistributeCpus] that runs for the root: the online CPUs,
    the thread siblings of every CPU, the NUMA nodes and their CPUs. *)
Definition read_topology (this : ptr) : M TError :=
  r <- read_cpus "/sys/devices/system/cpu/online" ;;
  if failed (fst r) then ret (fst r)
  else
    let online := snd r in
    modify this (set_CpuAffinity online) ;;;
    change (set_CoreThreads (replicate (Size online) 0%N)) ;;;
    e <- read_each online
           (fun cpu => "/sys/devices/system/cpu/cpu" ++ to_string cpu ++
                       "/topology/thread_siblings_list")
           (fun cpu v w => set_CoreThreads (<[cpu := v]> (CoreThreads w)) w)
           (seq 0 (Size online)) ;;
    if failed e then ret e
    else
      r <- read_cpus "/sys/devices/system/node/online" ;;
      if failed (fst r) then ret (fst r)
      else
        let nodes := snd r in
        change (fun w => set_NodeThreads (replicate (Size nodes) 0%N)
                           (set_NumaNodes nodes w)) ;;;
        read_each nodes
          (fun node => "/sys/devices/system/node/node" ++ to_string node ++ "/cpulist")
          (fun node v w => set_NodeThreads (<[node := v]> (NodeThreads w)) w)
          (seq 0 (Size nodes)).

(** The first pass over the cpuset cgroups: the widest mask, that of [this]. *)
Definition write_widest (this : ptr) (affinity : TBitMap) (ct : ptr) : M TError :=
  oc <- get_ct ct ;;
  match oc with
  | None => ret OK
  | Some c =>
    if Nat.eqb ct this || negb (has_controller c CGROUP_CPUSET) ||
       negb (TestPropDirty P_CPU_SET_AFFINITY c) || dormant c
    then ret OK
    else
      exists_ <- query (CpusetExists ct) ;;
      if negb exists_ then ret OK
      else
        e <- call (SetCpus ct affinity) ;;
        (if failed e then emit (Log "Cannot set cpu affinity") else ret tt) ;;;
        ret e
  end.

(** The second pass: the mask of each container; the dirty mark drops. *)
Definition write_narrowest (this : ptr) (ct : ptr) : M TError :=
  oc <- get_ct ct ;;
  match oc with
  | None => ret OK
  | Some c =>
    if Nat.eqb ct this || negb (has_controller c CGROUP_CPUSET) then ret OK
    else
      modify ct (fun c => snd (TestClearPropDirty P_CPU_SET_AFFINITY c)) ;;;
      if negb (TestPropDirty P_CPU_SET_AFFINITY c) || dormant c then ret OK
      else
        exists_ <- query (CpusetExists ct) ;;
        if negb exists_ then ret OK
        else
          e <- call (SetCpus ct (CpuAffinity c)) ;;
          if failed e then emit (Log "Cannot set cpu affinity") ;;; ret e
          else
            e <- call (SetMems ct) ;;
            (if failed e then emit (Log "Cannot set mem affinity") else ret tt) ;;;
            ret e
  end.

(** [TError TContainer::DistributeCpus()] called on [this]. *)
Definition DistributeCpus (this : ptr) : M Outcome :=
  oc <- get_ct this ;;
  match oc with
  | None => ret (Returned OK)
  | Some c =>
    e <- (if IsRoot c then read_topology this else ret OK) ;;
    if failed e then ret (Returned e)
    else
      modify this (fun c => set_CpuVacant (CpuAffinity c) c) ;;;
      subtree <- gets (fun w => rev (Subtree (cts w) this)) ;;
      o <- distribute_parents this subtree ;;
      match o with
      | Some out => ret out
      | None =>
        affinity <- gets (fun w =>
          match cts w !! this with Some c => CpuAffinity c | None => 0%N end) ;;
        e <- for_each_err subtree (write_widest this affinity) ;;
        if failed e then ret (Returned e)
        else
          e <- for_each_err (rev subtree) (write_narrowest this) ;;
          ret (Returned e)
      end
  end.

End Distribute.

(** [TError TContainer::ApplyCpuGuarantee()] called on [x]:
    [CpuGuaranteeSum] is summed anew over the children that are up when the
    configuration asks for it, and the larger of the two guarantees is written
    to the cpu cgroup when it differs from the one written last. *)
Definition up (c : TContainer) : bool :=
  state_eqb (State c) Running || state_eqb (State c) Meta ||
  state_eqb (State c) Starting || state_eqb (State c) Stopping.

Definition add_guarantee (x child : ptr) : M unit :=
  oc <- get_ct child ;;
  match oc with
  | Some c =>
    if up c then
      modify x (fun t =>
        set_CpuGuaranteeSum
          (u64 (CpuGuaranteeSum t + Z.max (CpuGuarantee c) (CpuGuaranteeSum c))) t)
    else ret tt
  | None => ret tt
  end.

Definition ApplyCpuGuarantee (x : ptr) : M TError :=
  propagate <- gets propagate_cpu_guarantee ;;
  (if propagate then
     modify x (set_CpuGuaranteeSum 0) ;;;
     childs <- gets (fun w => Childs (cts w) x) ;;
     for_each childs (add_guarantee x)
   else ret tt) ;;;
  oc <- get_ct x ;;
  match oc with
  | None => ret OK
  | Some c =>
    let cur := Z.max (CpuGuarantee c) (CpuGuaranteeSum c) in
    if negb (IsRoot c) && has_controller c CGROUP_CPU &&
       negb (cur =? CpuGuaranteeCur c)%Z
    then
      e <- call (Subsystem "CpuSubsystem.SetGuarantee" x) ;;
      if failed e then emit (Log "Cannot set cpu guarantee") ;;; ret e
      else modify x (set_CpuGuaranteeCur cur) ;;; ret OK
    else ret OK
  end.

(** *** The overcommit rule as the specification words it *)


End Cpu.

(** ** Persisting, freeing, stopping, pausing, resuming and starting
       (container.cpp:1532-2729, 2937) *)

Module Lifecycle.

Import StateMachine.

(** Modelled from the spec: [FreezerSubsystem] is declared outside src/.
    "Pause writes FROZEN", "Resume writes THAWED"; a cgroup is self-freezing
    when FROZEN was written to it and parent-freezing when that holds for a
    cgroup above it. *)
Definition IsSelfFreezing (x : ptr) : M bool :=
  gets (fun w => inb x (frozen w)).
Definition IsParentFreezing (x : ptr) : M bool :=
  gets (fun w => existsb (fun a => inb a (frozen w)) (ancestors (cts w) x)).
Definition FreezerFreeze (x : ptr) : M TError :=
  e <- call (Freeze x) ;;
  if failed e then ret e
  else change (fun w => set_frozen (x :: frozen w) w) ;;; ret OK.
Definition FreezerThaw (x : ptr) (wait : bool) : M TError :=
  e <- call (Thaw x wait) ;;
  if failed e then ret e
  else
    change (fun w => set_frozen (filter (fun a => a <> x) (frozen w)) w) ;;;
    ret OK.

(** [TError TContainer::Save(void)]: the record of the container is written
    under its id; reading a property or writing the node may fail. *)
Definition Save (x : ptr) : M TError :=
  oc <- get_ct x ;;
  match oc with
  | None => ret OK
  | Some c =>
    e <- call (KvSave (Id c)) ;;
    if failed e then ret e
    else change (fun w => set_kvs (<[Id c := c]> (kvs w)) w) ;;; ret OK
  end.

(** [void TContainer::ForgetPid()] *)
Definition ForgetPid (c : TContainer) : TContainer :=
  ClearProp P_SEIZE_PID
    (set_SeizeTask_Pid 0
       (ClearProp P_ROOT_PID
          (set_WaitTask_Pid 0 (set_TaskVPid 0 (set_Task_Pid 0 c))))).

(** The fields that the second loop of [Stop] resets. *)
Definition forget (c : TContainer) : TContainer :=
  ClearProp P_OOM_KILLED
    (set_OomKilled false
       (set_OomEvents 0
          (ClearProp P_EXIT_STATUS
             (set_ExitStatus 0
                (ClearProp P_DEATH_TIME (set_DeathTime 0 (ForgetPid c))))))).

(** The "killing spree" of [Stop(0)]. *)
Definition kill_wait_task (ct : ptr) : M unit :=
  oc <- get_ct ct ;;
  match oc with
  | Some c =>
    if Isolate c && negb (WaitTask_Pid c =? 0)%Z
    then call (Kill ct) ;;; ret tt else ret tt
  | None => ret tt
  end.

(** The first loop of [Stop] over the subtree. *)
Definition stop_tasks (deadline : Z) (ct : ptr) : M unit :=
  oc <- get_ct ct ;;
  match oc with
  | None => ret tt
  | Some c =>
    if IsRoot c || state_eqb (State c) Stopped then ret tt
    else
      SetState ct Stopping ;;;
      e <- call (Terminate ct deadline) ;;
      (if failed e
       then emit (Log ("Cannot terminate tasks in " ++ Cpu.ct_label c))
       else ret tt) ;;;
      frozen_ <- IsSelfFreezing ct ;;
      if frozen_ then
        e <- FreezerThaw ct false ;;
        if failed e then emit (Log ("Cannot thaw " ++ Cpu.ct_label c)) else ret tt
      else ret tt
  end.

(** [TError TContainer::MayRespawn()]; [Parent->State] is read without a
    test of the pointer. *)
Definition MayRespawn (h : heap) (c : TContainer) : Cpu.Outcome :=
  if negb (state_eqb (State c) Dead) then
    Cpu.Returned (TError_ InvalidState "Cannot respawn non-dead container")
  else
    match Parent c ≫= (fun a => h !! a) with
    | Some p =>
      if negb (state_eqb (State p) Running) && negb (state_eqb (State p) Meta) then
        Cpu.Returned
          (TError_ InvalidState "Cannot respawn: parent container not running")
      else if (0 <=? RespawnLimit c)%Z && (RespawnLimit c <=? RespawnCount c)%Z then
        Cpu.Returned (TError_ ResourceNotAvailable "Cannot respawn: reached limit")
      else Cpu.Returned OK
    | None => Cpu.Crashed
    end.

(** The loop of [Pause] over the subtree. *)
Definition pause_node (ct : ptr) : M unit :=
  oc <- get_ct ct ;;
  match oc with
  | Some c =>
    if state_eqb (State c) Running || state_eqb (State c) Meta then
      SetState ct Paused ;;;
      emit (PropagateCpuLimit ct) ;;;
      e <- Save ct ;;
      if failed e then emit (Log "Cannot save state after pause") else ret tt
    else ret tt
  | None => ret tt
  end.

(** [TError TContainer::Pause()] called on [x]. *)
Definition Pause (x : ptr) : M TError :=
  oc <- get_ct x ;;
  match oc with
  | None => ret OK
  | Some c =>
    if negb (state_eqb (State c) Running) && negb (state_eqb (State c) Meta) then
      ret (TError_ InvalidState "Contaner not running")
    else if negb (Cpu.has_controller c Cpu.CGROUP_FREEZER) then
      ret (TError_ NotSupported "Cannot pause without freezer")
    else
      e <- FreezerFreeze x ;;
      if failed e then ret e
      else
        subtree <- gets (fun w => Subtree (cts w) x) ;;
        for_each subtree pause_node ;;;
        ret OK
  end.

(** The loop of [Resume] over the subtree; [this] is the container [Resume]
    was called on, and the state a paused container gets is chosen by
    [IsMeta()], evaluated on [this]. *)
Definition resume_node (this : ptr) (ct : ptr) : M unit :=
  frozen_ <- IsSelfFreezing ct ;;
  (if frozen_ then FreezerThaw ct false ;;; ret tt else ret tt) ;;;
  oc <- get_ct ct ;;
  othis <- get_ct this ;;
  (match oc, othis with
   | Some c, Some t =>
     if state_eqb (State c) Paused then
       SetState ct (if IsMeta t then Meta else Running) ;;;
       emit (PropagateCpuLimit ct)
     else ret tt
   | _, _ => ret tt
   end) ;;;
  e <- Save ct ;;
  if failed e then emit (Log "Cannot save state after resume") else ret tt.

(** [TError TContainer::Resume()] called on [x]. *)
Definition Resume (x : ptr) : M TError :=
  oc <- get_ct x ;;
  match oc with
  | None => ret OK
  | Some c =>
    if negb (Cpu.has_controller c Cpu.CGROUP_FREEZER) then
      ret (TError_ NotSupported "Cannot resume without freezer")
    else
      parent_paused <- IsParentFreezing x ;;
      if parent_paused then ret (TError_ InvalidState "Parent container is paused")
      else
        self_paused <- IsSelfFreezing x ;;
        if negb self_paused then ret (TError_ InvalidState "Container not paused")
        else
          e <- FreezerThaw x true ;;
          if failed e then ret e
          else
            subtree <- gets (fun w => Subtree (cts w) x) ;;
            for_each subtree (resume_node x) ;;;
            ret OK
  end.

(** [bool TContainer::RecvOomEvents()]: the eventfd is read
    ([OomEvent.Fd >= 0 && read(...) == sizeof(val) && val]); the environment
    tells the count that is read, zero when the eventfd is closed, the read
    fails or no event is pending.  A non-zero count is added to [OomEvents]. *)
Definition RecvOomEvents (x : ptr) : M bool :=
  fun w =>
    let val := kernel_oom w (trace w) x in
    if negb (val =? 0)%Z then
      (true, set_cts (update x (fun c => set_OomEvents (u64 (OomEvents c + val)) c)
                        (cts w)) w)
    else (false, w).

(** [StateName] *)
Definition StateName (s : EContainerState) : string :=
  match s with
  | Stopped => "stopped" | Dead => "dead" | Starting => "starting"
  | Running => "running" | Stopping => "stopping" | Paused => "paused"
  | Meta => "meta" | Destroyed => "destroyed"
  end.

(** [TError(const TError &other, const char* fmt, ...)]: the kind and the
    errno of [other], the text prefixed. *)
Definition TError_wrap (other : TError) (text : string) : TError :=
  mkTError (Error other) (Errno other) (text ++ ": " ++ Text other).

(** [EINVAL] and [EBUSY] of [<errno.h>]. *)
Definition EINVAL : Z := 22.
Definition EBUSY : Z := 16.

(** *** Steps that may fail *)

(** A call that returns its error. *)
Definition returned (m : M TError) : M Cpu.Outcome :=
  e <- m ;; ret (Cpu.Returned e).

(** [error = step; if (error) return error;], step after step: the first
    error is returned, and so is a crash. *)
Fixpoint steps (l : list (M Cpu.Outcome)) : M Cpu.Outcome :=
  match l with
  | [] => ret (Cpu.Returned OK)
  | m :: l' =>
    o <- m ;;
    match o with
    | Cpu.Returned e => if failed e then ret o else steps l'
    | Cpu.Crashed => ret o
    end
  end.

(** [TestPropDirty(p)] and [TestClearPropDirty(p)] on the container [x]. *)
Definition test_dirty (x : ptr) (p : EProperty) : M bool :=
  gets (fun w =>
    match cts w !! x with Some c => TestPropDirty p c | None => false end).
Definition test_clear (x : ptr) (p : EProperty) : M bool :=
  dirty <- test_dirty x p ;;
  modify x (fun c => snd (TestClearPropDirty p c)) ;;;
  ret dirty.

(** [error = call; if (error) { if (!quiet) L_ERR(text); return error; }] *)
Definition push (e : Event) (quiet : Z -> bool) (text : string) : M TError :=
  error <- call e ;;
  (if failed error && negb (quiet (Errno error)) then emit (Log text) else ret tt) ;;;
  ret error.

Definition never (_ : Z) : bool := false.
Definition on_EINVAL (errno : Z) : bool := (errno =? EINVAL)%Z.

(** [if (TestClearPropDirty(p)) { push }] *)
Definition push_dirty (x : ptr) (p : EProperty) (e : Event) (quiet : Z -> bool)
  (text : string) : M Cpu.Outcome :=
  dirty <- test_clear x p ;;
  if dirty then returned (push e quiet text) else ret (Cpu.Returned OK).

(** [TError TContainer::PrepareOomMonitor()] *)
Definition PrepareOomMonitor (x : ptr) : M TError :=
  e <- call (Subsystem "MemorySubsystem.SetupOOMEvent" x) ;;
  if failed e then ret e
  else
    e <- call (Subsystem "EpollLoop.AddSource" x) ;;
    (if failed e then emit (ShutdownOom x) else ret tt) ;;;
    ret e.

(** The loop of [PrepareCgroups] over the hierarchies: a hierarchy that has
    one of the container's controllers brings in all of its controllers; its
    cgroup is created unless it exists.  [missing] are the controllers that
    no hierarchy has offered so far. *)
Fixpoint prepare_hierarchies (x : ptr) (hierarchies : list N) (missing : N)
  : M (TError * N) :=
  match hierarchies with
  | [] => ret (OK, missing)
  | hy :: rest =>
    oc <- get_ct x ;;
    match oc with
    | None => ret (OK, missing)
    | Some c =>
      if N.eqb (N.land (Controllers c) hy) 0 then prepare_hierarchies x rest missing
      else
        (if negb (N.eqb (N.land (Controllers c) hy) hy) then
           modify x (fun c =>
             SetProp P_CONTROLLERS (set_Controllers (N.lor (Controllers c) hy) c))
         else ret tt) ;;;
        exists_ <- query (CgroupExists x hy) ;;
        if exists_ then prepare_hierarchies x rest (N.ldiff missing hy)
        else
          e <- call (CgroupCreate x hy) ;;
          if failed e then ret (e, N.ldiff missing hy)
          else prepare_hierarchies x rest (N.ldiff missing hy)
    end
  end.

(** The names of the subsystems among [missing]. *)
Definition missing_types (subsystems : list (N * string)) (missing : N) : string :=
  foldl (fun types s =>
           if negb (N.eqb (N.land (fst s) missing) 0) then types ++ " " ++ snd s
           else types)
    "" subsystems.

(** [TError TContainer::PrepareCgroups()].  Whether a systemd cgroup is
    called for is decided by data outside the record ([OsMode], the
    configuration, [RootPath], the link that [Command] is); the environment
    answers. *)
Definition PrepareCgroups (x : ptr) : M TError :=
  oc <- get_ct x ;;
  match oc with
  | None => ret OK
  | Some c =>
    op <- gets (fun w => Parent c ≫= (fun a => cts w !! a)) ;;
    (match op with
     | Some p =>
       if negb (HasProp P_CPU_SET c) then
         (* Create CPU set if some CPUs in parent are reserved *)
         if negb (Cpu.IsEqual (CpuAffinity p) (CpuVacant p)) then
           modify x (fun c =>
             set_RequiredControllers (N.lor (RequiredControllers c) Cpu.CGROUP_CPUSET)
               (set_Controllers (N.lor (Controllers c) Cpu.CGROUP_CPUSET) c)) ;;;
           emit (Log ("Enable cpuset for " ++ Cpu.ct_label c ++
                      " because parent has reserved cpus"))
         else
           modify x (fun c =>
             set_CpuVacant (CpuAffinity p) (set_CpuAffinity (CpuAffinity p) c))
       else ret tt
     | None => ret tt
     end) ;;;
    modify x (fun c =>
      if Cpu.has_controller c Cpu.CGROUP_CPUSET
      then SetProp P_CPU_SET_AFFINITY (SetProp P_CPU_SET c) else c) ;;;
    oc <- get_ct x ;;
    systemd <-
      (if match oc with
          | Some c => negb (Cpu.has_controller c Cpu.CGROUP_SYSTEMD)
          | None => false
          end
       then query (DetectSystemd x) else ret false) ;;
    (if systemd then
       emit (Log ("Enable systemd cgroup for " ++ Cpu.ct_label c)) ;;;
       modify x (fun c =>
         set_Controllers (N.lor (Controllers c) Cpu.CGROUP_SYSTEMD) c)
     else ret tt) ;;;
    missing <- gets (fun w =>
      match cts w !! x with Some c => Controllers c | None => 0%N end) ;;
    hierarchies <- gets Hierarchies ;;
    r <- prepare_hierarchies x hierarchies missing ;;
    if failed (fst r) then ret (fst r)
    else if negb (N.eqb (snd r) 0) then
      subsystems <- gets Subsystems ;;
      ret (TError_ NotSupported
             ("Some cgroup controllers are not available:" ++
              missing_types subsystems (snd r)))
    else
      oc <- get_ct x ;;
      match oc with
      | None => ret OK
      | Some c =>
        e <- (if negb (IsRoot c) && Cpu.has_controller c Cpu.CGROUP_MEMORY then
                e <- call (Subsystem "MemorySubsystem.USE_HIERARCHY" x) ;;
                if failed e then ret e
                else
                  e <- PrepareOomMonitor x ;;
                  (if failed e then emit (Log "Can't prepare OOM monitoring")
                   else ret tt) ;;;
                  ret e
              else ret OK) ;;
        if failed e then ret e
        else
          (* Nested cgroup makes a copy from parent at creation *)
          e <- (if (Level c =? 1)%Z && Cpu.has_controller c Cpu.CGROUP_DEVICES
                then call (Subsystem "Devices.Apply" x) else ret OK) ;;
          if failed e then ret e
          else
            e <- (if Cpu.has_controller c Cpu.CGROUP_NETCLS
                  then push (Subsystem "net_cls.classid" x) never "Can't set classid"
                  else ret OK) ;;
            if failed e then ret e
            else push (UpdateSoftLimit x) never "Cannot update memory soft limit"
      end
  end.

Section Run.

(** [CPU_POWER_PER_SEC] and the text that formatting a [TError] with ["{}"]
    yields ([operator<<], defined outside src/). *)
Variable CPU_POWER_PER_SEC : Z.
Variable format_error : TError -> string.

(** *** Freeing resources *)

(** [void TContainer::FreeRuntimeResources()]: when the container holds
    reserved CPUs its parent distributes its CPUs anew. *)
Definition FreeRuntimeResources (x : ptr) : M Cpu.Ending :=
  emit (ShutdownOom x) ;;;
  e <- call (UpdateSoftLimit x) ;;
  (if failed e then emit (Log "Cannot update memory soft limit") else ret tt) ;;;
  oc <- get_ct x ;;
  match oc with
  | None => ret Cpu.Done
  | Some c =>
    o <- (match Parent c with
          | Some parent =>
            if negb (Cpu.Weight (CpuReserve c) =? 0)%nat
            then Cpu.DistributeCpus CPU_POWER_PER_SEC parent
            else ret (Cpu.Returned OK)
          | None => ret (Cpu.Returned OK)
          end) ;;
    match o with
    | Cpu.Crashed => ret Cpu.Died
    | Cpu.Returned e =>
      (if failed e then emit (Log "Cannot redistribute CPUs") else ret tt) ;;;
      emit (PropagateCpuLimit x) ;;;
      propagate <- gets propagate_cpu_guarantee ;;
      (if negb (CpuGuarantee c =? 0)%Z && propagate then
         up <- gets (fun w => ancestors (cts w) x) ;;
         for_each up (fun p => Cpu.ApplyCpuGuarantee p ;;; ret tt)
       else ret tt) ;;;
      ret Cpu.Done
    end
  end.

(** [void TContainer::FreeResources()] *)
Definition FreeResources (x : ptr) : M Cpu.Ending :=
  o <- FreeRuntimeResources x ;;
  match o with
  | Cpu.Died => ret Cpu.Died
  | Cpu.Done =>
    emit (StopNetwork x) ;;;
    oc <- get_ct x ;;
    match oc with
    | None => ret Cpu.Done
    | Some c =>
      if IsRoot c then ret Cpu.Done
      else
        hierarchies <- gets Hierarchies ;;
        for_each hierarchies (fun hy =>
          if negb (N.eqb (N.land (Controllers c) hy) 0)
          then emit (CgroupRemove x hy) else ret tt) ;;;
        e <- call (UmountLinks x) ;;
        (if failed e then emit (Log "Cannot umount volume link") else ret tt) ;;;
        emit (RemoveWorkDir x) ;;;
        emit (RemoveStdStreams x) ;;;
        ret Cpu.Done
    end
  end.

(** *** Stop *)

(** The second loop of [Stop]; [this] is the container [Stop] was called on,
    and the record that is written is the one of [this]
    ([error = Save();]). *)
Fixpoint stop_nodes (this : ptr) (l : list ptr) : M Cpu.Outcome :=
  match l with
  | [] => ret (Cpu.Returned OK)
  | ct :: l' =>
    oc <- get_ct ct ;;
    match oc with
    | None => stop_nodes this l'
    | Some c =>
      if state_eqb (State c) Stopped then stop_nodes this l'
      else
        modify ct forget ;;;
        o <- FreeResources ct ;;
        match o with
        | Cpu.Died => ret Cpu.Crashed
        | Cpu.Done =>
          SetState ct Stopped ;;;
          e <- Save this ;;
          if failed e then ret (Cpu.Returned e) else stop_nodes this l'
        end
    end
  end.

(** [TError TContainer::Stop(uint64_t timeout)] called on [x]. *)
Definition Stop (x : ptr) (timeout : Z) : M Cpu.Outcome :=
  time <- gets now ;;
  let deadline := if (timeout =? 0)%Z then 0%Z else u64 (time + timeout) in
  oc <- get_ct x ;;
  match oc with
  | None => ret (Cpu.Returned OK)
  | Some c =>
    if state_eqb (State c) Stopped then ret (Cpu.Returned OK)
    else
      parent_paused <-
        (if Cpu.has_controller c Cpu.CGROUP_FREEZER
         then IsParentFreezing x else ret false) ;;
      if negb (Cpu.has_controller c Cpu.CGROUP_FREEZER) &&
         negb (Task_Pid c =? 0)%Z
      then ret (Cpu.Returned (TError_ NotSupported "Cannot stop without freezer"))
      else if parent_paused
      then ret (Cpu.Returned (TError_ InvalidState "Parent container is paused"))
      else
        subtree <- gets (fun w => Subtree (cts w) x) ;;
        (* Downgrade explusive lock if we are going to wait. *)
        (if negb (timeout =? 0)%Z then emit DowngradeLock else ret tt) ;;;
        (if (timeout =? 0)%Z
         then for_each (rev subtree) kill_wait_task else ret tt) ;;;
        for_each subtree (stop_tasks deadline) ;;;
        (if negb (timeout =? 0)%Z then emit UpgradeLock else ret tt) ;;;
        stop_nodes x subtree
  end.

(** *** Reap *)

(** [void TContainer::Reap(bool oomKilled)] *)
Definition Reap (x : ptr) (oomKilled : bool) : M Cpu.Ending :=
  e <- call (Terminate x 0) ;;
  (if failed e then emit (Log "Cannot terminate") else ret tt) ;;;
  time <- gets now ;;
  modify x (fun c => SetProp P_DEATH_TIME (set_DeathTime time c)) ;;;
  (if oomKilled
   then modify x (fun c => SetProp P_OOM_KILLED (set_OomKilled true c))
   else ret tt) ;;;
  modify x ForgetPid ;;;
  emit (RotateStdStreams x) ;;;
  SetState x Dead ;;;
  o <- FreeRuntimeResources x ;;
  match o with
  | Cpu.Died => ret Cpu.Died
  | Cpu.Done =>
    e <- Save x ;;
    (if failed e then emit (Log "Cannot save container state after exit")
     else ret tt) ;;;
    h <- gets cts ;;
    match h !! x with
    | Some c =>
      if AutoRespawn c then
        match MayRespawn h c with
        | Cpu.Crashed => ret Cpu.Died
        | Cpu.Returned e =>
          (if negb (failed e) then emit (ScheduleRespawn x) else ret tt) ;;;
          ret Cpu.Done
        end
      else ret Cpu.Done
    | None => ret Cpu.Done
    end
  end.

(** *** Pushing the dirty properties to the kernel *)

(** The limits of the memory cgroup. *)
Definition apply_mem_limit (x : ptr) : M Cpu.Outcome :=
  dirty <- test_clear x P_MEM_LIMIT ;;
  if dirty then
    error <- call (Subsystem "MemorySubsystem.SetLimit" x) ;;
    if failed error then
      if (Errno error =? EBUSY)%Z then
        limit <- gets (fun w =>
          match cts w !! x with Some c => MemLimit c | None => 0%Z end) ;;
        ret (Cpu.Returned
               (TError_ InvalidValue
                  ("Limit is too low: " ++ to_string (Z.to_nat limit))))
      else
        (if negb (Errno error =? EINVAL)%Z
         then emit (Log "Can't set memory_limit") else ret tt) ;;;
        ret (Cpu.Returned error)
    else ret (Cpu.Returned error)
  else ret (Cpu.Returned OK).

(** [IO_LIMIT] and [IO_OPS_LIMIT]: the memory cgroup when a limit for ["fs"]
    is configured, then the blkio cgroup. *)
Definition apply_io_limit (x : ptr) (p : EProperty) (limits mem blkio text : string)
  : M Cpu.Outcome :=
  dirty <- test_clear x p ;;
  if dirty then
    fs <- query (Has limits x) ;;
    error <- (if fs then push (Subsystem mem x) on_EINVAL text else ret OK) ;;
    if failed error then ret (Cpu.Returned error)
    else returned (call (Subsystem blkio x))
  else ret (Cpu.Returned OK).

Definition apply_io_weight (x : ptr) : M Cpu.Outcome :=
  weight <- test_clear x P_IO_WEIGHT ;;
  policy <- test_dirty x P_IO_POLICY ;;
  oc <- get_ct x ;;
  if (weight || policy) &&
     match oc with
     | Some c => Cpu.has_controller c Cpu.CGROUP_BLKIO
     | None => false
     end
  then returned (push (Subsystem "BlkioSubsystem.SetIoWeight" x) on_EINVAL
                   "Can't set io_policy")
  else ret (Cpu.Returned OK).

Definition apply_hugetlb (x : ptr) : M Cpu.Outcome :=
  dirty <- test_clear x P_HUGETLB_LIMIT ;;
  if dirty then
    error <- push (Subsystem "HugetlbSubsystem.SetHugeLimit" x) on_EINVAL
               "Can't set hugetlb_limit" ;;
    if failed error then ret (Cpu.Returned error)
    else
      giga <- query (Has "HugetlbSubsystem.SupportGigaPages" x) ;;
      (if giga then
         error <- call (Subsystem "HugetlbSubsystem.SetGigaLimit" x) ;;
         if failed error then emit (Log "Cannot forbid 1GB pages") else ret tt
       else ret tt) ;;;
      ret (Cpu.Returned OK)
  else ret (Cpu.Returned OK).

(** [for (auto ct = this; ct; ct = ct->Parent.get())] with
    [ApplyCpuGuarantee]; the walk stops after [this] unless the configuration
    propagates guarantees. *)
Fixpoint apply_guarantees (propagate : bool) (l : list ptr) : M TError :=
  match l with
  | [] => ret OK
  | ct :: l' =>
    error <- Cpu.ApplyCpuGuarantee ct ;;
    if failed error then ret error
    else if negb propagate then ret OK
    else apply_guarantees propagate l'
  end.

Definition apply_cpu_guarantee (x : ptr) : M Cpu.Outcome :=
  oc <- get_ct x ;;
  if match oc with Some c => Cpu.has_controller c Cpu.CGROUP_CPU | None => false end
  then
    period <- test_dirty x P_CPU_PERIOD ;;
    guarantee <- test_clear x P_CPU_GUARANTEE ;;
    if period || guarantee then
      propagate <- gets propagate_cpu_guarantee ;;
      up <- gets (fun w => ancestors (cts w) x) ;;
      returned (apply_guarantees propagate (x :: up))
    else ret (Cpu.Returned OK)
  else ret (Cpu.Returned OK).

Definition propagate_cpu_limit (x : ptr) : M Cpu.Outcome :=
  dirty <- test_dirty x P_CPU_LIMIT ;;
  (if dirty then emit (PropagateCpuLimit x) else ret tt) ;;;
  ret (Cpu.Returned OK).

Definition apply_cpu_limit (x : ptr) : M Cpu.Outcome :=
  oc <- get_ct x ;;
  if match oc with Some c => Cpu.has_controller c Cpu.CGROUP_CPU | None => false end
  then
    policy <- test_dirty x P_CPU_POLICY ;;
    weight <- test_dirty x P_CPU_WEIGHT ;;
    limit <- test_clear x P_CPU_LIMIT ;;
    period <- test_clear x P_CPU_PERIOD ;;
    if policy || weight || limit || period
    then returned (call (ApplyCpuLimit x))
    else ret (Cpu.Returned OK)
  else ret (Cpu.Returned OK).

(** [if (TestClearPropDirty(CPU_POLICY) || TestClearPropDirty(CPU_WEIGHT))]:
    the mark of [CPU_WEIGHT] is cleared only when [CPU_POLICY] is clean. *)
Definition apply_sched_policy (x : ptr) : M Cpu.Outcome :=
  policy <- test_clear x P_CPU_POLICY ;;
  weight <- (if policy then ret true else test_clear x P_CPU_WEIGHT) ;;
  if weight
  then returned (push (ApplySchedPolicy x) never "Cannot set scheduler policy")
  else ret (Cpu.Returned OK).

(** [if (TestClearPropDirty(EProperty::CPU_SET) && Parent)
       error = Parent->DistributeCpus();] *)
Definition apply_cpu_set (x : ptr) : M Cpu.Outcome :=
  dirty <- test_clear x P_CPU_SET ;;
  oc <- get_ct x ;;
  match oc ≫= Parent with
  | Some parent =>
    if dirty then Cpu.DistributeCpus CPU_POWER_PER_SEC parent
    else ret (Cpu.Returned OK)
  | None => ret (Cpu.Returned OK)
  end.

Definition apply_net (x : ptr) : M Cpu.Outcome :=
  prio <- test_clear x P_NET_PRIO ;;
  limit <- test_clear x P_NET_LIMIT ;;
  guarantee <- test_clear x P_NET_GUARANTEE ;;
  rx <- test_clear x P_NET_RX_LIMIT ;;
  if prio || limit || guarantee || rx then
    net <- query (Has "Net" x) ;;
    if net then returned (call (Subsystem "Net.SetupClasses" x))
    else ret (Cpu.Returned OK)
  else ret (Cpu.Returned OK).

(** The limits of the tasks, for every container of the subtree that is
    up. *)
Definition apply_ulimit_node (ct : ptr) : M TError :=
  oc <- get_ct ct ;;
  match oc with
  | Some c =>
    if Cpu.dormant c then ret OK
    else push (ApplyUlimits ct) never "Cannot update ulimit"
  | None => ret OK
  end.

Definition apply_ulimit (x : ptr) : M Cpu.Outcome :=
  dirty <- test_clear x P_ULIMIT ;;
  if dirty then
    subtree <- gets (fun w => Subtree (cts w) x) ;;
    returned (for_each_err subtree apply_ulimit_node)
  else ret (Cpu.Returned OK).

(** [TError TContainer::ApplyDynamicProperties()] called on [x]: every
    property that is dirty is pushed, in this order, and its mark dropped. *)
Definition ApplyDynamicProperties (x : ptr) : M Cpu.Outcome :=
  steps
    [ push_dirty x P_MEM_GUARANTEE (Subsystem "MemorySubsystem.SetGuarantee" x)
        on_EINVAL "Can't set memory_guarantee";
      apply_mem_limit x;
      push_dirty x P_ANON_LIMIT (Subsystem "MemorySubsystem.SetAnonLimit" x)
        (fun errno => (errno =? EINVAL)%Z || (errno =? EBUSY)%Z)
        "Can't set anon_limit";
      push_dirty x P_DIRTY_LIMIT (Subsystem "MemorySubsystem.SetDirtyLimit" x)
        on_EINVAL "Can't set dirty_limit";
      push_dirty x P_RECHARGE_ON_PGFAULT
        (Subsystem "MemorySubsystem.RechargeOnPgfault" x)
        on_EINVAL "Can't set recharge_on_pgfault";
      push_dirty x P_PRESSURIZE_ON_DEATH (UpdateSoftLimit x)
        on_EINVAL "Can't set pressurize_on_death";
      apply_io_limit x P_IO_LIMIT "IoBpsLimit[fs]" "MemorySubsystem.SetIoLimit"
        "BlkioSubsystem.SetIoLimit" "Can't set io_limit";
      apply_io_limit x P_IO_OPS_LIMIT "IoOpsLimit[fs]" "MemorySubsystem.SetIopsLimit"
        "BlkioSubsystem.SetIoLimit(iops)" "Can't set io_ops_limit";
      apply_io_weight x;
      push_dirty x P_IO_POLICY (ApplyIoPolicy x) never "Cannot set io policy";
      apply_hugetlb x;
      apply_cpu_guarantee x;
      propagate_cpu_limit x;
      apply_cpu_limit x;
      apply_sched_policy x;
      apply_cpu_set x;
      apply_net x;
      apply_ulimit x;
      push_dirty x P_THREAD_LIMIT (Subsystem "PidsSubsystem.SetLimit" x)
        never "Cannot set thread limit";
      push_dirty x P_RESOLV_CONF (ApplyResolvConf x)
        never "Cannot change /etc/resolv.conf contents";
      push_dirty x P_DEVICE_CONF (ApplyDeviceConf x)
        never "Cannot change allowed devices" ].

(** *** Start *)

(** [TError TContainer::StartTask()], up to the launcher: the outcome when
    the function returns from there, [None] when it goes on. *)
Definition task_prepare (x : ptr) (c : TContainer) : M (option Cpu.Outcome) :=
  (* After restart apply all set dynamic properties; RESOLV_CONF and
     DEVICE_CONF are applied by the starting task *)
  modify x (fun c =>
    snd (TestClearPropDirty P_DEVICE_CONF
           (snd (TestClearPropDirty P_RESOLV_CONF
                   (set_PropDirty (PropSet c) c))))) ;;;
  o <- steps [ ApplyDynamicProperties x;
               returned (call (OpenNamespaces x));
               returned (call (PrepareTask x)) ] ;;
  match o with
  | Cpu.Crashed => ret (Some Cpu.Crashed)
  | Cpu.Returned e =>
    if failed e then ret (Some (Cpu.Returned e))
    else
      new_mnt <- query (NewMountNs x) ;;
      (* Meta container without namespaces don't need task *)
      if IsMeta c && negb (Isolate c) && NetInherit c && negb new_mnt
      then ret (Some (Cpu.Returned OK))
      else ret None
  end.

(** [TError TContainer::StartTask()] *)
Definition StartTask (x : ptr) : M Cpu.Outcome :=
  e <- call (StartNetwork x) ;;
  if failed e then ret (Cpu.Returned e)
  else
    oc <- get_ct x ;;
    match oc with
    | None => ret (Cpu.Returned OK)
    | Some c =>
      if IsRoot c then ret (Cpu.Returned OK)
      else
        o <- task_prepare x c ;;
        match o with
        | Some out => ret out
        | None =>
          e <- call (TaskEnvStart x) ;;
          (* Always report OOM stuation if any *)
          if failed e then
            oom <- RecvOomEvents x ;;
            if oom then
              ret (Cpu.Returned
                     (TError_ ResourceNotAvailable
                        ("OOM at container " ++ Name c ++ " start: " ++
                         format_error e)))
            else ret (Cpu.Returned e)
          else ret (Cpu.Returned e)
        end
    end.

(** [undo: FreeResources(); return error;] *)
Definition undo (x : ptr) (e : TError) : M Cpu.Outcome :=
  o <- FreeResources x ;;
  match o with
  | Cpu.Died => ret Cpu.Crashed
  | Cpu.Done => ret (Cpu.Returned e)
  end.

(** [TError TContainer::PrepareResources()] *)
Definition PrepareResources (x : ptr) : M Cpu.Outcome :=
  oc <- get_ct x ;;
  match oc with
  | None => ret (Cpu.Returned OK)
  | Some c =>
    o <- (if IsRoot c then Cpu.DistributeCpus CPU_POWER_PER_SEC x
          else ret (Cpu.Returned OK)) ;;
    match o with
    | Cpu.Crashed => ret Cpu.Crashed
    | Cpu.Returned e =>
      if failed e then ret (Cpu.Returned e)
      else
        e <- gets MemGuarantee.CheckMemGuarantee ;;
        if failed e then ret (Cpu.Returned e)
        else
          e <- call (CreateWorkDir x) ;;
          if failed e then ret (Cpu.Returned e)
          else
            emit (InitClass x) ;;;
            e <- PrepareCgroups x ;;
            if failed e then
              emit (Log "Can't prepare task cgroups") ;;;
              undo x e
            else
              e <- call (MountLinks x) ;;
              if failed e then undo x e
              else
                e <- call (CheckRequired x) ;;
                if failed e then undo x e
                else emit (PropagateCpuLimit x) ;;; ret (Cpu.Returned OK)
    end
  end.

(** The container that one turn of the loop of [StartParents] starts: from
    the parent upwards, the last container whose own parent is neither
    [Running] nor [Meta]; [up] are the containers above [target]. *)
Fixpoint climb (h : heap) (target : ptr) (up : list ptr) : ptr :=
  match up with
  | [] => target
  | a :: up' =>
    match h !! a with
    | Some ca =>
      if state_eqb (State ca) Running || state_eqb (State ca) Meta then target
      else climb h a up'
    | None => target
    end
  end.

(** How far a call has got: it goes on, it has ended, or the bound on the
    starts of parents is used up. *)
Inductive Progress := GoOn | Ended (o : Cpu.Outcome) | Unfinished.

(** The [do ... while (target != Parent)] of [StartParents]; [start] is
    [Start], [n] bounds the turns: one for every container above. *)
Fixpoint start_parents (start : ptr -> M (option Cpu.Outcome)) (n : nat)
  (parent : ptr) : M Progress :=
  match n with
  | O => ret Unfinished
  | S n' =>
    target <- gets (fun w => climb (cts w) parent (ancestors (cts w) parent)) ;;
    e <- call (LockContainer target) ;;
    if failed e then ret (Ended (Cpu.Returned e))
    else
      o <- start target ;;
      match o with
      | None => ret Unfinished
      | Some Cpu.Crashed => ret (Ended Cpu.Crashed)
      | Some (Cpu.Returned e) =>
        if failed e then ret (Ended (Cpu.Returned e))
        else if Nat.eqb target parent then ret GoOn
        else start_parents start n' parent
      end
  end.

(** [TError TContainer::StartParents()] called on [x]; [GoOn] stands for
    [return OK].  Whether the freezer cgroup of the parent is frozen is the
    environment's answer. *)
Definition StartParents (start : ptr -> M (option Cpu.Outcome)) (x : ptr)
  : M Progress :=
  op <- gets (fun w => cts w !! x ≫= Parent) ;;
  match op with
  | None => ret GoOn
  | Some parent =>
    frozen_ <- query (IsFrozen parent) ;;
    if frozen_ then
      ret (Ended (Cpu.Returned (TError_ InvalidState "Parent container is frozen")))
    else
      opc <- get_ct parent ;;
      if match opc with
         | Some pc => state_eqb (State pc) Running || state_eqb (State pc) Meta
         | None => true
         end
      then ret GoOn
      else
        n <- gets (fun w => length (cts w)) ;;
        start_parents start n parent
  end.

(** [TError TContainer::Start()], up to [PrepareResources()]. *)
Definition start_prepare (start : ptr -> M (option Cpu.Outcome)) (x : ptr)
  (c : TContainer) : M Progress :=
  if negb (state_eqb (State c) Stopped) then
    ret (Ended (Cpu.Returned
                  (TError_ InvalidState
                     ("Cannot start container " ++ Name c ++ " in state " ++
                      StateName (State c)))))
  else
    p <- StartParents start x ;;
    match p with
    | GoOn =>
      e <- call (PrepareStart x) ;;
      if failed e then
        ret (Ended (Cpu.Returned
                      (TError_wrap e ("Cannot prepare start for container " ++ Name c))))
      else
        SetState x Starting ;;;
        time <- gets now ;;
        modify x (fun c => SetProp P_START_TIME (set_StartTime time c)) ;;;
        o <- PrepareResources x ;;
        match o with
        | Cpu.Crashed => ret (Ended Cpu.Crashed)
        | Cpu.Returned e =>
          if failed e then SetState x Stopped ;;; ret (Ended (Cpu.Returned e))
          else ret GoOn
        end
    | _ => ret p
    end.

(** [TError TContainer::Start()], from the task on. *)
Definition start_task (x : ptr) (c : TContainer) : M Cpu.Outcome :=
  emit DowngradeLock ;;;
  o <- StartTask x ;;
  emit UpgradeLock ;;;
  match o with
  | Cpu.Crashed => ret Cpu.Crashed
  | Cpu.Returned e =>
    if failed e then
      SetState x Stopping ;;;
      call (Terminate x 0) ;;;
      o <- FreeResources x ;;
      match o with
      | Cpu.Died => ret Cpu.Crashed
      | Cpu.Done => SetState x Stopped ;;; ret (Cpu.Returned e)
      end
    else
      SetState x (if IsMeta c then Meta else Running) ;;;
      modify x (SetProp P_ROOT_PID) ;;;
      e <- Save x ;;
      if failed e then
        emit (Log "Cannot save state after start") ;;;
        o <- Reap x false ;;
        match o with
        | Cpu.Died => ret Cpu.Crashed
        | Cpu.Done => ret (Cpu.Returned e)
        end
      else ret (Cpu.Returned e)
  end.

(** [TError TContainer::Start()] called on [x].  [StartParents] starts
    containers above [x], which start containers above them: [n] bounds the
    depth of these calls, and [None] is the answer of a call that has used
    the bound up. *)
Fixpoint Start_ (n : nat) (x : ptr) : M (option Cpu.Outcome) :=
  match n with
  | O => ret None
  | S n' =>
    oc <- get_ct x ;;
    match oc with
    | None => ret (Some (Cpu.Returned OK))
    | Some c =>
      p <- start_prepare (Start_ n') x c ;;
      match p with
      | GoOn => o <- start_task x c ;; ret (Some o)
      | Ended out => ret (Some out)
      | Unfinished => ret None
      end
    end
  end.

(** A container is deeper than each container above it: the heap has more
    containers than a chain of starts has calls. *)
Definition Start (x : ptr) : M (option Cpu.Outcome) :=
  fun w => Start_ (S (length (cts w))) x w.

End Run.

(** *** The footprint of a computation *)

(** [w'] has the containers of [w] under the same ids, and the same records
    in the key-value store except, possibly, under [id0]. *)
Definition stable (id0 : Z) (w w' : World) : Prop :=
  Id <$> cts w' = Id <$> cts w /\
  forall id, id <> id0 -> kvs w' !! id = kvs w !! id.

(** Run from a world where [x] has the id [id0], [m] leaves such a world. *)
Definition keeps (id0 : Z) (x : ptr) {A} (m : M A) : Prop :=
  forall w, Id <$> cts w !! x = Some id0 -> stable id0 w (snd (m w)).

End Lifecycle.

(** ** Setting a property ([TContainer::SetProperty], container.cpp:2884) *)

Module Properties.

(** [static bool ParsePropertyName(std::string &name, std::string &idx)]:
    the flag, and the two strings as the call leaves them. *)
Definition last_char (s : string) : option ascii :=
  String.get (String.length s - 1) s.

Definition ParsePropertyName (name idx : string) : bool * string * string :=
  if negb (String.length name =? 0)%nat &&
     match last_char name with Some c => Ascii.eqb c "]" | None => false end
  then
    match String.index 0 "[" name with
    | Some lb =>
      let tail := substring (lb + 1) (String.length name - (lb + 1)) name in
      (true, substring 0 lb name, substring 0 (String.length tail - 1) tail)
    | None => (false, name, idx)
    end
  else (false, name, idx).

(** [TError TContainer::EnableControllers(uint64_t controllers)] *)
Definition EnableControllers (x : ptr) (controllers : N) : M TError :=
  oc <- get_ct x ;;
  match oc with
  | None => ret OK
  | Some c =>
    if state_eqb (State c) Stopped then
      modify x (fun c =>
        set_RequiredControllers (N.lor (RequiredControllers c) controllers)
          (set_Controllers (N.lor (Controllers c) controllers) c)) ;;;
      ret OK
    else if negb (N.eqb (N.land (Controllers c) controllers) controllers) then
      ret (TError_ NotSupported "Cannot enable controllers in runtime")
    else ret OK
  end.

(** The interface of a property of the registry ([class TProperty], declared
    outside src/): its tag ([Prop]), the controllers it needs, and its methods,
    which act on the container [CT] points to. *)
Record TProperty := mkTProperty {
  Prop_ : EProperty;
  RequireControllers : N;
  CanSet : ptr -> M TError;
  Get : ptr -> M (TError * string);
  Set_ : ptr -> string -> M TError;
  SetIndexed : ptr -> string -> string -> M TError
}.

Section Registry.

(** [CPU_POWER_PER_SEC], the registry [ContainerProperties] ([find] by name),
    [StringTrim] and [HasResources()] are declared outside src/. *)
Variable CPU_POWER_PER_SEC : Z.
Variable ContainerProperties : string -> option TProperty.
Variable StringTrim : string -> string.
Variable HasResources : TContainer -> bool.

(** [SetProperty] from [error = prop->CanSet();] to the new value: the error
    so far and the value that the property had. *)
Definition set_value (x : ptr) (prop : TProperty) (idx value : string)
  : M (TError * string) :=
  error <- CanSet prop x ;;
  error <-
    (if negb (failed error) && negb (N.eqb (RequireControllers prop) 0)
     then EnableControllers x (RequireControllers prop) else ret error) ;;
  r <- (if negb (failed error) then Get prop x else ret (error, "")) ;;
  let '(error, oldValue) := r in
  error <-
    (if negb (failed error) then
       if negb (String.length idx =? 0)%nat
       then SetIndexed prop x idx value else Set_ prop x value
     else ret error) ;;
  ret (error, oldValue).

(** The tail of [SetProperty], from [error = prop->CanSet();] on. *)
Definition set_and_apply (x : ptr) (prop : TProperty) (idx value : string)
  : M Cpu.Outcome :=
  r <- set_value x prop idx value ;;
  let '(error, oldValue) := r in
  oc <- get_ct x ;;
  if negb (failed error) &&
     match oc with Some c => HasResources c | None => false end
  then
    o <- Lifecycle.ApplyDynamicProperties CPU_POWER_PER_SEC x ;;
    match o with
    | Cpu.Crashed => ret Cpu.Crashed
    | Cpu.Returned error =>
      if failed error then
        Set_ prop x oldValue ;;;
        modify x (fun c => snd (TestClearPropDirty (Prop_ prop) c)) ;;;
        ret (Cpu.Returned error)
      else Lifecycle.returned (Lifecycle.Save x)
    end
  else if negb (failed error) then Lifecycle.returned (Lifecycle.Save x)
  else ret (Cpu.Returned error).

(** [TError TContainer::SetProperty(const std::string &origProperty,
       const std::string &origValue)] called on [x]. *)
Definition SetProperty (x : ptr) (origProperty origValue : string)
  : M Cpu.Outcome :=
  oc <- get_ct x ;;
  match oc with
  | None => ret (Cpu.Returned OK)
  | Some c =>
    if IsRoot c then
      ret (Cpu.Returned (TError_ Permission "System containers are read only"))
    else
      let '(indexed, property, idx) := ParsePropertyName origProperty "" in
      if indexed && (String.length idx =? 0)%nat then
        ret (Cpu.Returned (TError_ InvalidProperty "Empty property index"))
      else
        let value := StringTrim origValue in
        match ContainerProperties property with
        | None =>
          ret (Cpu.Returned (TError_ InvalidProperty ("Invalid property " ++ property)))
        | Some prop => set_and_apply x prop idx value
        end
  end.

End Registry.

(** A registry with the one property ["private"], whose value is the field
    [Private]; setting it marks the property set and dirty. *)
Definition private_property : TProperty :=
  mkTProperty P_PRIVATE 0
    (fun _ => ret OK)
    (fun x w =>
       match cts w !! x with
       | Some c => ((OK, Private c), w)
       | None => ((TError_ NoValue "", ""), w)
       end)
    (fun x v => modify x (fun c => SetProp P_PRIVATE (set_Private v c)) ;;; ret OK)
    (fun x _ _ => ret (TError_ InvalidValue "Invalid subscript for property")).

Definition private_registry (name : string) : option TProperty :=
  if String.eqb name "private" then Some private_property else None.


End Properties.

(** ** Concrete containers and worlds *)

Module Examples.

(** A container as the constructor leaves it: stopped, unlocked, with the
    freezer controller, no task and no CPUs.  In the heaps below the root
    is at pointer 0 and its children are at pointer 1: the level of a
    container is one more than the pointer of its parent. *)
Definition container (id : Z) (name : string) (parent : option ptr)
  (children : list ptr) (state : EContainerState) (meta : bool) : TContainer :=
  {| Id := id; Name := name; Parent := parent; Children := children;
     Level := match parent with None => 0 | Some a => Z.of_nat a + 1 end;
     State := state;
     Locked := 0; PendingWrite := false; SubtreeRead := 0; SubtreeWrite := 0;
     LastOwner := 0;
     StartingChildren := 0; RunningChildren := 0;
     IsMeta := meta; Isolate := true; NetInherit := true;
     Controllers := Cpu.CGROUP_FREEZER; RequiredControllers := Cpu.CGROUP_FREEZER;
     Private := ""; AutoRespawn := false; RespawnLimit := -1; RespawnCount := 0;
     NewMemGuarantee := 0; MemLimit := 0;
     CpuSetType := Inherit; CpuSetArg := 0; CpuGuarantee := 0; CpuGuaranteeSum := 0;
     CpuGuaranteeCur := 0;
     PropSet := N.setbit 0 (prop_index P_STATE); PropDirty := 0;
     Task_Pid := 0; TaskVPid := 0; WaitTask_Pid := 0; SeizeTask_Pid := 0;
     StartTime := 0; DeathTime := 0; ExitStatus := 0;
     OomEvents := 0; OomKilled := false;
     CpuAffinity := 0; CpuVacant := 0; CpuReserve := 0 |}.

(** The hierarchies of a host: one per controller, but for cpu and cpuacct,
    which share one. *)
Definition hierarchies : list N := [1; 2; 12; 16; 32; 64; 128]%N.
Definition subsystems : list (N * string) :=
  [(1, "freezer"); (2, "memory"); (4, "cpu"); (8, "cpuacct"); (16, "net_cls");
   (32, "blkio"); (64, "cpuset"); (128, "devices")]%N.

(** The answers of a host on which cgroups exist, no freezer is frozen and
    no container runs systemd. *)
Definition flags (_ : list Event) (e : Event) : bool :=
  match e with
  | IsFrozen _ | DetectSystemd _ => false
  | _ => true
  end.

(** A world in which every call into a collaborator succeeds. *)
Definition world (h : heap) : World :=
  {| cts := h; kvs := ∅; frozen := []; trace := []; now := 1000;
     TotalMemory := 2 ^ 30; memory_guarantee_reserve := 0;
     RootContainer := 0; LockedContainer := 0;
     propagate_cpu_guarantee := false; Hierarchies := hierarchies;
     Subsystems := subsystems;
     CoreThreads := []; NumaNodes := 0; NodeThreads := [];
     kernel := fun _ _ => OK;
     kernel_flag := flags;
     kernel_cpus := fun _ _ => 0%N;
     kernel_oom := fun _ _ => 0%Z |}.

(** The root, ["a"] below it and ["a/b"] below ["a"]. *)
Definition chain3 (sroot sa sb : EContainerState) (meta_a meta_b : bool) : heap :=
  [container 1 "/" None [1] sroot true;
   container 2 "a" (Some 0) [2] sa meta_a;
   container 3 "a/b" (Some 1) [] sb meta_b].

(** [wf], computed. *)
Definition wfb (h : heap) : bool :=
  forallb (fun '(x, c) =>
    match Parent c with Some a => (a <? x)%nat | None => true end &&
    forallb (fun k => (x <? k)%nat && (k <? length h)%nat) (Children c))
    (imap pair h).

(** Locking: the root is read-locked by thread 7, ["a/b"] is idle. *)
Definition idle_heap : heap := chain3 Meta Meta Stopped true false.
Definition read_locked_root : heap := snd (Locking.Lock idle_heap 0 true true 7).

(** Stopping: ["a"] and ["a/b"] run a task each, and their records in the
    key-value store say so. *)
Definition stop_heap : heap :=
  [container 1 "/" None [1] Meta true;
   set_WaitTask_Pid 10 (set_Task_Pid 10 (container 2 "a" (Some 0) [2] Running false));
   set_WaitTask_Pid 11 (set_Task_Pid 11 (container 3 "a/b" (Some 1) [] Running false))].
Definition stop_world : World :=
  set_kvs
    (<[2%Z := set_WaitTask_Pid 10
                (set_Task_Pid 10 (container 2 "a" (Some 0) [2] Running false))]>
       (<[3%Z := set_WaitTask_Pid 11
                   (set_Task_Pid 11 (container 3 "a/b" (Some 1) [] Running false))]> ∅))
    (world stop_heap).

Definition is_save (e : Event) : bool :=
  match e with KvSave _ => true | _ => false end.

(** Pausing: ["a"] is a meta container, ["a/b"] runs a task. *)
Definition pause_world : World := world (chain3 Meta Meta Running true false).

(** CPUs: ["a"] has the CPUs 0-3 (two cores of two threads); its child
    ["a/b"] asks for two threads, its child ["a/c"] inherits and has a
    guarantee of three CPUs. *)
Definition CPU_POWER_PER_SEC : Z := 1000000000.
Definition cpu_heap (state_b : EContainerState) (guarantee_c : Z) : heap :=
  [container 1 "/" None [1] Meta true;
   set_CpuAffinity 15 (container 2 "a" (Some 0) [2; 3] Meta true);
   set_CpuSetArg 2 (set_CpuSetType Threads
     (container 3 "a/b" (Some 1) [] state_b false));
   set_CpuGuarantee guarantee_c (container 4 "a/c" (Some 1) [] Running false)].
Definition cpu_world (state_b : EContainerState) (guarantee_c : Z) : World :=
  set_CoreThreads [3%N; 3%N; 12%N; 12%N] (world (cpu_heap state_b guarantee_c)).
(** The same once [DistributeCpus] on ["a"] has declared all of its CPUs
    vacant, before the first parent is visited. *)
Definition cpu_ready (state_b : EContainerState) (guarantee_c : Z) : World :=
  snd (modify 1 (fun c => set_CpuVacant (CpuAffinity c) c)
         (cpu_world state_b guarantee_c)).

(** Memory: 64 GiB of memory, a reserve of 2 GiB and one container, stopped,
    whose guarantee is [2^64 - 2^31] bytes. *)
Definition mem_heap (state_a : EContainerState) : heap :=
  [container 1 "/" None [1] Meta true;
   set_NewMemGuarantee (2 ^ 64 - 2 ^ 31) (container 2 "a" (Some 0) [] state_a false)].
Definition mem_world (state_a : EContainerState) : World :=
  {| cts := mem_heap state_a; kvs := ∅; frozen := []; trace := []; now := 1000;
     TotalMemory := 2 ^ 36; memory_guarantee_reserve := 2 ^ 31;
     RootContainer := 0; LockedContainer := 1;
     propagate_cpu_guarantee := false; Hierarchies := hierarchies;
     Subsystems := subsystems;
     CoreThreads := []; NumaNodes := 0; NodeThreads := [];
     kernel := fun _ _ => OK;
     kernel_flag := flags;
     kernel_cpus := fun _ _ => 0%N;
     kernel_oom := fun _ _ => 0%Z |}.

(** Two running containers whose guarantees, [2^35] and [2^35 + 5] bytes,
    exceed the 64 GiB of the host together. *)
Definition guarantee_world : World :=
  {| cts := [container 1 "/" None [1; 2] Meta true;
             set_NewMemGuarantee (2 ^ 35) (container 2 "a" (Some 0) [] Running false);
             set_NewMemGuarantee (2 ^ 35 + 5)
               (container 3 "b" (Some 0) [] Running false)];
     kvs := ∅; frozen := []; trace := []; now := 1000;
     TotalMemory := 2 ^ 36; memory_guarantee_reserve := 0;
     RootContainer := 0; LockedContainer := 1;
     propagate_cpu_guarantee := false; Hierarchies := hierarchies;
     Subsystems := subsystems;
     CoreThreads := []; NumaNodes := 0; NodeThreads := [];
     kernel := fun _ _ => OK;
     kernel_flag := flags;
     kernel_cpus := fun _ _ => 0%N;
     kernel_oom := fun _ _ => 0%Z |}.

Definition format_error (e : TError) : string := Text e.

(** Setting a property: ["a"] runs.  Its scheduling policy and weight were
    set before it was started, and the start has left the mark of the weight
    dirty ([ApplyDynamicProperties] clears it only when the mark of the
    policy is clean).  The kernel refuses the scheduling policy with
    [EPERM]. *)
Definition is_sched (e : Event) : bool :=
  match e with ApplySchedPolicy _ => true | _ => false end.
Definition apply_error : TError := mkTError Unknown 1 "sched_setscheduler".
Definition prop_world_of (a : TContainer) : World :=
  {| cts := [container 1 "/" None [1] Meta true; a];
     kvs := ∅; frozen := []; trace := []; now := 1000;
     TotalMemory := 2 ^ 36; memory_guarantee_reserve := 2 ^ 31;
     RootContainer := 0; LockedContainer := 1;
     propagate_cpu_guarantee := false; Hierarchies := hierarchies;
     Subsystems := subsystems;
     CoreThreads := []; NumaNodes := 0; NodeThreads := [];
     kernel := fun _ e => if is_sched e then apply_error else OK;
     kernel_flag := flags;
     kernel_cpus := fun _ _ => 0%N;
     kernel_oom := fun _ _ => 0%Z |}.
Definition prop_world : World :=
  prop_world_of (set_Private "old" (container 2 "a" (Some 0) [] Running false)).
Definition live (c : TContainer) : bool :=
  negb (state_eqb (State c) Stopped) && negb (state_eqb (State c) Dead).

(** The two readings of the counters, computed. *)
Definition counters_childrenb (h : heap) : bool :=
  forallb (fun '(a, c) =>
    (StartingChildren c =? StateMachine.children_in h a Starting)%Z &&
    (RunningChildren c =? StateMachine.children_in h a Running)%Z)
    (imap pair h).
Definition counters_descendantsb (h : heap) : bool :=
  forallb (fun '(a, c) =>
    (StartingChildren c =? StateMachine.descendants_in h a Starting)%Z &&
    (RunningChildren c =? StateMachine.descendants_in h a Running)%Z)
    (imap pair h).

End Examples.

(** * Further operations of container.cpp *)

(** Field assignments, unfolded. *)
Ltac setters :=
  cbv [set_State set_Locked set_PendingWrite set_SubtreeRead set_SubtreeWrite
       set_LastOwner set_StartingChildren set_RunningChildren set_Controllers
       set_RequiredControllers set_Private set_NewMemGuarantee set_CpuSetType
       set_CpuSetArg set_CpuGuarantee set_CpuGuaranteeSum set_CpuGuaranteeCur
       set_PropSet set_PropDirty set_Task_Pid
       set_TaskVPid set_WaitTask_Pid set_SeizeTask_Pid set_StartTime
       set_DeathTime set_ExitStatus set_OomEvents set_OomKilled set_CpuAffinity
       set_CpuVacant set_CpuReserve
       Id Name Parent Children Level State Locked PendingWrite SubtreeRead
       SubtreeWrite LastOwner StartingChildren RunningChildren IsMeta Isolate
       NetInherit Controllers RequiredControllers Private AutoRespawn
       RespawnLimit RespawnCount NewMemGuarantee MemLimit CpuSetType CpuSetArg
       CpuGuarantee CpuGuaranteeSum CpuGuaranteeCur PropSet PropDirty Task_Pid
       TaskVPid
       WaitTask_Pid SeizeTask_Pid StartTime DeathTime ExitStatus OomEvents
       OomKilled CpuAffinity CpuVacant CpuReserve].

(** ** Names and states ([ParentName], container.cpp:109; [ParseState],
       container.cpp:666) *)

Module Naming.

Import Name.

(** [name.rfind(c)]: the position of the last occurrence of [c], if any. *)
Fixpoint rfind (c : ascii) (s : string) : option nat :=
  match s with
  | EmptyString => None
  | String a s' =>
    match rfind c s' with
    | Some i => Some (S i)
    | None => if Ascii.eqb a c then Some 0 else None
    end
  end.

(** [std::string TContainer::ParentName(const std::string &name)] *)
Definition ParentName (name : string) : string :=
  match rfind SLASH name with
  | None => ROOT_CONTAINER
  | Some sep => substring 0 sep name
  end.

(** The loop of [ValidName] as a scan that carries the current component;
    both labels of [case '/': case '\0':] close a component. *)
Fixpoint scan_sep (cur rest : string) : bool :=
  match rest with
  | EmptyString => component_ok' cur
  | String c r =>
    if is_sep c then component_ok' cur && scan_sep "" r
    else if name_char c then scan_sep (cur ++ String c "") r
    else false
  end.

(** [EContainerState TContainer::ParseState(const std::string &name)] *)
Definition ParseState (name : string) : EContainerState :=
  if String.eqb name "stopped" then Stopped
  else if String.eqb name "dead" then Dead
  else if String.eqb name "starting" then Starting
  else if String.eqb name "running" then Running
  else if String.eqb name "stopping" then Stopping
  else if String.eqb name "paused" then Paused
  else if String.eqb name "meta" then Meta
  else Destroyed.

End Naming.

(** ** The other lock operations ([IsLocked], [DowngradeLock], [UpgradeLock],
       [Unlock], container.cpp:192-254) *)

Module LockOps.

Import Locking.

(** [ct->Locked < 0 || (for_read && ct->Locked > 0)] *)
Definition locked_here (for_read : bool) (c : TContainer) : bool :=
  (Locked c <? 0)%Z || (for_read && (0 <? Locked c)%Z).

(** [bool TContainer::IsLocked(bool for_read)]: the walk starts at [this]. *)
Definition IsLocked (h : heap) (x : ptr) (for_read : bool) : bool :=
  existsb
    (fun a => match h !! a with Some c => locked_here for_read c | None => false end)
    (x :: ancestors h x).

(** [ct->SubtreeRead++; ct->SubtreeWrite--;] and the converse. *)
Definition to_reader (c : TContainer) : TContainer :=
  set_SubtreeWrite (SubtreeWrite c - 1)%Z (set_SubtreeRead (SubtreeRead c + 1)%Z c).
Definition to_writer (c : TContainer) : TContainer :=
  set_SubtreeWrite (SubtreeWrite c + 1)%Z (set_SubtreeRead (SubtreeRead c - 1)%Z c).

(** [void TContainer::DowngradeLock()]; [None] when
    [PORTO_ASSERT(Locked == -1)] fails. *)
Definition Downgrade (h : heap) (x : ptr) : option heap :=
  match h !! x with
  | None => None
  | Some c =>
    if negb (Locked c =? -1)%Z then None
    else
      Some (update x (set_Locked 1)
              (foldl (fun h' a => update a to_reader h') h (ancestors h x)))
  end.

(** [void TContainer::UpgradeLock()] up to its wait: the writer is announced
    and the ancestors count it. *)
Definition Upgrade_announce (h : heap) (x : ptr) : heap :=
  let h1 := update x (set_PendingWrite true) h in
  foldl (fun h' a => update a to_writer h') h1 (ancestors h1 x).

(** One pass through [while (Locked != 1) ContainersCV.wait(lock);] and the
    statements after it, run by thread [tid]. *)
Definition Upgrade_take (h : heap) (x : ptr) (tid : Z) : LockResult * heap :=
  match h !! x with
  | None => (Waiting, h)
  | Some c =>
    if negb (Locked c =? 1)%Z then (Waiting, h)
    else
      (Granted,
       update x (fun c => set_PendingWrite false (set_LastOwner tid (set_Locked (-1) c))) h)
  end.

Definition Upgrade (h : heap) (x : ptr) (tid : Z) : LockResult * heap :=
  Upgrade_take (Upgrade_announce h x) x tid.

(** The loop of [Unlock] over the ancestors, with its assertions
    ([PORTO_ASSERT(ct->SubtreeRead > 0)], [PORTO_ASSERT(ct->SubtreeWrite > 0)]);
    [held] is [Locked] of the container that is unlocked. *)
Fixpoint unlock_chain (held : Z) (h : heap) (l : list ptr) : option heap :=
  match l with
  | [] => Some h
  | a :: l' =>
    match h !! a with
    | None => None
    | Some ca =>
      if (if (0 <? held)%Z then (0 <? SubtreeRead ca)%Z else (0 <? SubtreeWrite ca)%Z)
      then unlock_chain held (update a (unbump held) h) l'
      else None
    end
  end.

(** [void TContainer::Unlock(bool locked)]; [None] when an assertion fails
    (the last one is [PORTO_ASSERT(Locked)]). *)
Definition Unlock_checked (h : heap) (x : ptr) : option heap :=
  match h !! x with
  | None => None
  | Some c =>
    match unlock_chain (Locked c) h (ancestors h x) with
    | None => None
    | Some h' =>
      if (Locked c =? 0)%Z then None
      else
        Some (update x
                (fun c => set_Locked (Locked c + (if (0 <? Locked c)%Z then -1 else 1))%Z c)
                h')
    end
  end.

(** The lock counters are counts: they do not start below zero. *)
Definition counters_nonneg (h : heap) : Prop :=
  forall a ca, h !! a = Some ca ->
    (0 <= SubtreeRead ca)%Z /\ (0 <= SubtreeWrite ca)%Z.

End LockOps.

(** ** The tree ([IsChildOf], [Subtree], container.cpp:862-880) *)

Module Tree.

(** [bool TContainer::IsChildOf(const TContainer &ct) const] called on [x]:
    the walk over [Parent] links meets [ct]. *)
Definition IsChildOf (h : heap) (x ct : ptr) : bool :=
  StateMachine.inb ct (ancestors h x).

(** The loop of [Subtree()] as it is written: a reverse iterator [it] runs
    from [subtree.rbegin()] to [subtree.rend()], and for every child of the
    container it points to, [subtree.emplace(std::prev(it.base()), child)]
    inserts the child in front of that container.  [todo] holds the elements
    of the list up to and including the one [it] points to, the last one
    first, and [done] the elements after it.  [++it] moves to the child that
    was inserted last.  [n] bounds the number of turns. *)
Fixpoint Subtree_loop (n : nat) (h : heap) (todo done : list ptr) : list ptr :=
  match n with
  | O => rev todo ++ done
  | S n' =>
    match todo with
    | [] => done
    | x :: rest => Subtree_loop n' h (rev (Childs h x) ++ rest) (x :: done)
    end
  end.

(** [Register] appends a container to [Children] of its [Parent]: the two
    links agree. *)
Definition linked (h : heap) : Prop :=
  forall x c, h !! x = Some c ->
    (forall k, In k (Children c) -> parent_of h k = Some x) /\
    (forall a, Parent c = Some a ->
       exists ca, h !! a = Some ca /\ In x (Children ca)).

Definition linkedb (h : heap) : bool :=
  forallb (fun '(x, c) =>
    forallb (fun k => match parent_of h k with
                      | Some a => Nat.eqb a x | None => false end) (Children c) &&
    match Parent c with
    | Some a => match h !! a with
                | Some ca => StateMachine.inb x (Children ca) | None => false end
    | None => true
    end) (imap pair h).

End Tree.
(** ** Outcomes of the life-cycle operations *)

Module Outcome.

(** [ct->State == EContainerState::Running ||
     ct->State == EContainerState::Meta], the test of [Pause]. *)
Definition live (s : EContainerState) : bool :=
  state_eqb s Running || state_eqb s Meta.

(** What places a container: its id, its state and its links. *)
Definition skeleton (c : TContainer)
  : Z * EContainerState * option ptr * list ptr :=
  (Id c, State c, Parent c, Children c).

(** The same without the state. *)
Definition links (c : TContainer) : Z * option ptr * list ptr :=
  (Id c, Parent c, Children c).

(** A container but for what the distribution of CPUs and of CPU guarantees
    writes: its CPU sets, its guarantee sums, the mark that its affinity was
    set and its dirty marks. *)
Definition apart (c : TContainer) : TContainer :=
  set_CpuAffinity 0 (set_CpuVacant 0 (set_CpuReserve 0
    (set_CpuGuaranteeSum 0 (set_CpuGuaranteeCur 0
       (set_PropDirty 0
          (set_PropSet (N.clearbit (PropSet c) (prop_index P_CPU_SET_AFFINITY))
             c)))))).

(** A computation that changes nothing of what [view] shows of the world. *)
Definition kept {V A} (view : World -> V) (m : M A) : Prop :=
  forall w, view (snd (m w)) = view w.

(** Three views: the skeletons of the containers; their links; and the
    containers apart from their CPU fields, with the key-value store. *)
Definition shape (w : World) := skeleton <$> cts w.
Definition tree (w : World) := links <$> cts w.
Definition rest (w : World) := (apart <$> cts w, kvs w).

(** A computation that changes the skeleton of no container. *)
Definition still {A} (m : M A) : Prop := kept shape m.

(** The links of all containers, and the states of the containers from [y]
    on: what a start of a container below [y] leaves alone. *)
Definition beyond (y : ptr) (w : World) := (tree w, drop y (State <$> cts w)).

(** The containers at the head of [up] that are neither [Running] nor
    [Meta]: how far the inner loop of [StartParents] climbs. *)
Fixpoint asleep (h : heap) (up : list ptr) : nat :=
  match up with
  | [] => 0
  | a :: up' =>
    match h !! a with
    | Some ca => if live (State ca) then 0 else S (asleep h up')
    | None => 0
    end
  end.

End Outcome.

(** * Theorems *)

(** ** Name validation *)

Module NameFacts.

Import Name.

Lemma ValidName_loop_kind name n first i :
  ValidName_loop name n first i = OK \/
  Error (ValidName_loop name n first i) = InvalidValue.
Proof.
  revert first i. induction n as [|n IH]; intros first i; simpl; [by left|].
  repeat (case_match; try (by right); try apply IH).
Qed.

(** Property X2.  Whatever the name, [ValidName] accepts it or rejects it
    with [InvalidValue]: no other kind of error leaves the function. *)
Lemma ValidName_kind name su :
  ValidName name su = OK \/ Error (ValidName name su) = InvalidValue.
Proof.
  unfold ValidName.
  repeat (case_match; try (by right); try (by left)).
  all: apply ValidName_loop_kind.
Qed.

Lemma string_get_app_r (a b : string) : String.get (String.length a) (a ++ b) = String.get 0 b.
Proof. induction a; simpl; auto. Qed.

Lemma substring_app_mid (a b c : string) :
  substring (String.length a) (String.length b) (a ++ b ++ c) = b.
Proof.
  induction a; simpl; auto.
  induction b; simpl.
  - destruct c; reflexivity.
  - f_equal. apply IHb.
Qed.

Lemma string_length_app (a b : string) : String.length (a ++ b) = (String.length a + String.length b)%nat.
Proof. induction a; simpl; auto. Qed.

Lemma app_cons_s (x : ascii) (a b : string) : String x a ++ b = String x (a ++ b).
Proof. reflexivity. Qed.

Lemma app_assoc_s (a b c : string) : (a ++ b) ++ c = a ++ (b ++ c).
Proof. induction a as [|x a IH]; [reflexivity|]. rewrite !app_cons_s. by rewrite IH. Qed.

Lemma app_nil_r_s (a : string) : a ++ "" = a.
Proof. induction a as [|x a IH]; [reflexivity|]. rewrite app_cons_s. by rewrite IH. Qed.

Lemma name_char_not_sep c : name_char c = true -> is_sep c = false.
Proof.
  destruct c as [[] [] [] [] [] [] [] []]; vm_compute; intros; first [reflexivity | discriminate].
Qed.


Lemma eqb_add_l (a b : nat) : (a + b =? a)%nat = (b =? 0)%nat.
Proof.
  destruct b as [|b].
  - rewrite Nat.add_0_r. apply Nat.eqb_refl.
  - apply Nat.eqb_neq. lia.
Qed.

Lemma at_mid pre cur rest :
  at_ (pre ++ cur ++ rest) (String.length pre + String.length cur) = head_or_nul rest.
Proof.
  unfold at_. rewrite <- string_length_app, <- app_assoc_s, string_get_app_r.
  by destruct rest.
Qed.

Lemma sub_mid pre cur rest :
  substring (String.length pre)
    (String.length pre + String.length cur - String.length pre)
    (pre ++ cur ++ rest) = cur.
Proof.
  replace (String.length pre + String.length cur - String.length pre)%nat
    with (String.length cur) by lia.
  apply substring_app_mid.
Qed.

Lemma loop_step pre cur rest n :
  ValidName_loop (pre ++ cur ++ rest) (S n)
    (String.length pre) (String.length pre + String.length cur) =
  if is_sep (head_or_nul rest) then
    if component_ok' cur
    then ValidName_loop (pre ++ cur ++ rest) n
           (String.length pre + String.length cur + 1)
           (String.length pre + String.length cur + 1)
    else ValidName_loop (pre ++ cur ++ rest) 1
           (String.length pre) (String.length pre + String.length cur)
  else if name_char (head_or_nul rest) then
    ValidName_loop (pre ++ cur ++ rest) n
      (String.length pre) (String.length pre + String.length cur + 1)
  else TError_ InvalidValue ("forbidden character " ++ format_hex (head_or_nul rest)).
Proof.
  cbn [ValidName_loop]. rewrite at_mid, sub_mid.
  destruct (is_sep (head_or_nul rest)); [|reflexivity].
  unfold component_ok'.
  replace (String.length pre + String.length cur =? String.length pre)%nat
    with (String.length cur =? 0)%nat
    by (symmetry; apply eqb_add_l).
  replace (String.length pre + String.length cur - String.length pre)%nat
    with (String.length cur) by lia.
  rewrite (Nat.leb_antisym CONTAINER_NAME_MAX).
  destruct (String.length cur =? 0)%nat; [reflexivity|].
  destruct (CONTAINER_NAME_MAX <? String.length cur)%nat; [reflexivity|].
  destruct (cur =? SELF_CONTAINER)%string; [reflexivity|].
  destruct (cur =? DOT_CONTAINER)%string; reflexivity.
Qed.

Lemma loop_reject pre cur rest :
  is_sep (head_or_nul rest) = true -> component_ok' cur = false ->
  ValidName_loop (pre ++ cur ++ rest) 1
    (String.length pre) (String.length pre + String.length cur) <> OK.
Proof.
  intros Hs Hc. cbn [ValidName_loop]. rewrite at_mid, sub_mid, Hs.
  revert Hc. unfold component_ok'.
  replace (String.length pre + String.length cur =? String.length pre)%nat
    with (String.length cur =? 0)%nat
    by (symmetry; apply eqb_add_l).
  replace (String.length pre + String.length cur - String.length pre)%nat
    with (String.length cur) by lia.
  rewrite (Nat.leb_antisym CONTAINER_NAME_MAX).
  destruct (String.length cur =? 0)%nat; [discriminate|].
  destruct (CONTAINER_NAME_MAX <? String.length cur)%nat; [discriminate|].
  destruct (cur =? SELF_CONTAINER)%string; [discriminate|].
  destruct (cur =? DOT_CONTAINER)%string; discriminate.
Qed.

Lemma loop_scan rest : forall pre cur,
  no_nul rest = true ->
  (ValidName_loop (pre ++ cur ++ rest) (String.length rest + 1)
     (String.length pre) (String.length pre + String.length cur) = OK
   <-> scan cur rest = true).
Proof.
  induction rest as [|c r IH]; intros pre cur Hn.
  - change (String.length "" + 1)%nat with 1%nat.
    rewrite loop_step. change (is_sep (head_or_nul "")) with true. cbv iota.
    cbn [scan]. destruct (component_ok' cur) eqn:Ec.
    + split; reflexivity.
    + split; [|discriminate]. intros H. by apply loop_reject in H.
  - cbn [no_nul] in Hn. apply andb_true_iff in Hn as [Hc Hn].
    apply negb_true_iff in Hc.
    replace (String.length (String c r) + 1)%nat with (S (String.length r + 1))
      by (cbn [String.length]; lia).
    rewrite loop_step. cbn [head_or_nul scan]. unfold is_sep. rewrite Hc, orb_false_r.
    destruct (Ascii.eqb c SLASH) eqn:Es.
    + apply Ascii.eqb_eq in Es. subst c.
      destruct (component_ok' cur) eqn:Ec.
      * specialize (IH (pre ++ cur ++ String SLASH "") "" Hn).
        rewrite !string_length_app in IH. cbn [String.length] in IH.
        replace ((pre ++ cur ++ String SLASH "") ++ "" ++ r)
          with (pre ++ cur ++ String SLASH r) in IH
          by (rewrite !app_assoc_s; reflexivity).
        rewrite Nat.add_0_r, Nat.add_assoc in IH. exact IH.
      * split; [|discriminate]. intros H. apply loop_reject in H; by rewrite ?Ec.
    + destruct (name_char c) eqn:En; [|split; discriminate].
      specialize (IH pre (cur ++ String c "") Hn).
      rewrite string_length_app in IH. cbn [String.length] in IH.
      rewrite app_assoc_s in IH. rewrite Nat.add_assoc in IH. exact IH.
Qed.

Lemma component_ok_split cur :
  component_ok cur = string_forallb name_char cur && component_ok' cur.
Proof.
  unfold component_ok, component_ok'.
  destruct (negb (String.length cur =? 0)%nat), (string_forallb name_char cur),
    (String.length cur <=? CONTAINER_NAME_MAX)%nat,
    (negb (cur =? DOT_CONTAINER)%string), (negb (cur =? SELF_CONTAINER)%string);
    reflexivity.
Qed.

Lemma forallb_app_s p a b :
  string_forallb p (a ++ b) = string_forallb p a && string_forallb p b.
Proof.
  induction a as [|x a IH]; [reflexivity|].
  rewrite app_cons_s. cbn [string_forallb]. by rewrite IH, andb_assoc.
Qed.

Lemma components_bad rest : forall cur,
  string_forallb name_char cur = false ->
  forallb component_ok (components_aux cur rest) = false.
Proof.
  induction rest as [|c r IH]; intros cur Hb; cbn [components_aux].
  - cbn [forallb]. by rewrite component_ok_split, Hb.
  - destruct (Ascii.eqb c SLASH).
    + cbn [forallb]. by rewrite component_ok_split, Hb.
    + apply IH. by rewrite forallb_app_s, Hb.
Qed.

Lemma scan_components rest : forall cur,
  string_forallb name_char cur = true ->
  scan cur rest = forallb component_ok (components_aux cur rest).
Proof.
  induction rest as [|c r IH]; intros cur Hc; cbn [scan components_aux forallb].
  - by rewrite component_ok_split, Hc, andb_true_r.
  - destruct (Ascii.eqb c SLASH) eqn:Es.
    + cbn [forallb]. rewrite component_ok_split, Hc. cbn [andb].
      by rewrite IH.
    + destruct (name_char c) eqn:En.
      * apply IH. rewrite forallb_app_s, Hc. cbn. by rewrite En.
      * symmetry. apply components_bad. rewrite forallb_app_s. cbn.
        by rewrite En, andb_false_r.
Qed.

(** Property X1.  For names without an embedded NUL byte the code accepts exactly the
    names of the specification, and rejects the others with [InvalidValue]
    ([ValidName_kind]). *)
Theorem ValidName_spec_no_nul name su :
  no_nul name = true ->
  (ValidName name su = OK <-> valid_name_spec name su = true).
Proof.
  intros Hn. unfold ValidName, valid_name_spec.
  destruct name as [|c r].
  - cbn. split; discriminate.
  - replace (String.length (String c r) =? 0)%nat with false by reflexivity.
    set (mx := if su then CONTAINER_PATH_MAX_FOR_SUPERUSER else CONTAINER_PATH_MAX).
    destruct (mx <? String.length (String c r))%nat eqn:El.
    + split; [discriminate|]. intros H. apply orb_true_iff in H as [H|H].
      * apply String.eqb_eq in H. rewrite H in El. destruct su; discriminate.
      * apply andb_true_iff in H as [_ H]. apply Nat.leb_le in H.
        apply Nat.ltb_lt in El. lia.
    + apply Nat.ltb_ge in El. 
      replace (String.length (String c r) <=? mx)%nat with true
        by (symmetry; by apply Nat.leb_le).
      rewrite andb_true_r.
      change (at_ (String c r) 0) with c.
      destruct (Ascii.eqb c SLASH) eqn:Es.
      * apply Ascii.eqb_eq in Es. subst c.
        destruct (String SLASH r =? ROOT_CONTAINER)%string eqn:Er.
        -- split; reflexivity.
        -- cbn [orb]. split; [discriminate|].
           unfold components. cbn [components_aux]. 
           change (Ascii.eqb SLASH SLASH) with true. cbv iota. cbn [forallb].
           change (component_ok "") with false. discriminate.
      * replace (String c r =? ROOT_CONTAINER)%string with false.
        2:{ symmetry. apply String.eqb_neq. intros E. inversion E. subst.
            discriminate. }
        cbn [orb].
        pose proof (loop_scan (String c r) "" "" Hn) as L.
        change ("" ++ "" ++ String c r) with (String c r) in L.
        change (String.length "" + String.length "")%nat with 0%nat in L.
        change (String.length "") with 0%nat in L.
        rewrite L. unfold components.
        by rewrite scan_components.
Qed.

(** Claim C6 fails on the code: the three bytes ['a'], NUL, ['b'] are no
    path of components from the charset, and [ValidName] accepts them, since
    the [case '\0':] label treats an embedded NUL byte as a separator. *)
Theorem ValidName_accepts_embedded_nul :
  ValidName (String "a" (String NUL "b")) false = OK /\
  valid_name_spec (String "a" (String NUL "b")) false = false.
Proof. split; reflexivity. Qed.

End NameFacts.

(** ** The heap: ancestors and updates *)

Module HeapFacts.

Lemma chain_Reach h : wf h -> forall n p a,
  (forall b, p = Some b -> b < n) ->
  (In a (chain n h p) <-> Reach h p a).
Proof.
  intros Hwf. induction n as [|n IH]; intros p a Hp.
  - destruct p as [b|]; [specialize (Hp b eq_refl); lia|].
    simpl. split; [tauto | inversion 1].
  - destruct p as [b|]; simpl.
    2:{ split; [tauto | inversion 1]. }
    specialize (Hp b eq_refl).
    rewrite IH.
    + destruct (h !! b) as [cb|] eqn:Eb.
      * split.
        -- intros [->|H]; [constructor|]. econstructor; eauto.
        -- inversion 1; subst; [by left|]. right. congruence.
      * split.
        -- intros [->|H]; [constructor|]. inversion H.
        -- inversion 1; subst; [by left|]. congruence.
    + intros b' Hb'. destruct (h !! b) as [cb|] eqn:Eb; [|discriminate].
      destruct (Hwf b cb Eb) as [Hpar _]. specialize (Hpar b' Hb'). lia.
Qed.

Lemma Ancestor_Reach h a x :
  Ancestor h a x <-> Reach h (parent_of h x) a.
Proof.
  unfold parent_of. split.
  - induction 1 as [x c a Hx Hp | x c p a Hx Hp _ IH].
    + rewrite Hx, Hp. constructor.
    + rewrite Hx, Hp.
      destruct (h !! p) as [cp|] eqn:Ep.
      * econstructor; eauto.
      * inversion IH.
  - destruct (h !! x) as [c|] eqn:Ex; [|inversion 1].
    remember (Parent c) as p eqn:Ep. intros R. revert x c Ex Ep.
    induction R as [a | b cb a Hb R IH]; intros x c Ex Ep.
    + eapply Anc_parent; eauto.
    + eapply Anc_step; eauto.
Qed.

Lemma ancestors_Ancestor h x a :
  wf h -> (In a (ancestors h x) <-> Ancestor h a x).
Proof.
  intros Hwf. rewrite Ancestor_Reach. unfold ancestors, parent_of.
  apply chain_Reach; [done|].
  intros b Hb. destruct (h !! x) as [c|] eqn:Ex; [|discriminate].
  destruct (Hwf x c Ex) as [Hpar _]. specialize (Hpar b Hb).
  apply lookup_lt_Some in Ex. lia.
Qed.

Lemma parent_of_update h x f i :
  (forall c, Parent (f c) = Parent c) ->
  parent_of (update x f h) i = parent_of h i.
Proof.
  intros Hf. unfold parent_of, update.
  destruct (decide (x = i)) as [->|Hne].
  - rewrite list_lookup_alter_eq. destruct (h !! i); simpl; auto.
  - by rewrite list_lookup_alter_ne.
Qed.

Lemma chain_parent_of n h p :
  chain n h p =
  match n with
  | O => []
  | S n' => match p with None => [] | Some a => a :: chain n' h (parent_of h a) end
  end.
Proof. destruct n; reflexivity. Qed.

Lemma chain_same h h' :
  (forall i, parent_of h' i = parent_of h i) ->
  forall n p, chain n h' p = chain n h p.
Proof.
  intros Hs. induction n as [|n IH]; intros p; [reflexivity|].
  rewrite (chain_parent_of (S n) h'), (chain_parent_of (S n) h).
  destruct p as [a|]; [|reflexivity]. by rewrite Hs, IH.
Qed.

Lemma ancestors_same h h' :
  length h' = length h ->
  (forall i, parent_of h' i = parent_of h i) ->
  forall x, ancestors h' x = ancestors h x.
Proof.
  intros Hl Hs x. unfold ancestors. rewrite Hl.
  fold (parent_of h' x). fold (parent_of h x). rewrite Hs.
  by apply chain_same.
Qed.

Lemma length_update x f (h : heap) : length (update x f h) = length h.
Proof. apply length_alter. Qed.

Lemma length_foldl_update f (l : list ptr) (h : heap) :
  length (foldl (fun h' a => update a f h') h l) = length h.
Proof.
  revert h. induction l as [|a l IH]; intros h; simpl; [done|].
  by rewrite IH, length_update.
Qed.

Lemma parent_of_foldl_update f (l : list ptr) (h : heap) i :
  (forall c, Parent (f c) = Parent c) ->
  parent_of (foldl (fun h' a => update a f h') h l) i = parent_of h i.
Proof.
  intros Hf. revert h. induction l as [|a l IH]; intros h; simpl; [done|].
  by rewrite IH, parent_of_update.
Qed.

Lemma chain_le h : wf h -> forall n p a b,
  In a (chain n h p) -> p = Some b -> a <= b.
Proof.
  intros Hwf. induction n as [|n IH]; intros p a b Hin Hp; [inversion Hin|].
  subst p. rewrite chain_parent_of in Hin. destruct Hin as [->|Hin]; [lia|].
  unfold parent_of in Hin. destruct (h !! b) as [cb|] eqn:Eb.
  - destruct (Parent cb) as [q|] eqn:Eq.
    + destruct (Hwf b cb Eb) as [Hpar _]. specialize (Hpar q Eq).
      specialize (IH (Some q) a q Hin eq_refl). lia.
    + destruct n; inversion Hin.
  - destruct n; inversion Hin.
Qed.

Lemma chain_NoDup h : wf h -> forall n p, List.NoDup (chain n h p).
Proof.
  intros Hwf. induction n as [|n IH]; intros p; [constructor|].
  rewrite chain_parent_of. destruct p as [b|]; [|constructor].
  constructor; [|apply IH].
  intros Hin. unfold parent_of in Hin.
  destruct (h !! b) as [cb|] eqn:Eb.
  - destruct (Parent cb) as [q|] eqn:Eq.
    + destruct (Hwf b cb Eb) as [Hpar _]. specialize (Hpar q Eq).
      pose proof (chain_le h Hwf n (Some q) b q Hin eq_refl). lia.
    + destruct n; inversion Hin.
  - destruct n; inversion Hin.
Qed.

Lemma ancestors_NoDup h x : wf h -> List.NoDup (ancestors h x).
Proof. intros. by apply chain_NoDup. Qed.

Lemma ancestors_lt h x a : wf h -> In a (ancestors h x) -> a < x.
Proof.
  intros Hwf Hin. unfold ancestors in Hin.
  destruct (h !! x) as [c|] eqn:Ex.
  - destruct (Parent c) as [q|] eqn:Eq.
    + destruct (Hwf x c Ex) as [Hpar _]. specialize (Hpar q Eq).
      pose proof (chain_le h Hwf _ _ a q Hin eq_refl). lia.
    + destruct (length h); inversion Hin.
  - destruct (length h); inversion Hin.
Qed.


Lemma forallb_imap (P : nat -> TContainer -> bool) (h : list TContainer) :
  forallb (fun '(x, c) => P x c) (imap pair h) = true <->
  forall x c, h !! x = Some c -> P x c = true.
Proof.
  rewrite forallb_forall. split.
  - intros H x c Hx. apply (H (x, c)). apply list_elem_of_In.
    apply list_elem_of_lookup. exists x. by rewrite list_lookup_imap, Hx.
  - intros H [x c] Hin. apply list_elem_of_In, list_elem_of_lookup in Hin.
    destruct Hin as [i Hi]. rewrite list_lookup_imap in Hi.
    destruct (h !! i) as [ci|] eqn:E; [|discriminate].
    simpl in Hi. inversion Hi; subst. by apply H.
Qed.

Lemma wfb_wf h : Examples.wfb h = true -> wf h.
Proof.
  unfold Examples.wfb. rewrite forallb_imap. intros H x c Hx.
  specialize (H x c Hx). apply andb_true_iff in H as [Hp Hc]. split.
  - intros a Ha. rewrite Ha in Hp. by apply Nat.ltb_lt in Hp.
  - intros k Hk. rewrite forallb_forall in Hc. specialize (Hc k Hk).
    apply andb_true_iff in Hc as [H1 H2].
    apply Nat.ltb_lt in H1, H2. lia.
Qed.

End HeapFacts.

(** ** Subtree locks *)

Module LockingFacts.

Import Locking HeapFacts.

Lemma busy_chain_true for_read h l : busy_chain for_read h true l = true.
Proof. by destruct l. Qed.

Lemma busy_chain_false for_read h l :
  busy_chain for_read h false l = false <->
  forall a ca, In a l -> h !! a = Some ca -> busy_ancestor for_read ca = false.
Proof.
  induction l as [|a l IH]; simpl.
  - split; [intros _ ? ? []|done].
  - destruct (h !! a) as [ca|] eqn:Ea.
    + destruct (busy_ancestor for_read ca) eqn:Eb.
      * rewrite busy_chain_true. split; [discriminate|].
        intros H. specialize (H a ca (or_introl eq_refl) Ea). congruence.
      * rewrite IH. split.
        -- intros H a' ca' [<-|Hin] Ha'; [congruence|eauto].
        -- intros H a' ca' Hin Ha'. eauto.
    + rewrite IH. split.
      * intros H a' ca' [<-|Hin] Ha'; [congruence|eauto].
      * intros H a' ca' Hin Ha'. eauto.
Qed.

Lemma busy_false_iff for_read h x c :
  busy for_read h x c = false <->
  busy_self for_read c = false /\
  forall a ca, In a (ancestors h x) -> h !! a = Some ca ->
    busy_ancestor for_read ca = false.
Proof.
  unfold busy. destruct (busy_self for_read c).
  - rewrite busy_chain_true. split; [discriminate | intros [? _]; discriminate].
  - rewrite busy_chain_false. tauto.
Qed.

Lemma Lock_granted h x c for_read try_lock tid :
  h !! x = Some c ->
  (fst (Lock h x for_read try_lock tid) = Granted <->
   State c <> Destroyed /\ busy for_read h x c = false).
Proof.
  intros Hx. unfold Lock. rewrite Hx.
  destruct (state_eqb (State c) Destroyed) eqn:Es.
  - simpl. split; [discriminate|]. intros [H _]. destruct (State c); done.
  - destruct (busy for_read h x c) eqn:Eb; simpl.
    + destruct try_lock; simpl; split; try discriminate; intros [_ ?]; discriminate.
    + split; [|done]. intros _. split; [|done]. intros E. by rewrite E in Es.
Qed.

(** Claim C1, as amended.  One pass of [Lock] on a container [x] takes the
    lock exactly when [x] is not destroyed and, for a read lock, [x] is not
    write-locked, has no pending writer and no subtree writer, and no ancestor
    of [x] has a pending writer or is write-locked; for a write lock, [x] is
    not locked, has no subtree reader or writer, and no ancestor of [x] is
    locked at all (for read or for write) or has a pending writer. *)
Theorem Lock_granted_iff h x c for_read try_lock tid :
  wf h -> h !! x = Some c ->
  (fst (Lock h x for_read try_lock tid) = Granted <->
   State c <> Destroyed /\
   if for_read then read_rule h x c else write_rule_code h x c).
Proof.
  intros Hwf Hx. rewrite (Lock_granted h x c) by done.
  rewrite busy_false_iff.
  assert (Hanc : forall P : ptr -> TContainer -> Prop,
    (forall a ca, In a (ancestors h x) -> h !! a = Some ca -> P a ca) <->
    (forall a ca, Ancestor h a x -> h !! a = Some ca -> P a ca)).
  { intros P. split; intros H a ca Ha; apply H; by apply ancestors_Ancestor. }
  destruct for_read; unfold read_rule, write_rule_code, busy_self, busy_ancestor.
  - rewrite (Hanc (fun _ ca => PendingWrite ca || (Locked ca <? 0)%Z = false)).
    split.
    + intros (Hd & Hs & Ha). split; [done|].
      apply orb_false_iff in Hs as [Hs Hw]. apply orb_false_iff in Hs as [Hl Hp].
      apply negb_false_iff, Z.eqb_eq in Hw. apply Z.ltb_ge in Hl.
      repeat split; try done; try lia.
      * specialize (Ha a ca H H0). by apply orb_false_iff in Ha as [? _].
      * specialize (Ha a ca H H0). apply orb_false_iff in Ha as [_ Ha].
        apply Z.ltb_ge in Ha. lia.
    + intros (Hd & Hl & Hp & Hw & Ha). split; [done|]. split.
      * rewrite Hp, Hw. simpl. rewrite !orb_false_r. apply Z.ltb_ge. lia.
      * intros a ca H H0. destruct (Ha a ca H H0) as [-> Hl'].
        simpl. apply Z.ltb_ge. lia.
  - rewrite (Hanc (fun _ ca => PendingWrite ca || negb (Locked ca =? 0)%Z = false)).
    split.
    + intros (Hd & Hs & Ha). split; [done|].
      apply orb_false_iff in Hs as [Hs Hw]. apply orb_false_iff in Hs as [Hl Hr].
      apply negb_false_iff, Z.eqb_eq in Hw, Hl, Hr.
      repeat split; try done.
      * specialize (Ha a ca H H0). apply orb_false_iff in Ha as [_ Ha].
        by apply negb_false_iff, Z.eqb_eq in Ha.
      * specialize (Ha a ca H H0). by apply orb_false_iff in Ha as [? _].
    + intros (Hd & Hl & Hr & Hw & Ha). split; [done|]. split.
      * by rewrite Hl, Hr, Hw.
      * intros a ca H H0. destruct (Ha a ca H H0) as [-> ->]. done.
Qed.

(** The theorem at work: a read lock on ["a/b"] while thread 7 reads the
    root. *)
Lemma Lock_granted_iff_witness :
  wf Examples.read_locked_root /\
  Examples.read_locked_root !! 2 =
    Some (Examples.container 3 "a/b" (Some 1) [] Stopped false) /\
  (fst (Lock Examples.read_locked_root 2 true true 8) = Granted <->
   State (Examples.container 3 "a/b" (Some 1) [] Stopped false) <> Destroyed /\
   read_rule Examples.read_locked_root 2
     (Examples.container 3 "a/b" (Some 1) [] Stopped false)).
Proof.
  split; [apply wfb_wf; reflexivity|].
  split; [reflexivity|].
  apply (Lock_granted_iff Examples.read_locked_root 2
           (Examples.container 3 "a/b" (Some 1) [] Stopped false) true true 8).
  - apply wfb_wf. reflexivity.
  - reflexivity.
Defined.

(** Claim C1 as worded fails: while the root is read-locked (and nothing
    else is locked or pending), the write rule of the specification holds for
    ["a/b"], yet a write lock on ["a/b"] is refused with [Busy]. *)
Lemma write_lock_blocked_by_reading_ancestor :
  wf Examples.read_locked_root /\
  Examples.read_locked_root !! 2 =
    Some (Examples.container 3 "a/b" (Some 1) [] Stopped false) /\
  write_rule Examples.read_locked_root 2
    (Examples.container 3 "a/b" (Some 1) [] Stopped false) /\
  fst (Lock Examples.read_locked_root 2 false true 8) =
    Refused (TError_ Busy "Container is busy: a/b").
Proof.
  assert (Hwf : wf Examples.read_locked_root) by (apply wfb_wf; reflexivity).
  split; [exact Hwf|]. split; [reflexivity|]. split; [|reflexivity].
  repeat split; try reflexivity.
  - apply ancestors_Ancestor in H; [|exact Hwf].
    destruct H as [<-|[<-|[]]]; vm_compute in H0; inversion H0; subst;
      vm_compute; discriminate.
  - apply ancestors_Ancestor in H; [|exact Hwf].
    destruct H as [<-|[<-|[]]]; vm_compute in H0; inversion H0; reflexivity.
Qed.

End LockingFacts.

(** ** The state machine *)

Module StateMachineFacts.

Import StateMachine HeapFacts.

Lemma inb_In a l : inb a l = true <-> In a l.
Proof.
  unfold inb. rewrite existsb_exists. split.
  - intros (b & Hb & E). apply Nat.eqb_eq in E. by subst.
  - intros H. exists a. split; [done|apply Nat.eqb_refl].
Qed.

Lemma lookup_foldl_update f (l : list ptr) : List.NoDup l -> forall (h : heap) i,
  foldl (fun h' a => update a f h') h l !! i =
  (if inb i l then f else id) <$> h !! i.
Proof.
  induction 1 as [|a l Hna Hnd IH]; intros h i; simpl.
  - by destruct (h !! i).
  - rewrite IH. unfold update.
    destruct (Nat.eqb i a) eqn:E.
    + apply Nat.eqb_eq in E. subst a. rewrite list_lookup_alter_eq.
      destruct (inb i l) eqn:Ei; [by apply inb_In in Ei|].
      simpl. by destruct (h !! i).
    + apply Nat.eqb_neq in E. rewrite list_lookup_alter_ne by done. done.
Qed.

Lemma count_from_ext (l l' : heap) : forall i p p',
  length l = length l' ->
  (forall j c c', l !! j = Some c -> l' !! j = Some c' -> p (i + j) c = p' (i + j) c') ->
  count_from i l p = count_from i l' p'.
Proof.
  revert l'. induction l as [|c l IH]; intros [|c' l'] i p p' Hl H; try done.
  simpl. f_equal.
  - specialize (H 0 c c' eq_refl eq_refl). rewrite Nat.add_0_r in H. by rewrite H.
  - apply IH; [simpl in Hl; lia|].
    intros j d d' Hj Hj'. specialize (H (S j) d d' Hj Hj').
    by rewrite <- Nat.add_succ_comm in H.
Qed.

Lemma count_from_point (l : heap) : forall i p q x c,
  l !! x = Some c ->
  (forall j c', j <> x -> l !! j = Some c' -> p (i + j) c' = q (i + j) c') ->
  count_from i l q =
  (count_from i l p + b2z (q (i + x)%nat c) - b2z (p (i + x)%nat c))%Z.
Proof.
  induction l as [|d l IH]; intros i p q x c Hx H; [done|].
  destruct x as [|x]; simpl in Hx.
  - inversion Hx; subst d. simpl. rewrite Nat.add_0_r.
    assert (count_from (S i) l q = count_from (S i) l p) as ->.
    { apply count_from_ext; [done|]. intros j e e' Hj Hj'.
      assert (e = e') by congruence. subst e'.
      specialize (H (S j) e ltac:(lia) Hj). rewrite <- Nat.add_succ_comm in H.
      by rewrite H. }
    unfold b2z. destruct (q i c), (p i c); lia.
  - simpl. specialize (IH (S i) p q x c Hx).
    rewrite <- Nat.add_succ_comm. rewrite IH.
    + specialize (H 0 d ltac:(lia) eq_refl). rewrite Nat.add_0_r in H.
      rewrite H. lia.
    + intros j e Hne Hj. specialize (H (S j) e ltac:(lia) Hj).
      by rewrite <- Nat.add_succ_comm in H.
Qed.

Lemma cts_for_each_modify f (l : list ptr) w :
  cts (snd (for_each l (fun p => modify p f) w)) =
  foldl (fun h' a => update a f h') (cts w) l.
Proof.
  revert w. induction l as [|a l IH]; intros w; [done|].
  simpl. unfold bind. simpl. by rewrite IH.
Qed.

Lemma cts_count_running next p w :
  cts (snd (count_running next p w)) = update p (run_count next) (cts w).
Proof.
  unfold count_running, bind, modify, get_ct, gets, change. simpl.
  destruct (update p _ (cts w) !! p) as [c|]; [|done].
  by destruct (_ && _).
Qed.

Lemma cts_for_each_running next (l : list ptr) w :
  cts (snd (for_each l (count_running next) w)) =
  foldl (fun h' a => update a (run_count next) h') (cts w) l.
Proof.
  revert w. induction l as [|a l IH]; intros w; [done|].
  simpl. unfold bind.
  destruct (count_running next a w) as [[] w'] eqn:E.
  rewrite IH. f_equal.
  change w' with (snd (tt, w')). by rewrite <- E, cts_count_running.
Qed.

Lemma cts_if_emit (b : bool) e w :
  cts (snd ((if b then emit e else ret tt) w)) = cts w.
Proof. by destruct b. Qed.

Lemma cts_SetState x next w :
  cts (snd (SetState x next w)) = SetState_heap (cts w) x next.
Proof.
  unfold SetState, SetState_heap.
  unfold bind at 1. unfold get_ct at 1, gets at 1.
  destruct (cts w !! x) as [c|]; [|done].
  destruct (state_eqb (State c) next); [done|].
  unfold bind at 1. unfold modify at 1, change at 1.
  unfold bind at 1. unfold gets at 1.
  set (h1 := update x (set_State next) (cts w)).
  set (w1 := set_cts h1 w).
  change (cts w1) with h1.
  set (up := ancestors h1 x).
  unfold bind at 1.
  destruct ((if state_eqb (State c) Starting || state_eqb next Starting
             then for_each up (fun p => modify p (count_starting next))
             else ret tt) w1) as [[] w2] eqn:E2.
  assert (cts w2 =
          if state_eqb (State c) Starting || state_eqb next Starting
          then foldl (fun h' a => update a (count_starting next) h') h1 up
          else h1) as H2.
  { change w2 with (snd (tt, w2)). rewrite <- E2.
    destruct (_ || _); [apply cts_for_each_modify|done]. }
  unfold bind at 1.
  destruct ((if state_eqb (State c) Running || state_eqb next Running
             then for_each up (count_running next)
             else ret tt) w2) as [[] w3] eqn:E3.
  assert (cts w3 =
          if state_eqb (State c) Running || state_eqb next Running
          then foldl (fun h' a => update a (run_count next) h') (cts w2) up
          else cts w2) as H3.
  { change w3 with (snd (tt, w3)). rewrite <- E3.
    destruct (state_eqb (State c) Running || state_eqb next Running);
      [apply cts_for_each_running|done]. }
  rewrite cts_if_emit, H3, H2. reflexivity.
Qed.

Lemma lookup_layer (b : bool) f (up : list ptr) (h0 : heap) i :
  List.NoDup up ->
  (if b then foldl (fun h' a => update a f h') h0 up else h0) !! i =
  (if b && inb i up then f else id) <$> h0 !! i.
Proof.
  intros Hnd. destruct b; simpl.
  - by apply lookup_foldl_update.
  - by destruct (h0 !! i).
Qed.

Lemma length_layer (b : bool) f (up : list ptr) (h0 : heap) :
  length (if b then foldl (fun h' a => update a f h') h0 up else h0) = length h0.
Proof. destruct b; [apply length_foldl_update|done]. Qed.

Lemma parent_of_layer (b : bool) f (up : list ptr) (h0 : heap) i :
  (forall c, Parent (f c) = Parent c) ->
  parent_of (if b then foldl (fun h' a => update a f h') h0 up else h0) i =
  parent_of h0 i.
Proof. intros. destruct b; [by apply parent_of_foldl_update|done]. Qed.

Section SetStateFacts.

Variable h : heap.
Variable x : ptr.
Variable c : TContainer.
Variable next : EContainerState.
Hypothesis Hwf : wf h.
Hypothesis Hx : h !! x = Some c.
Hypothesis Hne : state_eqb (State c) next = false.

Let h1 := update x (set_State next) h.
Let up := ancestors h x.
Let h' := SetState_heap h x next.

Lemma up_h1 : ancestors h1 x = up.
Proof.
  apply ancestors_same; [apply length_update|].
  intros i. by apply parent_of_update.
Qed.

Lemma SetState_heap_unfold :
  h' =
  (if state_eqb (State c) Running || state_eqb next Running
   then foldl (fun h' a => update a (run_count next) h')
          (if state_eqb (State c) Starting || state_eqb next Starting
           then foldl (fun h' a => update a (count_starting next) h') h1 up else h1) up
   else (if state_eqb (State c) Starting || state_eqb next Starting
         then foldl (fun h' a => update a (count_starting next) h') h1 up else h1)).
Proof.
  unfold h', SetState_heap. rewrite Hx, Hne. cbv zeta. fold h1. by rewrite up_h1.
Qed.

Lemma SetState_heap_length : length h' = length h.
Proof.
  rewrite SetState_heap_unfold, length_layer, length_layer. apply length_update.
Qed.

Lemma SetState_heap_parent i : parent_of h' i = parent_of h i.
Proof.
  rewrite SetState_heap_unfold, parent_of_layer, parent_of_layer by done.
  by apply parent_of_update.
Qed.

Lemma SetState_heap_ancestors i : ancestors h' i = ancestors h i.
Proof.
  apply ancestors_same; [apply SetState_heap_length|apply SetState_heap_parent].
Qed.

Lemma SetState_heap_lookup i ci :
  h !! i = Some ci ->
  exists ci', h' !! i = Some ci' /\
    State ci' = (if Nat.eqb i x then next else State ci) /\
    StartingChildren ci' =
      (StartingChildren ci + delta next Starting (State c) (inb i up))%Z /\
    RunningChildren ci' =
      (RunningChildren ci + delta next Running (State c) (inb i up))%Z /\
    Parent ci' = Parent ci /\ Children ci' = Children ci.
Proof.
  intros Hi. rewrite SetState_heap_unfold.
  rewrite lookup_layer, lookup_layer by apply ancestors_NoDup, Hwf.
  unfold h1, update, delta.
  destruct (Nat.eqb i x) eqn:E.
  - apply Nat.eqb_eq in E. subst i. rewrite list_lookup_alter_eq, Hi. simpl.
    assert (inb x up = false) as ->.
    { destruct (inb x up) eqn:Ei; [|done]. apply inb_In in Ei.
      apply ancestors_lt in Ei; [lia|done]. }
    rewrite !andb_false_r. simpl. eexists. split; [done|]. simpl.
    repeat split; lia.
  - apply Nat.eqb_neq in E. rewrite list_lookup_alter_ne, Hi by done. simpl.
    eexists. split; [done|].
    destruct (state_eqb (State c) Running || state_eqb next Running),
      (state_eqb (State c) Starting || state_eqb next Starting), (inb i up);
      simpl; repeat split; try lia; done.
Qed.

Lemma SetState_heap_descendants a s :
  descendants_in h' a s =
  (descendants_in h a s + b2z (inb a up && state_eqb next s)
   - b2z (inb a up && state_eqb (State c) s))%Z.
Proof.
  unfold descendants_in, count_where.
  rewrite (count_from_ext h' h 0 _
    (fun i ci => inb a (ancestors h i) &&
                 state_eqb (if Nat.eqb i x then next else State ci) s)).
  - rewrite (count_from_point h 0
      (fun i ci => inb a (ancestors h i) && state_eqb (State ci) s) _ x c Hx).
    + simpl. by rewrite Nat.eqb_refl.
    + intros j cj Hj _. simpl. apply Nat.eqb_neq in Hj. by rewrite Hj.
  - apply SetState_heap_length.
  - intros j cj' cj Hj' Hj. simpl.
    destruct (SetState_heap_lookup j cj Hj) as (d & Hd & Hs & _).
    assert (d = cj') by congruence. subst d.
    by rewrite SetState_heap_ancestors, Hs.
Qed.

Lemma SetState_heap_counters :
  counters_descendants h -> counters_descendants h'.
Proof.
  intros Hinv a ca' Ha'.
  assert (exists ca, h !! a = Some ca) as [ca Ha].
  { apply lookup_lt_is_Some. rewrite <- SetState_heap_length.
    by apply lookup_lt_Some in Ha'. }
  destruct (SetState_heap_lookup a ca Ha) as (d & Hd & _ & HS & HR & _).
  assert (d = ca') by congruence. subst d.
  destruct (Hinv a ca Ha) as [IS IR].
  rewrite HS, HR, IS, IR, !SetState_heap_descendants.
  unfold delta, b2z. revert Hne.
  destruct (inb a up), (State c), next; simpl; intros; try discriminate; lia.
Qed.

End SetStateFacts.

(** Claim C2, as amended.  When [StartingChildren] and [RunningChildren] of
    every container equal the number of its descendants (the containers below
    it, at any depth) in state [Starting] and in state [Running], they still
    do after any state transition of any container. *)
Theorem SetState_counters w x next :
  wf (cts w) -> counters_descendants (cts w) ->
  counters_descendants (cts (snd (SetState x next w))).
Proof.
  intros Hwf Hinv. rewrite cts_SetState.
  destruct (cts w !! x) as [c|] eqn:Ex.
  - destruct (state_eqb (State c) next) eqn:Es.
    + unfold SetState_heap. by rewrite Ex, Es.
    + by eapply SetState_heap_counters.
  - unfold SetState_heap. by rewrite Ex.
Qed.

Lemma counters_childrenb_spec h :
  Examples.counters_childrenb h = true <-> counters_children h.
Proof.
  unfold Examples.counters_childrenb, counters_children. rewrite forallb_imap.
  split; intros H a c Ha; specialize (H a c Ha).
  - apply andb_true_iff in H as [H1 H2]. by apply Z.eqb_eq in H1, H2.
  - destruct H as [-> ->]. by rewrite !Z.eqb_refl.
Qed.

Lemma counters_descendantsb_spec h :
  Examples.counters_descendantsb h = true <-> counters_descendants h.
Proof.
  unfold Examples.counters_descendantsb, counters_descendants. rewrite forallb_imap.
  split; intros H a c Ha; specialize (H a c Ha).
  - apply andb_true_iff in H as [H1 H2]. by apply Z.eqb_eq in H1, H2.
  - destruct H as [-> ->]. by rewrite !Z.eqb_refl.
Qed.

(** The links of the heap do not change either, so the theorem applies to
    the next transition as well. *)
Lemma SetState_wf w x next : wf (cts w) -> wf (cts (snd (SetState x next w))).
Proof.
  intros Hwf. rewrite cts_SetState.
  destruct (cts w !! x) as [c|] eqn:Ex; [|unfold SetState_heap; by rewrite Ex].
  destruct (state_eqb (State c) next) eqn:Es;
    [unfold SetState_heap; by rewrite Ex, Es|].
  intros i ci' Hi'.
  assert (exists ci, cts w !! i = Some ci) as [ci Hi].
  { apply lookup_lt_is_Some.
    rewrite <- (SetState_heap_length (cts w) x c next Ex Es).
    by apply lookup_lt_Some in Hi'. }
  destruct (SetState_heap_lookup (cts w) x c next Hwf Ex Es i ci Hi)
    as (d & Hd & _ & _ & _ & HP & HC).
  assert (d = ci') by congruence. subst d.
  rewrite HP, HC, (SetState_heap_length (cts w) x c next Ex Es).
  by apply Hwf.
Qed.

(** The theorem at work: ["a/b"] enters [Starting] below two meta
    containers. *)
Lemma SetState_counters_witness :
  wf (cts (Examples.world Examples.idle_heap)) /\
  counters_descendants (cts (Examples.world Examples.idle_heap)) /\
  counters_descendants
    (cts (snd (SetState 2 Starting (Examples.world Examples.idle_heap)))).
Proof.
  split; [apply wfb_wf; reflexivity|].
  split; [apply counters_descendantsb_spec; reflexivity|].
  apply (SetState_counters (Examples.world Examples.idle_heap) 2 Starting).
  - apply wfb_wf. reflexivity.
  - apply counters_descendantsb_spec. reflexivity.
Defined.

(** Claim C2 as worded fails: the counters equal the counts of children
    before ["a/b"] enters [Starting], and afterwards the root has
    [StartingChildren = 1] although none of its children is [Starting]. *)
Lemma counters_do_not_count_children :
  counters_children (cts (Examples.world Examples.idle_heap)) /\
  ~ counters_children
      (cts (snd (SetState 2 Starting (Examples.world Examples.idle_heap)))) /\
  (StartingChildren <$>
     cts (snd (SetState 2 Starting (Examples.world Examples.idle_heap))) !! 0)
    = Some 1%Z /\
  children_in
    (cts (snd (SetState 2 Starting (Examples.world Examples.idle_heap)))) 0 Starting
    = 0%Z.
Proof.
  split; [apply counters_childrenb_spec; reflexivity|].
  split; [|split; reflexivity].
  intros H. apply counters_childrenb_spec in H. vm_compute in H. discriminate.
Qed.

End StateMachineFacts.

(** ** Memory guarantees *)

Module MemFacts.

Import MemGuarantee.

Lemma u64_small z : (0 <= z < 2 ^ 64)%Z -> u64 z = z.
Proof. intros H. unfold u64. by apply Z.mod_small. Qed.

(** A sum of totals that are not negative is not negative, and is at least
    the accumulator. *)
Lemma foldl_total_ge (f : ptr -> Z) (l : list ptr) (a : Z) :
  (forall k, In k l -> 0 <= f k)%Z ->
  (a <= foldl (fun sum k => sum + f k) a l)%Z.
Proof.
  revert a. induction l as [|k l IH]; intros a Hf; simpl; [lia|].
  specialize (IH (a + f k)%Z ltac:(intros; apply Hf; by right)).
  specialize (Hf k ltac:(by left)). lia.
Qed.

Lemma total_guarantee_nonneg n h x : (0 <= total_guarantee n h x)%Z.
Proof.
  revert x. induction n as [|n IH]; intros x; simpl; [lia|].
  destruct (h !! x) as [c|]; [|lia].
  destruct (state_eqb (State c) Stopped); [lia|].
  pose proof (foldl_total_ge (total_guarantee n h) (Children c) 0
                ltac:(intros; apply IH)).
  lia.
Qed.

(** Below [2^64] the 64-bit sum is the sum. *)
Lemma foldl_u64 (f g : ptr -> Z) (l : list ptr) (a : Z) :
  (0 <= a)%Z ->
  (forall k, In k l -> 0 <= f k)%Z ->
  (forall k, In k l -> (f k < 2 ^ 64)%Z -> g k = f k) ->
  (foldl (fun sum k => sum + f k) a l < 2 ^ 64)%Z ->
  foldl (fun sum k => u64 (sum + g k)) a l = foldl (fun sum k => sum + f k)%Z a l.
Proof.
  revert a. induction l as [|k l IH]; intros a Ha Hf Hg Hlt; simpl in *; [done|].
  pose proof (foldl_total_ge f l (a + f k)%Z ltac:(intros; apply Hf; by right)).
  pose proof (Hf k ltac:(by left)).
  rewrite (Hg k) by (by left || lia).
  rewrite u64_small by lia.
  apply IH; try lia; intros; [apply Hf | apply Hg]; auto.
Qed.

Lemma GetTotalMemGuarantee_exact n h x :
  (total_guarantee n h x < 2 ^ 64)%Z ->
  GetTotalMemGuarantee_ n h x = total_guarantee n h x.
Proof.
  revert x. induction n as [|n IH]; intros x Hlt; simpl in *; [done|].
  destruct (h !! x) as [c|]; [|done].
  destruct (state_eqb (State c) Stopped); [done|].
  rewrite (foldl_u64 (total_guarantee n h) (GetTotalMemGuarantee_ n h)); try lia.
  - intros. apply total_guarantee_nonneg.
  - intros. by apply IH.
Qed.

(** More depth than the heap has containers changes nothing. *)
Lemma foldl_ext_in (f g : Z -> ptr -> Z) (l : list ptr) (a : Z) :
  (forall s k, In k l -> f s k = g s k) -> foldl f a l = foldl g a l.
Proof.
  revert a. induction l as [|k l IH]; intros a H; simpl; [done|].
  rewrite H by (by left). apply IH. intros. apply H. by right.
Qed.

Lemma total_guarantee_depth h : wf h -> forall n m x,
  length h - x < n -> length h - x < m ->
  total_guarantee n h x = total_guarantee m h x.
Proof.
  intros Hwf. induction n as [|n IH]; intros m x Hn Hm; [lia|].
  destruct m as [|m]; [lia|]. simpl.
  destruct (h !! x) as [c|] eqn:Ex; [|done].
  destruct (state_eqb (State c) Stopped); [done|].
  f_equal. apply foldl_ext_in. intros s k Hk.
  destruct (Hwf x c Ex) as [_ Hc]. specialize (Hc k Hk).
  f_equal. apply IH; lia.
Qed.

Lemma GetTotalMemGuarantee_depth h : wf h -> forall n m x,
  length h - x < n -> length h - x < m ->
  GetTotalMemGuarantee_ n h x = GetTotalMemGuarantee_ m h x.
Proof.
  intros Hwf. induction n as [|n IH]; intros m x Hn Hm; [lia|].
  destruct m as [|m]; [lia|]. simpl.
  destruct (h !! x) as [c|] eqn:Ex; [|done].
  destruct (state_eqb (State c) Stopped); [done|].
  f_equal. apply foldl_ext_in. intros s k Hk.
  destruct (Hwf x c Ex) as [_ Hc]. specialize (Hc k Hk).
  do 2 f_equal. apply IH; lia.
Qed.

(** Whenever the check fails, it fails with [ResourceNotAvailable] and a text
    that starts with "Memory guarantee overcommit". *)
Lemma CheckMemGuarantee_kind w :
  failed (CheckMemGuarantee w) = true ->
  Error (CheckMemGuarantee w) = ResourceNotAvailable /\
  String.prefix "Memory guarantee overcommit" (Text (CheckMemGuarantee w)) = true.
Proof.
  unfold CheckMemGuarantee.
  destruct (_ <? _)%Z; [|discriminate]. intros _. split; reflexivity.
Qed.

(** Property X15.  As long as the sum of the guarantees and the reserve stay below [2^64],
    the check fails exactly when the specification says the host is
    overcommitted. *)
Theorem CheckMemGuarantee_without_overflow w :
  (0 <= memory_guarantee_reserve w)%Z ->
  (total_guarantee (S (length (cts w))) (cts w) (RootContainer w) +
   memory_guarantee_reserve w < 2 ^ 64)%Z ->
  (failed (CheckMemGuarantee w) = true <-> overcommitted w).
Proof.
  intros Hr Hlt. unfold CheckMemGuarantee, overcommitted, GetTotalMemGuarantee.
  pose proof (total_guarantee_nonneg (S (length (cts w))) (cts w) (RootContainer w)).
  rewrite GetTotalMemGuarantee_exact by lia.
  rewrite u64_small by lia.
  destruct (_ <? _)%Z eqn:E.
  - apply Z.ltb_lt in E. split; [done|reflexivity].
  - apply Z.ltb_ge in E. split; [discriminate|lia].
Qed.

(** Claim C8 fails on the code.  The host has 64 GiB and a reserve of 2 GiB;
    the only running container has a guarantee of [2^64 - 2^31] bytes.  The
    guarantees and the reserve exceed the memory of the host, but their
    64-bit sum wraps to zero and the check passes. *)
Theorem CheckMemGuarantee_wraps :
  overcommitted (Examples.mem_world Running) /\
  CheckMemGuarantee (Examples.mem_world Running) = OK.
Proof. split; [vm_compute; reflexivity | reflexivity]. Qed.

(** The same through [Start]: the container, stopped, is started and ends up
    [Running]. *)
Lemma Start_overcommitted :
  fst (Lifecycle.Start Examples.CPU_POWER_PER_SEC Examples.format_error 1
         (Examples.mem_world Stopped)) = Some (Cpu.Returned OK) /\
  (State <$> cts (snd (Lifecycle.Start Examples.CPU_POWER_PER_SEC
                         Examples.format_error 1
                         (Examples.mem_world Stopped))) !! 1) = Some Running.
Proof. split; reflexivity. Qed.

End MemFacts.

(** ** CPU affinity distribution *)

Module CpuFacts.

Import Cpu.

Section DistributeFacts.

Variable CPU_POWER_PER_SEC : Z.


(** Without overcommit nothing is logged and the distribution goes on. *)
Lemma no_overcommit_outcome this parent w p e vacantGuarantee w1 p1 :
  cts w !! parent = Some p -> dormant p = false -> Children p <> [] ->
  place_children parent
    (flat_map (fun type => map (pair type) (Children p)) order) 0 w
    = ((e, vacantGuarantee), w1) ->
  failed e = false ->
  cts w1 !! parent = Some p1 ->
  (vacantGuarantee <= u64 (Z.of_nat (Weight (CpuVacant p1)) * CPU_POWER_PER_SEC))%Z ->
  distribute_parent CPU_POWER_PER_SEC this parent w = (None, w1).
Proof.
  intros Hp Hlive Hch Hplace He Hp1 Hover.
  unfold distribute_parent. unfold bind at 1. unfold get_ct at 1, gets at 1.
  rewrite Hp, Hlive. destruct (Children p) as [|k ks] eqn:Ek; [done|].
  unfold bind at 1. rewrite Hplace. cbn [fst snd]. rewrite He.
  unfold check_guarantee. unfold bind at 1. unfold get_ct at 1, gets at 1.
  rewrite Hp1. apply Z.ltb_ge in Hover. by rewrite Hover.
Qed.

(** The error of a parent is the error of [DistributeCpus]: the loop over the
    parents stops at the first outcome. *)
Lemma distribute_parents_stops this parent l out w w1 :
  distribute_parent CPU_POWER_PER_SEC this parent w = (Some out, w1) ->
  distribute_parents CPU_POWER_PER_SEC this (parent :: l) w = (Some out, w1).
Proof. intros H. simpl. unfold bind. by rewrite H. Qed.

End DistributeFacts.



End CpuFacts.

(** ** Parent names, state names, property names *)

Module NamingFacts.

Import Name NameFacts Naming.

(** Property X11.  [ParseState] reads back every name that [StateName] writes. *)
Theorem ParseState_StateName s : ParseState (Lifecycle.StateName s) = s.
Proof. by destruct s. Qed.

Lemma rfind_app_sep c : forall p,
  rfind SLASH c = None -> rfind SLASH (p ++ String SLASH c) = Some (String.length p).
Proof.
  intros p Hc. induction p as [|a p IH].
  - change ("" ++ String SLASH c) with (String SLASH c). cbn [rfind].
    by rewrite Hc.
  - rewrite app_cons_s. cbn [rfind String.length]. by rewrite IH.
Qed.

Lemma substring_app_l (p q : string) : substring 0 (String.length p) (p ++ q) = p.
Proof.
  induction p as [|a p IH].
  - by destruct q.
  - rewrite app_cons_s. cbn [String.length substring]. by rewrite IH.
Qed.

Lemma rfind_split name : forall sep,
  rfind SLASH name = Some sep ->
  exists p c, name = p ++ String SLASH c /\ String.length p = sep /\
              rfind SLASH c = None.
Proof.
  induction name as [|a s IH]; intros sep H; [discriminate|].
  cbn [rfind] in H. destruct (rfind SLASH s) as [i|] eqn:E.
  - destruct (IH i eq_refl) as (p & c & -> & <- & Hc).
    inversion H. exists (String a p), c. by rewrite app_cons_s.
  - destruct (Ascii.eqb a SLASH) eqn:Ea; [|discriminate].
    apply Ascii.eqb_eq in Ea. subst a. inversion H.
    by exists "", s.
Qed.

(** Property X3.  [ParentName] undoes the joining of a path and a last component, and a
    name of one component has the root as its parent. *)
Theorem ParentName_join p c :
  rfind SLASH c = None ->
  ParentName (p ++ String SLASH c) = p /\ ParentName c = ROOT_CONTAINER.
Proof.
  intros Hc. unfold ParentName. rewrite (rfind_app_sep c p Hc), Hc.
  by rewrite substring_app_l.
Qed.

Lemma ParentName_join_witness :
  ParentName ("a/b" ++ String SLASH "c") = "a/b" /\ ParentName "c" = ROOT_CONTAINER.
Proof. apply (ParentName_join "a/b" "c"). reflexivity. Defined.

Lemma loop_scan_sep rest : forall pre cur,
  ValidName_loop (pre ++ cur ++ rest) (String.length rest + 1)
    (String.length pre) (String.length pre + String.length cur) = OK
  <-> scan_sep cur rest = true.
Proof.
  induction rest as [|c r IH]; intros pre cur.
  - change (String.length "" + 1)%nat with 1%nat.
    rewrite loop_step. change (is_sep (head_or_nul "")) with true. cbv iota.
    cbn [scan_sep]. destruct (component_ok' cur) eqn:Ec.
    + split; reflexivity.
    + split; [|discriminate]. intros H. by apply loop_reject in H.
  - replace (String.length (String c r) + 1)%nat with (S (String.length r + 1))
      by (cbn [String.length]; lia).
    rewrite loop_step. cbn [head_or_nul scan_sep].
    destruct (is_sep c) eqn:Es.
    + destruct (component_ok' cur) eqn:Ec.
      * specialize (IH (pre ++ cur ++ String c "") "").
        rewrite !string_length_app in IH. cbn [String.length] in IH.
        replace ((pre ++ cur ++ String c "") ++ "" ++ r)
          with (pre ++ cur ++ String c r) in IH
          by (rewrite !app_assoc_s; reflexivity).
        rewrite Nat.add_0_r, Nat.add_assoc in IH. exact IH.
      * split; [|discriminate]. intros H. apply loop_reject in H; by rewrite ?Ec.
    + destruct (name_char c) eqn:En; [|split; discriminate].
      specialize (IH pre (cur ++ String c "")).
      rewrite string_length_app in IH. cbn [String.length] in IH.
      rewrite app_assoc_s in IH. rewrite Nat.add_assoc in IH. exact IH.
Qed.

Lemma scan_sep_prefix c : forall p cur,
  scan_sep cur (p ++ String SLASH c) = true -> scan_sep cur p = true.
Proof.
  induction p as [|a p IH]; intros cur H.
  - change ("" ++ String SLASH c) with (String SLASH c) in H.
    cbn [scan_sep] in H. change (is_sep SLASH) with true in H. cbv iota in H.
    apply andb_true_iff in H as [H _]. exact H.
  - rewrite app_cons_s in H. cbn [scan_sep] in H |- *.
    destruct (is_sep a).
    + apply andb_true_iff in H as [H1 H2]. rewrite H1. cbn [andb]. by apply IH.
    + destruct (name_char a); [by apply IH|discriminate].
Qed.

Lemma ValidName_scan name su :
  ValidName name su = OK -> name <> ROOT_CONTAINER ->
  scan_sep "" name = true /\ Ascii.eqb (at_ name 0) SLASH = false /\
  (String.length name <=?
     (if su then CONTAINER_PATH_MAX_FOR_SUPERUSER else CONTAINER_PATH_MAX))%nat = true.
Proof.
  unfold ValidName. intros H Hr.
  destruct (String.length name =? 0)%nat; [discriminate|].
  destruct (_ <? _)%nat eqn:El; [discriminate|].
  apply Nat.ltb_ge in El.
  destruct (Ascii.eqb (at_ name 0) SLASH).
  - destruct (String.eqb name ROOT_CONTAINER) eqn:Er; [|discriminate].
    by apply String.eqb_eq in Er.
  - split; [|split; [done|by apply Nat.leb_le]].
    pose proof (loop_scan_sep name "" "") as L.
    change ("" ++ "" ++ name) with name in L.
    change (String.length "" + String.length "")%nat with 0%nat in L.
    change (String.length "") with 0%nat in L.
    by apply L.
Qed.

(** Property X4.  The parent name of a valid name other than the root is a valid name:
    [Create] looks the parent up under a name that [ValidName] accepts. *)
Theorem ParentName_valid name su :
  ValidName name su = OK -> name <> ROOT_CONTAINER ->
  ValidName (ParentName name) su = OK.
Proof.
  intros H Hr. destruct (ValidName_scan name su H Hr) as (Hs & Ha & Hl).
  unfold ParentName. destruct (rfind SLASH name) as [sep|] eqn:E.
  2:{ by destruct su. }
  apply rfind_split in E as (p & c & -> & <- & Hc).
  rewrite substring_app_l. apply scan_sep_prefix in Hs.
  apply Nat.leb_le in Hl. rewrite string_length_app in Hl.
  destruct p as [|a p]; [discriminate|].
  rewrite app_cons_s in Ha. change (at_ (String a (p ++ String SLASH c)) 0) with a in Ha.
  unfold ValidName.
  replace (String.length (String a p) =? 0)%nat with false by reflexivity.
  replace (_ <? String.length (String a p))%nat with false
    by (symmetry; apply Nat.ltb_ge; lia).
  change (at_ (String a p) 0) with a. rewrite Ha.
  pose proof (loop_scan_sep (String a p) "" "") as L.
  change ("" ++ "" ++ String a p) with (String a p) in L.
  change (String.length "" + String.length "")%nat with 0%nat in L.
  change (String.length "") with 0%nat in L.
  by apply L.
Qed.

Lemma ParentName_valid_witness :
  ValidName (ParentName "a/b/c") false = OK.
Proof.
  apply (ParentName_valid "a/b/c" false).
  - reflexivity.
  - discriminate.
Defined.

Lemma ValidName_spec_no_nul_witness :
  ValidName "a/b-1" false = OK <-> valid_name_spec "a/b-1" false = true.
Proof. apply (ValidName_spec_no_nul "a/b-1" false). reflexivity. Defined.

(** *** Property names *)

Import Properties.

Lemma index_bracket_app n rest :
  String.index 0 "[" n = None ->
  String.index 0 "[" (n ++ String "[" rest) = Some (String.length n).
Proof.
  induction n as [|a n IH]; intros H.
  - change ("" ++ String "[" rest) with (String "[" rest).
    cbn. destruct rest; reflexivity.
  - rewrite app_cons_s. cbn [String.index] in H |- *.
    destruct (String.prefix "[" (String a n)) eqn:Ep; [discriminate|].
    replace (String.prefix "[" (String a (n ++ String "[" rest))) with false.
    2:{ cbn [String.prefix] in Ep |- *. destruct (ascii_dec "[" a); [|done].
        by destruct n. }
    destruct (String.index 0 "[" n) eqn:En; [discriminate|].
    by rewrite IH.
Qed.

Lemma last_char_app_1 s c : last_char (s ++ String c "") = Some c.
Proof.
  unfold last_char. rewrite string_length_app. cbn [String.length].
  replace (String.length s + 1 - 1)%nat with (String.length s) by lia.
  by rewrite string_get_app_r.
Qed.

Lemma substring_app_r (p q : string) :
  substring (String.length p) (String.length q) (p ++ q) = q.
Proof.
  pose proof (substring_app_mid p q "") as H. by rewrite app_nil_r_s in H.
Qed.

(** Property X25.  [ParsePropertyName] splits ["name[index]"] into the name and the index,
    whatever the index is, when the name has no bracket of its own. *)
Theorem ParsePropertyName_indexed n i idx :
  String.index 0 "[" n = None ->
  ParsePropertyName (n ++ "[" ++ i ++ "]") idx = (true, n, i).
Proof.
  intros Hn. unfold ParsePropertyName.
  replace (n ++ "[" ++ i ++ "]") with ((n ++ "[" ++ i) ++ "]")
    by (by rewrite !app_assoc_s).
  rewrite last_char_app_1. rewrite string_length_app. cbn [String.length].
  replace (String.length (n ++ "[" ++ i) + 1 =? 0)%nat with false
    by (symmetry; apply Nat.eqb_neq; lia).
  cbn [negb andb]. change (Ascii.eqb "]" "]") with true. cbv iota.
  replace ((n ++ "[" ++ i) ++ "]") with (n ++ String "[" (i ++ "]"))
    by (by rewrite !app_assoc_s).
  rewrite (index_bracket_app n (i ++ "]") Hn).
  rewrite substring_app_l.
  replace (n ++ String "[" (i ++ "]")) with ((n ++ "[") ++ (i ++ "]"))
    by (by rewrite !app_assoc_s).
  replace (String.length n + 1)%nat with (String.length (n ++ "["))
    by (rewrite string_length_app; reflexivity).
  replace (String.length (n ++ "[" ++ i) + 1 - String.length (n ++ "["))%nat
    with (String.length (i ++ "]"))
    by (rewrite !string_length_app; cbn [String.length]; lia).
  rewrite substring_app_r.
  rewrite string_length_app. cbn [String.length].
  replace (String.length i + 1 - 1)%nat with (String.length i) by lia.
  by rewrite substring_app_l.
Qed.

Lemma ParsePropertyName_indexed_witness :
  ParsePropertyName ("net_limit" ++ "[" ++ "eth0" ++ "]") "" =
    (true, "net_limit", "eth0").
Proof. apply (ParsePropertyName_indexed "net_limit" "eth0" ""). reflexivity. Defined.

End NamingFacts.

(** ** Locks: release, exclusion, downgrade *)

Module LockOpsFacts.

Import Locking LockOps HeapFacts LockingFacts StateMachine StateMachineFacts.

Lemma lookup_update x f (h : heap) i :
  update x f h !! i = (if Nat.eqb i x then f else id) <$> h !! i.
Proof.
  unfold update. destruct (Nat.eqb i x) eqn:E.
  - apply Nat.eqb_eq in E. subst. by rewrite list_lookup_alter_eq.
  - apply Nat.eqb_neq in E. rewrite list_lookup_alter_ne by done.
    by destruct (h !! i).
Qed.

Lemma inb_false_lt x l : (forall a, In a l -> a < x) -> inb x l = false.
Proof.
  intros H. destruct (inb x l) eqn:E; [|done].
  apply inb_In in E. specialize (H x E). lia.
Qed.

Lemma ancestors_in_heap h x a :
  wf h -> In a (ancestors h x) -> is_Some (h !! x) -> is_Some (h !! a).
Proof.
  intros Hwf Ha Hx. apply lookup_lt_is_Some.
  apply lookup_lt_is_Some in Hx. pose proof (ancestors_lt h x a Hwf Ha). lia.
Qed.

(** The heap a granted [Lock] leaves, by container. *)
Lemma Lock_granted_heap h x c for_read try_lock tid h1 :
  wf h -> h !! x = Some c ->
  Lock h x for_read try_lock tid = (Granted, h1) ->
  State c <> Destroyed /\ busy for_read h x c = false /\
  length h1 = length h /\
  (forall i, parent_of h1 i = parent_of h i) /\
  (forall i, h1 !! i =
     (if Nat.eqb i x then acquire for_read tid
      else if inb i (ancestors h x) then bump for_read else id) <$> h !! i).
Proof.
  intros Hwf Hx HL.
  pose proof (proj1 (Lock_granted h x c for_read try_lock tid Hx)) as HG.
  rewrite HL in HG. destruct (HG eq_refl) as [Hd Hb].
  unfold Lock in HL. rewrite Hx, Hb in HL.
  destruct (state_eqb (State c) Destroyed) eqn:Es; [by destruct (State c)|].
  cbn [negb] in HL. inversion HL as [Hh]. clear HL.
  split; [done|]. split; [done|]. split; [|split].
  - by rewrite length_foldl_update, length_update.
  - intros i. rewrite parent_of_foldl_update by (intros; by destruct for_read).
    by rewrite parent_of_update.
  - intros i. rewrite lookup_foldl_update by by apply ancestors_NoDup.
    rewrite lookup_update.
    destruct (Nat.eqb i x) eqn:E.
    + apply Nat.eqb_eq in E. subst i.
      rewrite inb_false_lt by (intros a; by apply ancestors_lt).
      by destruct (h !! x).
    + by destruct (inb i (ancestors h x)), (h !! i).
Qed.

Lemma unlock_chain_ok held l : List.NoDup l -> forall h,
  (forall a, In a l -> exists ca, h !! a = Some ca /\
     (if (0 <? held)%Z then (0 <? SubtreeRead ca)%Z else (0 <? SubtreeWrite ca)%Z) = true) ->
  unlock_chain held h l = Some (foldl (fun h' a => update a (unbump held) h') h l).
Proof.
  induction 1 as [|a l Hna Hnd IH]; intros h H; simpl; [done|].
  destruct (H a (or_introl eq_refl)) as (ca & -> & ->).
  apply IH. intros b Hb. destruct (H b (or_intror Hb)) as (cb & Eb & Cb).
  exists cb. split; [|done]. rewrite lookup_update.
  destruct (Nat.eqb b a) eqn:E; [|by rewrite Eb].
  apply Nat.eqb_eq in E. by subst.
Qed.

Lemma unbump_bump for_read held c :
  (0 <? held)%Z = for_read -> unbump held (bump for_read c) = c.
Proof.
  intros <-. unfold unbump, bump. destruct c.
  destruct (0 <? held)%Z; setters; f_equal; lia.
Qed.

(** Property X5.  After a granted [Lock], [Unlock] passes its assertions and leaves the heap
    as it was before the lock was taken, but for the owner that [Lock]
    recorded and the pending-writer flag it cleared. *)
Theorem Lock_then_Unlock h x c for_read try_lock tid h1 :
  wf h -> counters_nonneg h -> h !! x = Some c ->
  Lock h x for_read try_lock tid = (Granted, h1) ->
  Unlock_checked h1 x =
    Some (update x (fun c => set_LastOwner tid (set_PendingWrite false c)) h).
Proof.
  intros Hwf Hnn Hx HL.
  destruct (Lock_granted_heap h x c for_read try_lock tid h1 Hwf Hx HL)
    as (Hd & Hb & Hlen & Hpar & Hlk).
  assert (Hanc : ancestors h1 x = ancestors h x) by by apply ancestors_same.
  assert (Hx1 : h1 !! x = Some (acquire for_read tid c)).
  { by rewrite Hlk, Nat.eqb_refl, Hx. }
  assert (Hheld : (0 <? Locked (acquire for_read tid c))%Z = for_read /\
                  Locked (acquire for_read tid c) <> 0%Z /\
                  (Locked (acquire for_read tid c) +
                   (if for_read then -1 else 1) = Locked c)%Z).
  { apply busy_false_iff in Hb as [Hs _]. unfold busy_self in Hs.
    destruct for_read; cbn.
    - apply orb_false_iff in Hs as [Hs _]. apply orb_false_iff in Hs as [Hs _].
      apply Z.ltb_ge in Hs. split; [apply Z.ltb_lt|]; lia.
    - apply orb_false_iff in Hs as [Hs _]. apply orb_false_iff in Hs as [Hs _].
      apply negb_false_iff, Z.eqb_eq in Hs. rewrite Hs. by split. }
  destruct Hheld as (Hsign & Hnz & Hback).
  unfold Unlock_checked. rewrite Hx1, Hanc.
  rewrite unlock_chain_ok; [|by apply ancestors_NoDup|].
  2:{ intros a Ha.
      destruct (ancestors_in_heap h x a Hwf Ha) as [ca Hca]; [by rewrite Hx|].
      exists (bump for_read ca). split.
      - rewrite Hlk, Hca.
        replace (Nat.eqb a x) with false
          by (symmetry; apply Nat.eqb_neq; pose proof (ancestors_lt h x a Hwf Ha); lia).
        by rewrite (proj2 (inb_In a _) Ha).
      - rewrite Hsign. destruct (Hnn a ca Hca) as [Hr Hw].
        destruct for_read; cbn; apply Z.ltb_lt; lia. }
  apply Z.eqb_neq in Hnz. rewrite Hnz. f_equal.
  apply list_eq. intros i.
  rewrite !lookup_update, lookup_foldl_update by by apply ancestors_NoDup.
  rewrite Hlk. destruct (Nat.eqb i x) eqn:E.
  - apply Nat.eqb_eq in E. subst i.
    rewrite inb_false_lt by (intros a; by apply ancestors_lt).
    rewrite Hx. cbn [fmap option_fmap option_map id]. f_equal.
    rewrite Hsign.
    replace (if for_read then (-1)%Z else 1%Z) with
      (if for_read then -1 else 1)%Z by by destruct for_read.
    rewrite Hback. destruct c. by destruct for_read.
  - destruct (inb i (ancestors h x)), (h !! i) as [ci|]; try done.
    cbn [fmap option_fmap option_map id]. f_equal.
    by apply unbump_bump.
Qed.

Lemma Lock_then_Unlock_witness :
  Unlock_checked (snd (Lock Examples.read_locked_root 2 true true 8)) 2 =
    Some (update 2 (fun c => set_LastOwner 8 (set_PendingWrite false c))
            Examples.read_locked_root).
Proof.
  apply (Lock_then_Unlock Examples.read_locked_root 2
           (Examples.container 3 "a/b" (Some 1) [] Stopped false) true true 8).
  - apply wfb_wf. reflexivity.
  - intros a ca Ha. destruct a as [|[|[|a]]]; vm_compute in Ha; inversion Ha;
      subst; vm_compute; split; discriminate.
  - reflexivity.
  - reflexivity.
Defined.

(** *** Exclusion *)

Lemma acquired_blocks for_read for_read' tid c :
  busy_self for_read c = false -> for_read && for_read' = false ->
  busy_self for_read' (acquire for_read tid c) = true /\
  busy_ancestor for_read' (acquire for_read tid c) = true.
Proof.
  unfold busy_self, busy_ancestor. intros Hs Hrr.
  destruct for_read; simpl in Hrr; subst.
  - apply orb_false_iff in Hs as [Hs _]. apply orb_false_iff in Hs as [Hs _].
    apply Z.ltb_ge in Hs.
    assert (negb (Locked (acquire true tid c) =? 0)%Z = true) as ->; [|done].
    apply negb_true_iff, Z.eqb_neq. simpl. lia.
  - apply orb_false_iff in Hs as [Hs _]. apply orb_false_iff in Hs as [Hs _].
    apply negb_false_iff, Z.eqb_eq in Hs.
    assert (Locked (acquire false tid c) = (-1)%Z) as -> by (simpl; lia).
    by destruct for_read'.
Qed.

Lemma bumped_blocks for_read for_read' ca :
  (0 <= SubtreeRead ca)%Z -> (0 <= SubtreeWrite ca)%Z ->
  for_read && for_read' = false ->
  busy_self for_read' (bump for_read ca) = true.
Proof.
  unfold busy_self, bump. intros Hr Hw Hrr.
  destruct for_read; simpl in Hrr; subst.
  - assert (negb (SubtreeRead (set_SubtreeRead (SubtreeRead ca + 1) ca) =? 0)%Z = true)
      as ->; [|by rewrite orb_true_r].
    apply negb_true_iff, Z.eqb_neq. simpl. lia.
  - assert (negb (SubtreeWrite (set_SubtreeWrite (SubtreeWrite ca + 1) ca) =? 0)%Z = true)
      as ->; [|destruct for_read'; by rewrite !orb_true_r].
    apply negb_true_iff, Z.eqb_neq. simpl. lia.
Qed.

(** Property X6.  While a lock on [x] is held, a lock on [x], on a container below [x] or
    on a container above [x] is taken only if both are read locks. *)
Theorem locks_exclude h x c for_read try_lock tid h1 y for_read' try_lock' tid' :
  wf h -> counters_nonneg h -> h !! x = Some c ->
  Lock h x for_read try_lock tid = (Granted, h1) ->
  y = x \/ Ancestor h x y \/ Ancestor h y x ->
  for_read && for_read' = false ->
  fst (Lock h1 y for_read' try_lock' tid') <> Granted.
Proof.
  intros Hwf Hnn Hx HL Hy Hrr HG.
  destruct (Lock_granted_heap h x c for_read try_lock tid h1 Hwf Hx HL)
    as (Hd & Hb & Hlen & Hpar & Hlk).
  apply busy_false_iff in Hb as [Hs _].
  destruct (h1 !! y) as [cy1|] eqn:Ey1.
  2:{ unfold Lock in HG. by rewrite Ey1 in HG. }
  apply (Lock_granted h1 y cy1) in HG as [_ HB]; [|done].
  apply busy_false_iff in HB as [Hs1 Ha1].
  rewrite (ancestors_same h h1 Hlen Hpar) in Ha1.
  destruct Hy as [->|[Hy|Hy]].
  - rewrite Hlk, Nat.eqb_refl, Hx in Ey1. inversion Ey1. subst cy1.
    destruct (acquired_blocks for_read for_read' tid c Hs Hrr). congruence.
  - apply ancestors_Ancestor in Hy; [|done].
    specialize (Ha1 x (acquire for_read tid c) Hy).
    rewrite Hlk, Nat.eqb_refl, Hx in Ha1. specialize (Ha1 eq_refl).
    destruct (acquired_blocks for_read for_read' tid c Hs Hrr). congruence.
  - apply ancestors_Ancestor in Hy; [|done].
    pose proof (ancestors_lt h x y Hwf Hy) as Hlt.
    rewrite Hlk in Ey1.
    replace (Nat.eqb y x) with false in Ey1 by (symmetry; apply Nat.eqb_neq; lia).
    rewrite (proj2 (inb_In y _) Hy) in Ey1.
    destruct (h !! y) as [cy|] eqn:Ey; [|done]. inversion Ey1. subst cy1.
    destruct (Hnn y cy Ey) as [Hr Hw].
    pose proof (bumped_blocks for_read for_read' cy Hr Hw Hrr). congruence.
Qed.

Lemma locks_exclude_witness :
  fst (Lock (snd (Lock Examples.idle_heap 1 false true 7)) 2 true true 8) <> Granted.
Proof.
  apply (locks_exclude Examples.idle_heap 1
           (Examples.container 2 "a" (Some 0) [2] Meta true) false true 7
           (snd (Lock Examples.idle_heap 1 false true 7)) 2 true true 8).
  - apply wfb_wf. reflexivity.
  - intros a ca Ha. destruct a as [|[|[|a]]]; vm_compute in Ha; inversion Ha;
      subst; vm_compute; split; discriminate.
  - reflexivity.
  - reflexivity.
  - right. left. eapply Anc_parent; reflexivity.
  - reflexivity.
Defined.

(** Property X9.  After a granted [Lock] on [x], [IsLocked(true)] holds on [x] and on
    every container below it, and so does [IsLocked(false)] when the lock is
    a write lock. *)
Theorem IsLocked_after_Lock h x c for_read try_lock tid h1 y :
  wf h -> h !! x = Some c ->
  Lock h x for_read try_lock tid = (Granted, h1) ->
  y = x \/ Ancestor h x y ->
  IsLocked h1 y true = true /\ (for_read = false -> IsLocked h1 y false = true).
Proof.
  intros Hwf Hx HL Hy.
  destruct (Lock_granted_heap h x c for_read try_lock tid h1 Hwf Hx HL)
    as (Hd & Hb & Hlen & Hpar & Hlk).
  apply busy_false_iff in Hb as [Hs _].
  assert (Hin : In x (y :: ancestors h1 y)).
  { rewrite (ancestors_same h h1 Hlen Hpar).
    destruct Hy as [->|Hy]; [by left|right]. by apply ancestors_Ancestor. }
  assert (Hx1 : h1 !! x = Some (acquire for_read tid c)).
  { by rewrite Hlk, Nat.eqb_refl, Hx. }
  unfold IsLocked. split; [|intros ->]; apply existsb_exists; exists x;
    (split; [done|]); rewrite Hx1; unfold locked_here, busy_self in *.
  - destruct for_read.
    + apply orb_false_iff in Hs as [Hs _]. apply orb_false_iff in Hs as [Hs _].
      apply Z.ltb_ge in Hs.
      assert ((0 <? Locked (acquire true tid c))%Z = true) as ->
        by (apply Z.ltb_lt; simpl; lia).
      by rewrite orb_true_r.
    + apply orb_false_iff in Hs as [Hs _]. apply orb_false_iff in Hs as [Hs _].
      apply negb_false_iff, Z.eqb_eq in Hs.
      assert ((Locked (acquire false tid c) <? 0)%Z = true) as ->
        by (apply Z.ltb_lt; simpl; lia).
      done.
  - apply orb_false_iff in Hs as [Hs _]. apply orb_false_iff in Hs as [Hs _].
    apply negb_false_iff, Z.eqb_eq in Hs.
    assert ((Locked (acquire false tid c) <? 0)%Z = true) as ->
      by (apply Z.ltb_lt; simpl; lia).
    done.
Qed.

Lemma IsLocked_after_Lock_witness :
  IsLocked (snd (Lock Examples.idle_heap 1 false true 7)) 2 true = true /\
  (false = false ->
   IsLocked (snd (Lock Examples.idle_heap 1 false true 7)) 2 false = true).
Proof.
  apply (IsLocked_after_Lock Examples.idle_heap 1
           (Examples.container 2 "a" (Some 0) [2] Meta true) false true 7
           (snd (Lock Examples.idle_heap 1 false true 7)) 2).
  - apply wfb_wf. reflexivity.
  - reflexivity.
  - reflexivity.
  - right. eapply Anc_parent; reflexivity.
Defined.

(** *** Downgrade and upgrade *)

Lemma to_writer_to_reader c : to_writer (to_reader c) = c.
Proof. destruct c. unfold to_writer, to_reader. setters. f_equal; lia. Qed.

(** Property X10.  A write lock that is downgraded and, no reader having joined, upgraded
    again leaves the heap as it was, but for the owner. *)
Theorem Downgrade_then_Upgrade h x c tid :
  wf h -> h !! x = Some c -> Locked c = (-1)%Z -> PendingWrite c = false ->
  exists h1,
    Downgrade h x = Some h1 /\
    Upgrade h1 x tid = (Granted, update x (set_LastOwner tid) h).
Proof.
  intros Hwf Hx Hl Hp. unfold Downgrade. rewrite Hx, Hl. cbn [Z.eqb negb].
  eexists. split; [reflexivity|].
  set (A := ancestors h x).
  set (h1 := update x (set_Locked 1) (foldl (fun h' a => update a to_reader h') h A)).
  assert (HA : List.NoDup A) by by apply ancestors_NoDup.
  assert (HxA : inb x A = false)
    by (apply inb_false_lt; intros a; by apply ancestors_lt).
  unfold Upgrade, Upgrade_announce.
  set (h2 := update x (set_PendingWrite true) h1).
  assert (Hanc : ancestors h2 x = A).
  { apply ancestors_same.
    - unfold h2, h1. by rewrite !length_update, length_foldl_update.
    - intros i. unfold h2, h1. rewrite !parent_of_update by done.
      by rewrite parent_of_foldl_update. }
  rewrite Hanc. unfold Upgrade_take.
  assert (Hx3 : foldl (fun h' a => update a to_writer h') h2 A !! x =
                Some (set_PendingWrite true (set_Locked 1 c))).
  { rewrite lookup_foldl_update by done. unfold h2, h1.
    rewrite !lookup_update, lookup_foldl_update by done.
    by rewrite HxA, Nat.eqb_refl, Hx. }
  rewrite Hx3. cbn [Z.eqb negb]. 
  change (Locked (set_PendingWrite true (set_Locked 1 c)) =? 1)%Z with true.
  cbn [negb]. f_equal.
  apply list_eq. intros i. unfold h2, h1.
  rewrite !lookup_update, !lookup_foldl_update, !lookup_update,
    lookup_foldl_update by done.
  destruct (Nat.eqb i x) eqn:E.
  - apply Nat.eqb_eq in E. subst i. rewrite HxA, Hx.
    cbn [fmap option_fmap option_map id]. f_equal.
    destruct c. simpl in Hl, Hp. subst. reflexivity.
  - destruct (inb i A), (h !! i) as [ci|]; try done.
    cbn [fmap option_fmap option_map id]. f_equal. apply to_writer_to_reader.
Qed.

Lemma Downgrade_then_Upgrade_witness :
  exists h1,
    Downgrade (snd (Lock Examples.idle_heap 2 false true 7)) 2 = Some h1 /\
    Upgrade h1 2 9 =
      (Granted, update 2 (set_LastOwner 9) (snd (Lock Examples.idle_heap 2 false true 7))).
Proof.
  apply (Downgrade_then_Upgrade (snd (Lock Examples.idle_heap 2 false true 7)) 2
           (acquire false 7 (Examples.container 3 "a/b" (Some 1) [] Stopped false)) 9).
  - apply wfb_wf. reflexivity.
  - reflexivity.
  - reflexivity.
  - reflexivity.
Defined.

(** *** A writer that waits *)

Lemma busy_chain_ext for_read h h' l : forall b,
  (forall a, In a l -> h' !! a = h !! a) ->
  busy_chain for_read h' b l = busy_chain for_read h b l.
Proof.
  induction l as [|a l IH]; intros b H; simpl; [done|].
  destruct b; [done|]. rewrite (H a) by by left.
  apply IH. intros a' Ha'. apply H. by right.
Qed.

(** No lock is granted on a container or below it once a writer waits for
    it. *)
Lemma pending_writer_waiting h x c tid h1 y for_read' try_lock' tid' :
  wf h -> h !! x = Some c ->
  Lock h x false false tid = (Waiting, h1) ->
  y = x \/ Ancestor h x y ->
  fst (Lock h1 y for_read' try_lock' tid') <> Granted.
Proof.
  intros Hwf Hx HL Hy HG.
  unfold Lock in HL. rewrite Hx in HL.
  destruct (state_eqb (State c) Destroyed); [discriminate|].
  destruct (busy false h x c) eqn:Hb; [|discriminate].
  cbn [negb] in HL. inversion HL as [Hh]. clear HL.
  assert (Hlen : length h1 = length h) by (subst h1; apply length_update).
  assert (Hpar : forall i, parent_of h1 i = parent_of h i)
    by (intros i; subst h1; by apply parent_of_update).
  assert (Hx1 : h1 !! x = Some (set_PendingWrite true c))
    by (subst h1; by rewrite lookup_update, Nat.eqb_refl, Hx).
  destruct (h1 !! y) as [cy1|] eqn:Ey1.
  2:{ unfold Lock in HG. by rewrite Ey1 in HG. }
  apply (Lock_granted h1 y cy1) in HG as [_ HB]; [|done].
  destruct Hy as [->|Hy].
  - rewrite Hx1 in Ey1. inversion Ey1. subst cy1.
    destruct for_read'.
    + apply busy_false_iff in HB as [Hs _]. unfold busy_self in Hs.
      change (PendingWrite (set_PendingWrite true c)) with true in Hs.
      by rewrite orb_true_r in Hs.
    + unfold busy in HB, Hb. rewrite (ancestors_same h h1 Hlen Hpar) in HB.
      rewrite (busy_chain_ext false h h1) in HB.
      * change (busy_self false (set_PendingWrite true c))
          with (busy_self false c) in HB. congruence.
      * intros a Ha. subst h1. rewrite lookup_update.
        replace (Nat.eqb a x) with false
          by (symmetry; apply Nat.eqb_neq; pose proof (ancestors_lt h x a Hwf Ha); lia).
        by destruct (h !! a).
  - apply busy_false_iff in HB as [_ Ha1].
    rewrite (ancestors_same h h1 Hlen Hpar) in Ha1.
    apply ancestors_Ancestor in Hy; [|done].
    specialize (Ha1 x _ Hy Hx1). unfold busy_ancestor in Ha1.
    change (PendingWrite (set_PendingWrite true c)) with true in Ha1.
    discriminate.
Qed.

(** Property X8.  A write request that has to wait announces itself: it
    leaves [PendingWrite] set on the container.  From then on no lock is
    granted on the container or below it, to readers or writers, until the
    heap changes. *)
Theorem pending_writer_blocks h x c tid h1 y for_read' try_lock' tid' :
  wf h -> h !! x = Some c ->
  Lock h x false false tid = (Waiting, h1) ->
  PendingWrite <$> h1 !! x = Some true /\
  (y = x \/ Ancestor h x y ->
   fst (Lock h1 y for_read' try_lock' tid') <> Granted).
Proof.
  intros Hwf Hx HL. split.
  - unfold Lock in HL. rewrite Hx in HL.
    destruct (state_eqb (State c) Destroyed); [discriminate|].
    destruct (busy false h x c); [|discriminate].
    cbn [negb] in HL. inversion HL as [Hh].
    by rewrite lookup_update, Nat.eqb_refl, Hx.
  - intros Hy. by eapply pending_writer_waiting.
Qed.

Lemma pending_writer_blocks_witness :
  PendingWrite <$> snd (Lock Examples.read_locked_root 1 false false 8) !! 1 =
    Some true /\
  fst (Lock (snd (Lock Examples.read_locked_root 1 false false 8)) 2 true true 9)
    <> Granted.
Proof.
  destruct (pending_writer_blocks Examples.read_locked_root 1
              (Examples.container 2 "a" (Some 0) [2] Meta true) 8
              (snd (Lock Examples.read_locked_root 1 false false 8)) 2 true true 9)
    as [Hp Hb].
  - apply wfb_wf. reflexivity.
  - reflexivity.
  - reflexivity.
  - split; [exact Hp|]. apply Hb. right. eapply Anc_parent; reflexivity.
Defined.

(** *** Readers share *)

Lemma busy_chain_same for_read h h' l : forall b,
  (forall a, In a l ->
     match h' !! a with Some c => busy_ancestor for_read c | None => false end =
     match h !! a with Some c => busy_ancestor for_read c | None => false end) ->
  busy_chain for_read h' b l = busy_chain for_read h b l.
Proof.
  induction l as [|a l IH]; intros b H; simpl; [done|].
  destruct b; [done|]. rewrite (H a) by by left.
  apply IH. intros a' Ha'. apply H. by right.
Qed.

Lemma acquire_read_same tid c :
  busy_self true c = false ->
  busy_self true (acquire true tid c) = false /\
  busy_ancestor true (acquire true tid c) = busy_ancestor true c.
Proof.
  unfold busy_self, busy_ancestor. intros Hs.
  apply orb_false_iff in Hs as [Hs Hw]. apply orb_false_iff in Hs as [Hl Hp].
  change (PendingWrite (acquire true tid c)) with false.
  change (SubtreeWrite (acquire true tid c)) with (SubtreeWrite c).
  change (Locked (acquire true tid c)) with (Locked c + 1)%Z.
  rewrite Hw, Hp, Hl. apply Z.ltb_ge in Hl.
  assert ((Locked c + 1 <? 0)%Z = false) as -> by (apply Z.ltb_ge; lia).
  done.
Qed.

(** Property X7.  A read lock stands in the way of no other read lock: whether a read lock
    is granted on any container is the same before and after a read lock has
    been taken. *)
Theorem readers_share h x c try_lock tid h1 y try_lock' tid' :
  wf h -> h !! x = Some c ->
  Lock h x true try_lock tid = (Granted, h1) ->
  (fst (Lock h1 y true try_lock' tid') = Granted <->
   fst (Lock h y true try_lock' tid') = Granted).
Proof.
  intros Hwf Hx HL.
  destruct (Lock_granted_heap h x c true try_lock tid h1 Hwf Hx HL)
    as (Hd & Hb & Hlen & Hpar & Hlk).
  apply busy_false_iff in Hb as [Hs _].
  destruct (acquire_read_same tid c Hs) as [Hs' Ha'].
  assert (Hanc : forall a,
    match h1 !! a with Some c => busy_ancestor true c | None => false end =
    match h !! a with Some c => busy_ancestor true c | None => false end).
  { intros a. rewrite Hlk. destruct (Nat.eqb a x) eqn:E.
    - apply Nat.eqb_eq in E. subst a. by rewrite Hx.
    - by destruct (inb a (ancestors h x)), (h !! a). }
  destruct (h !! y) as [cy|] eqn:Ey.
  2:{ assert (h1 !! y = None) as Ey1 by by rewrite Hlk, Ey.
      unfold Lock. by rewrite Ey, Ey1. }
  assert (exists cy1, h1 !! y = Some cy1 /\ State cy1 = State cy /\
            busy_self true cy1 = busy_self true cy) as (cy1 & Ey1 & Hst & Hbs).
  { rewrite Hlk, Ey. destruct (Nat.eqb y x) eqn:E.
    - apply Nat.eqb_eq in E. subst y. rewrite Hx in Ey. inversion Ey. subst cy.
      eexists. split; [reflexivity|]. split; [done|]. congruence.
    - destruct (inb y (ancestors h x)); eexists; by split. }
  rewrite (Lock_granted h1 y cy1), (Lock_granted h y cy) by done.
  unfold busy. rewrite (ancestors_same h h1 Hlen Hpar), Hst, Hbs.
  by rewrite (busy_chain_same true h h1) by (intros; apply Hanc).
Qed.

Lemma readers_share_witness :
  fst (Lock Examples.read_locked_root 2 true true 8) = Granted <->
  fst (Lock Examples.idle_heap 2 true true 8) = Granted.
Proof.
  apply (readers_share Examples.idle_heap 0
           (Examples.container 1 "/" None [1] Meta true) true 7
           Examples.read_locked_root 2 true 8).
  - apply wfb_wf. reflexivity.
  - reflexivity.
  - reflexivity.
Defined.

End LockOpsFacts.

(** ** The subtree of a container *)

Module TreeFacts.

Import Tree HeapFacts StateMachine StateMachineFacts.

Local Open Scope list_scope.

Lemma linkedb_linked h : linkedb h = true -> linked h.
Proof.
  unfold linkedb. rewrite forallb_imap. intros H x c Hx.
  specialize (H x c Hx). apply andb_true_iff in H as [Hc Hp]. split.
  - intros k Hk. rewrite forallb_forall in Hc. specialize (Hc k Hk).
    destruct (parent_of h k) as [a|]; [|done].
    apply Nat.eqb_eq in Hc. by subst.
  - intros a Ha. rewrite Ha in Hp. destruct (h !! a) as [ca|]; [|done].
    exists ca. split; [done|]. by apply inb_In.
Qed.

Lemma flat_map_ext_in {A B} (f g : A -> list B) (l : list A) :
  (forall a, In a l -> f a = g a) -> flat_map f l = flat_map g l.
Proof.
  induction l as [|a l IH]; intros H; simpl; [done|].
  rewrite (H a) by by left. rewrite IH; [done|]. intros b Hb. apply H. by right.
Qed.

Lemma Subtree_fuel h : wf h -> forall n m x,
  length h <= n + x -> length h <= m + x -> Subtree_ n h x = Subtree_ m h x.
Proof.
  intros Hwf. induction n as [|n IH]; intros m x Hn Hm.
  - assert (h !! x = None) as Hx by (apply lookup_ge_None; lia).
    destruct m; simpl; by rewrite ?Hx.
  - destruct m as [|m].
    + assert (h !! x = None) as Hx by (apply lookup_ge_None; lia).
      simpl; by rewrite ?Hx.
    + simpl. destruct (h !! x) as [c|] eqn:Hx; [|done]. f_equal.
      apply flat_map_ext_in. intros k Hk.
      destruct (Hwf x c Hx) as [_ Hc]. specialize (Hc k Hk).
      apply IH; lia.
Qed.

Lemma Subtree_unfold h x c :
  wf h -> h !! x = Some c ->
  Subtree h x = flat_map (Subtree h) (Children c) ++ [x].
Proof.
  intros Hwf Hx. unfold Subtree at 1.
  pose proof (lookup_lt_Some _ _ _ Hx) as Hlt.
  destruct (length h) as [|n] eqn:El; [lia|].
  cbn [Subtree_]. rewrite Hx. f_equal. apply flat_map_ext_in. intros k Hk.
  destruct (Hwf x c Hx) as [_ Hc]. specialize (Hc k Hk).
  unfold Subtree. apply Subtree_fuel; [done|lia|lia].
Qed.

Lemma Subtree_outside h x : h !! x = None -> Subtree h x = [x].
Proof. intros Hx. unfold Subtree. destruct (length h); simpl; by rewrite ?Hx. Qed.

Lemma Subtree_self h x : In x (Subtree h x).
Proof.
  unfold Subtree. destruct (length h); simpl; [by left|].
  destruct (h !! x); [|by left]. apply in_or_app. right. by left.
Qed.

Lemma Subtree_loop_done n h done : Subtree_loop n h [] done = done.
Proof. by destruct n. Qed.

Lemma Subtree_loop_nodes h : wf h -> forall m l,
  (forall k, In k l -> length h - k <= m) ->
  forall rest done n,
    Subtree_loop (length (flat_map (Subtree h) l) + n) h (rev l ++ rest) done =
    Subtree_loop n h rest (flat_map (Subtree h) l ++ done).
Proof.
  intros Hwf. induction m as [|m IHm]; intros l;
    induction l as [|y l IHl] using rev_ind; intros Hl rest done n;
    try reflexivity.
  - rewrite flat_map_app, rev_app_distr, length_app. simpl.
    assert (h !! y = None) as Hy.
    { apply lookup_ge_None. specialize (Hl y). rewrite in_app_iff in Hl.
      specialize (Hl (or_intror (or_introl eq_refl))). lia. }
    rewrite Subtree_outside by done. simpl.
    replace (length (flat_map (Subtree h) l) + 1 + n)
      with (S (length (flat_map (Subtree h) l) + n)) by lia.
    simpl. unfold Childs at 1. rewrite Hy. simpl.
    rewrite IHl by (intros k Hk; apply Hl, in_or_app; by left).
    by rewrite <- app_assoc.
  - rewrite flat_map_app, rev_app_distr, length_app. simpl.
    rewrite app_nil_r.
    assert (Hl' : forall k, In k l -> length h - k <= S m)
      by (intros k Hk; apply Hl, in_or_app; by left).
    destruct (h !! y) as [c|] eqn:Hy.
    + rewrite (Subtree_unfold h y c) by done. rewrite length_app. simpl.
      replace (length (flat_map (Subtree h) l) +
               (length (flat_map (Subtree h) (Children c)) + 1) + n)
        with (S (length (flat_map (Subtree h) (Children c)) +
                 (length (flat_map (Subtree h) l) + n))) by lia.
      cbn [Subtree_loop]. unfold Childs at 1. rewrite Hy.
      rewrite IHm.
      * rewrite IHl by done. by rewrite <- !app_assoc.
      * intros k Hk. destruct (Hwf y c Hy) as [_ Hc]. specialize (Hc k Hk).
        specialize (Hl y). rewrite in_app_iff in Hl.
        specialize (Hl (or_intror (or_introl eq_refl))). lia.
    + rewrite Subtree_outside by done. simpl.
      replace (length (flat_map (Subtree h) l) + 1 + n)
        with (S (length (flat_map (Subtree h) l) + n)) by lia.
      simpl. unfold Childs at 1. rewrite Hy. simpl.
      rewrite IHl by done. by rewrite <- app_assoc.
Qed.

(** Property X12.  The insertion loop of [Subtree()] yields the depth-first post-order
    listing, once it is given as many turns as the listing has members. *)
Theorem Subtree_loop_post_order h x n :
  wf h -> length (Subtree h x) <= n ->
  Subtree_loop n h [x] [] = Subtree h x.
Proof.
  intros Hwf Hn.
  replace n with (length (flat_map (Subtree h) [x]) + (n - length (Subtree h x)))
    by (simpl; rewrite app_nil_r; lia).
  change [x] with (rev [x] ++ []) at 2.
  rewrite (Subtree_loop_nodes h Hwf (length h)).
  - rewrite Subtree_loop_done. simpl. by rewrite !app_nil_r.
  - intros k _. lia.
Qed.

Lemma Subtree_loop_post_order_witness :
  Subtree_loop 3 Examples.stop_heap [0] [] = Subtree Examples.stop_heap 0.
Proof.
  apply (Subtree_loop_post_order Examples.stop_heap 0 3).
  - apply wfb_wf. reflexivity.
  - vm_compute. lia.
Defined.

(** *** Who is in the subtree *)

Lemma Ancestor_trans h a b y :
  Ancestor h a b -> Ancestor h b y -> Ancestor h a y.
Proof.
  intros Hab Hby. induction Hby as [y c b Hy Hp | y c p b Hy Hp _ IH].
  - by eapply Anc_step.
  - eapply Anc_step; [done|done|]. by apply IH.
Qed.

Lemma Subtree_below h : wf h -> linked h -> forall m x y,
  length h - x <= m -> In y (Subtree h x) -> y = x \/ Ancestor h x y.
Proof.
  intros Hwf Hl. induction m as [|m IH]; intros x y Hm Hy.
  - rewrite Subtree_outside in Hy by (apply lookup_ge_None; lia).
    destruct Hy as [<-|[]]. by left.
  - destruct (h !! x) as [c|] eqn:Hx.
    2:{ rewrite Subtree_outside in Hy by done. destruct Hy as [<-|[]]. by left. }
    rewrite (Subtree_unfold h x c) in Hy by done.
    apply in_app_or in Hy as [Hy|[<-|[]]]; [|by left]. right.
    apply in_flat_map in Hy as (k & Hk & Hy).
    destruct (Hwf x c Hx) as [_ Hc]. specialize (Hc k Hk).
    destruct (Hl x c Hx) as [Hpk _]. specialize (Hpk k Hk).
    unfold parent_of in Hpk. destruct (h !! k) as [ck|] eqn:Ek; [|done].
    assert (Ancestor h x k) as Hxk by by eapply Anc_parent.
    destruct (IH k y) as [->|Hky]; [lia|done|done|].
    by eapply Ancestor_trans.
Qed.

Lemma Subtree_trans h : wf h -> forall m x p y,
  length h - x <= m ->
  In p (Subtree h x) -> In y (Subtree h p) -> In y (Subtree h x).
Proof.
  intros Hwf. induction m as [|m IH]; intros x p y Hm Hp Hy.
  - rewrite Subtree_outside in Hp by (apply lookup_ge_None; lia).
    destruct Hp as [<-|[]]. done.
  - destruct (h !! x) as [c|] eqn:Hx.
    2:{ rewrite Subtree_outside in Hp by done. destruct Hp as [<-|[]]. done. }
    rewrite (Subtree_unfold h x c) in Hp |- * by done.
    apply in_app_or in Hp as [Hp|[<-|[]]].
    + apply in_or_app. left.
      apply in_flat_map in Hp as (k & Hk & Hp).
      apply in_flat_map. exists k. split; [done|].
      destruct (Hwf x c Hx) as [_ Hc]. specialize (Hc k Hk).
      apply (IH k p y); [lia|done|done].
    + by rewrite (Subtree_unfold h x c) in Hy.
Qed.

Lemma Subtree_above h : wf h -> linked h -> forall x y,
  Ancestor h x y -> In y (Subtree h x).
Proof.
  intros Hwf Hl x y H.
  induction H as [y c x Hy Hp | y c p x Hy Hp _ IH].
  - destruct (Hl y c Hy) as [_ Hup]. destruct (Hup x Hp) as (cx & Hx & Hin).
    rewrite (Subtree_unfold h x cx) by done. apply in_or_app. left.
    apply in_flat_map. exists y. split; [done|apply Subtree_self].
  - destruct (Hl y c Hy) as [_ Hup]. destruct (Hup p Hp) as (cp & Hcp & Hin).
    apply (Subtree_trans h Hwf (length h) x p y); [lia|done|].
    rewrite (Subtree_unfold h p cp) by done. apply in_or_app. left.
    apply in_flat_map. exists y. split; [done|apply Subtree_self].
Qed.

(** Property X13.  The subtree of [x] lists [x] and the containers that are [IsChildOf] [x],
    and no other. *)
Theorem Subtree_members h x y :
  wf h -> linked h ->
  (In y (Subtree h x) <-> y = x \/ IsChildOf h y x = true).
Proof.
  intros Hwf Hl. unfold IsChildOf. rewrite inb_In, ancestors_Ancestor by done.
  split.
  - apply (Subtree_below h Hwf Hl (length h)). lia.
  - intros [->|H]; [apply Subtree_self|by apply Subtree_above].
Qed.

Lemma Subtree_members_witness :
  In 2 (Subtree Examples.stop_heap 0) <->
  2 = 0 \/ IsChildOf Examples.stop_heap 2 0 = true.
Proof.
  apply (Subtree_members Examples.stop_heap 0 2).
  - apply wfb_wf. reflexivity.
  - apply linkedb_linked. reflexivity.
Defined.

(** *** Children first *)

Lemma flat_map_split {A B} (f : A -> list B) (L : list A) : forall l1 a l2,
  flat_map f L = l1 ++ a :: l2 ->
  exists La k p1 p2, In k L /\ f k = p1 ++ a :: p2 /\ l1 = flat_map f La ++ p1.
Proof.
  induction L as [|k L IH]; intros l1 a l2 H; simpl in H.
  - by destruct l1.
  - apply app_eq_app in H as [q [[H1 H2]|[H1 H2]]].
    + destruct q as [|b q].
      * simpl in H2. rewrite app_nil_r in H1. subst l1.
        destruct (IH [] a l2) as (La & k' & p1 & p2 & Hk & Hf & Hl); [by symmetry|].
        exists (k :: La), k', p1, p2. split; [by right|]. split; [done|].
        simpl. rewrite <- app_assoc. by rewrite <- Hl, app_nil_r.
      * inversion H2. subst. exists [], k, l1, q. split; [by left|]. by split.
    + destruct (IH q a l2) as (La & k' & p1 & p2 & Hk & Hf & Hl); [done|].
      exists (k :: La), k', p1, p2. split; [by right|]. split; [done|].
      simpl. subst. by rewrite <- app_assoc.
Qed.

Lemma Subtree_children_first_aux h : wf h -> forall m x l1 a l2 ca k,
  length h - x <= m ->
  Subtree h x = l1 ++ a :: l2 -> h !! a = Some ca -> In k (Children ca) ->
  In k l1.
Proof.
  intros Hwf. induction m as [|m IH]; intros x l1 a l2 ca k Hm HS Ha Hk.
  - rewrite Subtree_outside in HS by (apply lookup_ge_None; lia).
    destruct l1 as [|? [|]]; inversion HS. subst.
    apply lookup_lt_Some in Ha. lia.
  - destruct (h !! x) as [c|] eqn:Hx.
    2:{ rewrite Subtree_outside in HS by done.
        destruct l1 as [|? [|]]; inversion HS. subst. congruence. }
    rewrite (Subtree_unfold h x c) in HS by done.
    destruct l2 as [|z l2 _] using rev_ind.
    + apply app_inj_tail in HS as [<- <-]. rewrite Hx in Ha. inversion Ha. subst.
      apply in_flat_map. exists k. split; [done|apply Subtree_self].
    + change (l1 ++ a :: l2 ++ [z]) with (l1 ++ (a :: l2) ++ [z]) in HS.
      rewrite app_assoc in HS. apply app_inj_tail in HS as [HS _].
      apply flat_map_split in HS as (La & kx & p1 & p2 & Hkx & Hf & ->).
      apply in_or_app. right.
      destruct (Hwf x c Hx) as [_ Hc]. specialize (Hc kx Hkx).
      apply (IH kx p1 a p2 ca k); [lia|done|done|done].
Qed.

(** Property X14.  "Childs first": in the listing of a subtree every container comes after
    its children. *)
Theorem Subtree_children_first h x l1 a l2 ca k :
  wf h -> Subtree h x = l1 ++ a :: l2 -> h !! a = Some ca ->
  In k (Children ca) -> In k l1.
Proof.
  intros Hwf. apply (Subtree_children_first_aux h Hwf (length h)). lia.
Qed.

Lemma Subtree_children_first_witness :
  Subtree Examples.stop_heap 0 = [2] ++ 1 :: [0] /\ In 2 [2].
Proof.
  split; [reflexivity|].
  apply (Subtree_children_first Examples.stop_heap 0 [2] 1 [0]
           (set_WaitTask_Pid 10
              (set_Task_Pid 10 (Examples.container 2 "a" (Some 0) [2] Running false)))
           2).
  - apply wfb_wf. reflexivity.
  - reflexivity.
  - reflexivity.
  - by left.
Defined.

End TreeFacts.

(** ** Reserving CPUs, enabling controllers *)

Module ReserveFacts.

Import Cpu.

Lemma bits_of_eq (a b : N) j : a = b -> N.testbit a j = N.testbit b j.
Proof. by intros ->. Qed.

Lemma subset_bits c v j :
  IsSubsetOf c v = true -> N.testbit c j = true -> N.testbit v j = true.
Proof.
  unfold IsSubsetOf. intros H Hc. apply N.eqb_eq in H.
  apply (bits_of_eq _ _ j) in H. rewrite N.ldiff_spec, N.bits_0, Hc in H.
  by destruct (N.testbit v j).
Qed.

(** What a reservation keeps: the CPUs that are vacant and the CPUs that are
    taken are those that were vacant at first, and no CPU is both. *)
Lemma take_core V0 v t c :
  IsSubsetOf c v = true ->
  N.lor v t = V0 -> N.land v t = 0%N ->
  N.lor (N.ldiff v c) (N.lor t c) = V0 /\ N.land (N.ldiff v c) (N.lor t c) = 0%N.
Proof.
  intros Hs Hl Hd. split; apply N.bits_inj; intros j;
    apply (bits_of_eq _ _ j) in Hl, Hd;
    pose proof (subset_bits c v j Hs) as Hc;
    rewrite ?N.land_spec, ?N.lor_spec, ?N.ldiff_spec, ?N.lor_spec, ?N.bits_0 in *;
    destruct (N.testbit v j), (N.testbit t j), (N.testbit c j); simpl in *;
    try done; try (by specialize (Hc eq_refl)).
Qed.

Lemma take_thread V0 v t i :
  N.testbit v i = true ->
  N.lor v t = V0 -> N.land v t = 0%N ->
  N.lor (N.clearbit v i) (N.setbit t i) = V0 /\
  N.land (N.clearbit v i) (N.setbit t i) = 0%N.
Proof.
  intros Hi Hl Hd. split; apply N.bits_inj; intros j;
    apply (bits_of_eq _ _ j) in Hl, Hd;
    rewrite ?N.land_spec, ?N.lor_spec, ?N.bits_0, ?N.setbit_eqb, ?N.clearbit_eqb in *;
    (destruct (N.eqb i j) eqn:E;
     [apply N.eqb_eq in E; subst j; rewrite Hi in *; simpl in *;
      destruct (N.testbit t i); simpl in *; done
     |simpl; destruct (N.testbit v j), (N.testbit t j); simpl in *; done]).
Qed.

Lemma reserve_cpu_keeps V0 ct cpu s :
  Get (vacant s) cpu = true ->
  N.lor (vacant s) (threads s) = V0 -> N.land (vacant s) (threads s) = 0%N ->
  N.lor (vacant (reserve_cpu ct cpu s)) (threads (reserve_cpu ct cpu s)) = V0 /\
  N.land (vacant (reserve_cpu ct cpu s)) (threads (reserve_cpu ct cpu s)) = 0%N.
Proof.
  intros Hg Hl Hd. unfold reserve_cpu.
  destruct (IsSubsetOf (core_threads ct cpu) (vacant s)) eqn:Es.
  - destruct (negb (nr_cores s =? 0)%Z).
    + cbn [vacant threads SetMap]. by apply take_core.
    + destruct (negb (try_thread s)); [|done].
      cbn [vacant threads Set1]. by apply take_thread.
  - destruct (negb (nr_threads s =? 0)%Z); [|done].
    cbn [vacant threads Set1]. by apply take_thread.
Qed.

Lemma reserve_pass_keeps V0 ct cpus : forall s,
  N.lor (vacant s) (threads s) = V0 -> N.land (vacant s) (threads s) = 0%N ->
  N.lor (vacant (reserve_pass ct cpus s)) (threads (reserve_pass ct cpus s)) = V0 /\
  N.land (vacant (reserve_pass ct cpus s)) (threads (reserve_pass ct cpus s)) = 0%N.
Proof.
  induction cpus as [|cpu rest IH]; intros s Hl Hd; cbn [reserve_pass]; [done|].
  destruct (negb (cpu <? Size (vacant s))%nat); [done|].
  destruct (negb (Get (vacant s) cpu)) eqn:Eg; [by apply IH|].
  apply negb_false_iff in Eg.
  destruct (reserve_cpu_keeps V0 ct cpu s Eg Hl Hd) as [Hl' Hd'].
  destruct (_ && _); [done|by apply IH].
Qed.

Lemma reserve_again_keeps V0 ct n : forall s,
  N.lor (vacant s) (threads s) = V0 -> N.land (vacant s) (threads s) = 0%N ->
  N.lor (vacant (reserve_again n ct s)) (threads (reserve_again n ct s)) = V0 /\
  N.land (vacant (reserve_again n ct s)) (threads (reserve_again n ct s)) = 0%N.
Proof.
  induction n as [|n IH]; intros s Hl Hd; cbn [reserve_again]; cbv zeta.
  - by apply reserve_pass_keeps.
  - destruct (reserve_pass_keeps V0 ct (seq 0 (Size (vacant s))) s Hl Hd)
      as [Hl' Hd'].
    destruct (_ && _); [|done]. by apply IH.
Qed.

(** Property X16.  [ReserveCpus] changes nothing but [CpuVacant] of the container it is
    called on.  The CPUs it hands out are taken from the vacant ones: what is
    left vacant and what is handed out are, together, what was vacant, and
    they do not overlap.  When it fails nothing is handed out and [CpuVacant]
    is as before. *)
Theorem ReserveCpus_conserves parent nthreads ncores w p e thr cor w' :
  cts w !! parent = Some p ->
  ReserveCpus parent nthreads ncores w = ((e, thr, cor), w') ->
  exists v',
    w' = set_cts (update parent (set_CpuVacant v') (cts w)) w /\
    N.lor v' thr = CpuVacant p /\ N.land v' thr = 0%N /\
    (failed e = true ->
     Error e = ResourceNotAvailable /\ thr = 0%N /\ cor = 0%N /\ v' = CpuVacant p).
Proof.
  intros Hp H. unfold ReserveCpus in H. rewrite Hp in H.
  set (s := reserve_again _ _ _) in H.
  destruct (reserve_again_keeps (CpuVacant p) (CoreThreads w)
              (Z.to_nat nthreads + 1)
              (mkReserving (CpuVacant p) 0 0 nthreads ncores true))
    as [Hl Hd]; [apply N.lor_0_r|apply N.land_0_r|].
  fold s in Hl, Hd.
  destruct (_ || _) in H; inversion H; subst.
  - exists (SetMap (vacant s) (threads s) true). cbn [SetMap].
    split; [done|]. rewrite N.lor_0_r, N.land_0_r. by rewrite Hl.
  - exists (vacant s). by repeat split.
Qed.

Lemma ReserveCpus_conserves_witness :
  exists v',
    snd (ReserveCpus 1 2 0 (Examples.cpu_ready Running 0)) =
      set_cts (update 1 (set_CpuVacant v') (cts (Examples.cpu_ready Running 0)))
        (Examples.cpu_ready Running 0) /\
    N.lor v' 3 = 15%N /\ N.land v' 3 = 0%N /\
    (failed OK = true ->
     Error OK = ResourceNotAvailable /\ 3%N = 0%N /\ 0%N = 0%N /\ v' = 15%N).
Proof.
  apply (ReserveCpus_conserves 1 2 0 (Examples.cpu_ready Running 0)
           (set_CpuVacant 15
              (set_CpuAffinity 15 (Examples.container 2 "a" (Some 0) [2; 3] Meta true)))
           OK 3 0).
  - reflexivity.
  - vm_compute. reflexivity.
Defined.

(** Property X17.  The root keeps a CPU for itself: when [ReserveCpus] succeeds on the root
    container, at least one of its CPUs is still vacant. *)
Theorem ReserveCpus_root_keeps_cpu parent nthreads ncores w p e thr cor w' p' :
  cts w !! parent = Some p -> IsRoot p = true ->
  ReserveCpus parent nthreads ncores w = ((e, thr, cor), w') ->
  failed e = false ->
  cts w' !! parent = Some p' ->
  Weight (CpuVacant p') <> 0.
Proof.
  intros Hp Hr H Hf Hp'. unfold ReserveCpus in H. rewrite Hp, Hr in H.
  set (s := reserve_again _ _ _) in H.
  destruct (negb (nr_threads s =? 0)%Z || negb (nr_cores s =? 0)%Z ||
            true && (Weight (vacant s) =? 0)%nat) eqn:E;
    inversion H; subst; [discriminate|].
  cbn [cts set_cts] in Hp'. unfold update in Hp'.
  rewrite list_lookup_alter_eq, Hp in Hp'. inversion Hp'. subst p'.
  apply orb_false_iff in E as [_ E]. cbn [andb] in E.
  apply Nat.eqb_neq in E. exact E.
Qed.

Lemma ReserveCpus_root_keeps_cpu_witness :
  Weight
    (CpuVacant
       (set_CpuVacant 12
          (set_CpuVacant 15 (Examples.container 1 "/" None [1] Meta true)))) <> 0.
Proof.
  apply (ReserveCpus_root_keeps_cpu 0 2 0
           (set_CoreThreads [3%N; 3%N; 12%N; 12%N]
              (Examples.world
                 [set_CpuVacant 15 (Examples.container 1 "/" None [1] Meta true)]))
           (set_CpuVacant 15 (Examples.container 1 "/" None [1] Meta true))
           OK 3 0
           (snd (ReserveCpus 0 2 0
                   (set_CoreThreads [3%N; 3%N; 12%N; 12%N]
                      (Examples.world
                         [set_CpuVacant 15
                            (Examples.container 1 "/" None [1] Meta true)]))))).
  - reflexivity.
  - reflexivity.
  - vm_compute. reflexivity.
  - reflexivity.
  - vm_compute. reflexivity.
Defined.

(** *** Controllers *)

Import Properties.

(** Property X27.  When [EnableControllers] succeeds the container has every controller that
    was asked for, and has lost none; when it fails nothing has changed. *)
Theorem EnableControllers_enables x controllers w c e w' :
  cts w !! x = Some c ->
  EnableControllers x controllers w = (e, w') ->
  (failed e = false ->
   exists c', cts w' !! x = Some c' /\
     N.land (Controllers c') controllers = controllers /\
     N.land (Controllers c') (Controllers c) = Controllers c) /\
  (failed e = true -> w' = w /\ Error e = NotSupported).
Proof.
  intros Hx H. unfold EnableControllers, bind, get_ct, gets, modify, change, ret in H.
  rewrite Hx in H. destruct (state_eqb (State c) Stopped).
  - inversion H. subst. split; [|discriminate]. intros _.
    eexists. split.
    + cbn [cts set_cts]. unfold update. by rewrite list_lookup_alter_eq, Hx.
    + cbn. split; apply N.bits_inj; intros j;
        rewrite ?N.land_spec, ?N.lor_spec;
        by destruct (N.testbit (Controllers c) j), (N.testbit controllers j).
  - destruct (negb _) eqn:En; inversion H; subst.
    + split; [discriminate|]. by intros _.
    + split; [|discriminate]. intros _. exists c. split; [done|].
      apply negb_false_iff, N.eqb_eq in En. split; [done|].
      apply N.land_diag.
Qed.

Lemma EnableControllers_enables_witness :
  (failed (fst (EnableControllers 1 64 Examples.prop_world)) = false ->
   exists c', cts (snd (EnableControllers 1 64 Examples.prop_world)) !! 1 = Some c' /\
     N.land (Controllers c') 64 = 64%N /\
     N.land (Controllers c')
       (Controllers (set_Private "old"
          (Examples.container 2 "a" (Some 0) [] Running false))) =
     Controllers (set_Private "old"
       (Examples.container 2 "a" (Some 0) [] Running false))) /\
  (failed (fst (EnableControllers 1 64 Examples.prop_world)) = true ->
   snd (EnableControllers 1 64 Examples.prop_world) = Examples.prop_world /\
   Error (fst (EnableControllers 1 64 Examples.prop_world)) = NotSupported).
Proof.
  apply (EnableControllers_enables 1 64 Examples.prop_world
           (set_Private "old" (Examples.container 2 "a" (Some 0) [] Running false))).
  - reflexivity.
  - reflexivity.
Defined.

End ReserveFacts.

(** ** What a computation leaves alone *)

Module FrameFacts.

Import StateMachine Lifecycle Outcome HeapFacts StateMachineFacts.

Local Open Scope list_scope.

Lemma state_eqb_eq a b : state_eqb a b = true <-> a = b.
Proof. destruct a, b; simpl; split; congruence. Qed.

Lemma bind_run {A B} (m : M A) (k : A -> M B) w :
  bind m k w = k (fst (m w)) (snd (m w)).
Proof. unfold bind. by destruct (m w). Qed.

Lemma gets_fst {A} (f : World -> A) w : fst (gets f w) = f w.
Proof. done. Qed.

Lemma gets_snd {A} (f : World -> A) w : snd (gets f w) = w.
Proof. done. Qed.

(** Stepping through a computation: [fwd] names the world after the first
    step, [run] names its result and its world. *)
Ltac fwd w1 :=
  match goal with
  | |- context [bind ?m ?k ?w] =>
    rewrite (bind_run m k w); set (w1 := snd (m w)); cbv beta
  end.

Ltac run a w1 E :=
  match goal with
  | |- context [bind ?m ?k ?w] =>
    rewrite (bind_run m k w); destruct (m w) as [a w1] eqn:E; cbn [fst snd]
  end.

(** A field that the updates leave alone. *)
Lemma fmap_update {B} (P : TContainer -> B) x f (h : heap) :
  (forall c, P (f c) = P c) -> P <$> update x f h = P <$> h.
Proof.
  intros Hf. apply list_eq. intros i. unfold update.
  rewrite !list_lookup_fmap.
  destruct (decide (x = i)) as [->|Hne].
  - rewrite list_lookup_alter_eq. destruct (h !! i); simpl; by rewrite ?Hf.
  - by rewrite list_lookup_alter_ne.
Qed.

(** *** Computations that keep a view *)

Section Kept.

Context {V : Type} (view : World -> V).

Lemma kept_ret {A} (a : A) : kept view (ret a).
Proof. by intros w. Qed.

Lemma kept_gets {A} (f : World -> A) : kept view (gets f).
Proof. by intros w. Qed.

Lemma kept_bind {A B} (m : M A) (k : A -> M B) :
  kept view m -> (forall a, kept view (k a)) -> kept view (bind m k).
Proof. intros Hm Hk w. rewrite bind_run, Hk. apply Hm. Qed.

Lemma kept_if {A} (b : bool) (m1 m2 : M A) :
  kept view m1 -> kept view m2 -> kept view (if b then m1 else m2).
Proof. by destruct b. Qed.

Lemma kept_change f : (forall w, view (f w) = view w) -> kept view (change f).
Proof. intros H w. apply H. Qed.

Lemma kept_emit e :
  (forall t w, view (set_trace t w) = view w) -> kept view (emit e).
Proof. intros H w. apply H. Qed.

Lemma kept_call e :
  (forall t w, view (set_trace t w) = view w) -> kept view (call e).
Proof. intros H w. apply H. Qed.

Lemma kept_query e :
  (forall t w, view (set_trace t w) = view w) -> kept view (query e).
Proof. intros H w. apply H. Qed.

Lemma kept_modify x f :
  (forall w, view (set_cts (update x f (cts w)) w) = view w) ->
  kept view (modify x f).
Proof. intros H w. apply H. Qed.

Lemma kept_for_each {A} (l : list A) (body : A -> M unit) :
  (forall a, kept view (body a)) -> kept view (for_each l body).
Proof.
  intros Hb. induction l as [|a l IH]; [apply kept_ret|].
  cbn [for_each]. by apply kept_bind.
Qed.

Lemma kept_for_each_err {A} (l : list A) (body : A -> M TError) :
  (forall a, kept view (body a)) -> kept view (for_each_err l body).
Proof.
  intros Hb. induction l as [|a l IH]; [apply kept_ret|].
  cbn [for_each_err]. apply kept_bind; [done|]. intros e.
  apply kept_if; [apply kept_ret|done].
Qed.

Lemma kept_returned (m : M TError) : kept view m -> kept view (returned m).
Proof. intros H. apply kept_bind; [done|]. intros e. apply kept_ret. Qed.

Lemma kept_steps (l : list (M Cpu.Outcome)) :
  Forall (kept view) l -> kept view (steps l).
Proof.
  induction 1 as [|m l Hm Hl IH]; [apply kept_ret|].
  cbn [steps]. apply kept_bind; [done|]. intros [e|]; [|apply kept_ret].
  apply kept_if; [apply kept_ret|done].
Qed.

End Kept.

(** The three views and the updates of containers. *)
Lemma shape_modify x f w :
  (forall c, skeleton (f c) = skeleton c) ->
  shape (set_cts (update x f (cts w)) w) = shape w.
Proof. intros H. unfold shape. cbn. by apply fmap_update. Qed.

Lemma tree_modify x f w :
  (forall c, links (f c) = links c) ->
  tree (set_cts (update x f (cts w)) w) = tree w.
Proof. intros H. unfold tree. cbn. by apply fmap_update. Qed.

Lemma rest_modify x f w :
  (forall c, apart (f c) = apart c) ->
  rest (set_cts (update x f (cts w)) w) = rest w.
Proof. intros H. unfold rest. cbn. by rewrite fmap_update. Qed.

Lemma clearbit_setbit s i : N.clearbit (N.setbit s i) i = N.clearbit s i.
Proof.
  apply N.bits_inj. intros j. rewrite !N.clearbit_eqb, N.setbit_eqb.
  destruct (N.eqb i j); [|done]. by rewrite !andb_false_r.
Qed.

Lemma apart_SetProp c :
  apart (SetProp P_CPU_SET_AFFINITY c) = apart c.
Proof. unfold apart, SetProp. setters. by rewrite clearbit_setbit. Qed.

Lemma apart_SetProp_affinity v c :
  apart (SetProp P_CPU_SET_AFFINITY (set_CpuAffinity v c)) = apart c.
Proof. by rewrite apart_SetProp. Qed.

(** What is outside [apart] is outside the skeleton, and the views agree. *)
Lemma rest_shape w w' : rest w' = rest w -> shape w' = shape w.
Proof.
  unfold rest, shape. intros H. apply (f_equal fst) in H. cbn in H.
  apply (f_equal (fmap skeleton)) in H.
  by rewrite <- !list_fmap_compose in H.
Qed.

Lemma shape_tree w w' : shape w' = shape w -> tree w' = tree w.
Proof.
  unfold shape, tree. intros H.
  apply (f_equal (fmap (fun t : Z * EContainerState * option ptr * list ptr =>
                          (fst (fst (fst t)), snd (fst t), snd t)))) in H.
  by rewrite <- !list_fmap_compose in H.
Qed.

Lemma shape_State w w' : shape w' = shape w -> State <$> cts w' = State <$> cts w.
Proof.
  unfold shape. intros H.
  apply (f_equal (fmap (fun t : Z * EContainerState * option ptr * list ptr =>
                          snd (fst (fst t))))) in H.
  by rewrite <- !list_fmap_compose in H.
Qed.

Lemma kept_rest_shape {A} (m : M A) : kept rest m -> still m.
Proof. intros H w. apply rest_shape, H. Qed.

Lemma kept_shape_tree {A} (m : M A) : still m -> kept tree m.
Proof. intros H w. apply shape_tree, H. Qed.

(** One step of a proof that a view is kept. *)
Ltac kept_leaf :=
  first
    [ by intros
    | intros; apply rest_modify; intros;
      first [ reflexivity | apply apart_SetProp | apply apart_SetProp_affinity ]
    | intros; apply shape_modify; by intros
    | intros; apply tree_modify; by intros ].

Ltac kept_step :=
  first
    [ apply kept_ret | apply kept_gets
    | apply kept_emit; kept_leaf | apply kept_call; kept_leaf
    | apply kept_query; kept_leaf
    | apply kept_modify; kept_leaf
    | apply kept_change; kept_leaf
    | apply kept_returned
    | apply kept_bind; [|intros ?]
    | match goal with
      | |- kept _ (match ?o with _ => _ end) => destruct o
      end ].

(** *** CPU distribution *)

Section Cpu.

Context {V : Type} (view : World -> V).

(** The view shows nothing of what the distribution of CPUs writes. *)
Hypothesis view_trace : forall t w, view (set_trace t w) = view w.
Hypothesis view_cpu : forall x f w,
  (forall c, apart (f c) = apart c) ->
  view (set_cts (update x f (cts w)) w) = view w.
Hypothesis view_CoreThreads : forall a w, view (set_CoreThreads a w) = view w.
Hypothesis view_NumaNodes : forall a w, view (set_NumaNodes a w) = view w.
Hypothesis view_NodeThreads : forall a w, view (set_NodeThreads a w) = view w.

Ltac cpu_leaf :=
  first
    [ apply view_trace
    | intros; apply view_cpu; intros;
      first [ reflexivity | apply apart_SetProp | apply apart_SetProp_affinity ]
    | intros; apply view_CoreThreads ].

Ltac cpu_step :=
  first
    [ apply kept_ret | apply kept_gets
    | apply kept_emit; cpu_leaf | apply kept_call; cpu_leaf
    | apply kept_query; cpu_leaf
    | apply kept_modify; cpu_leaf
    | apply kept_bind; [|intros ?]
    | match goal with
      | |- kept _ (match ?o with _ => _ end) => destruct o
      end ].

Lemma kept_ReserveCpus parent nthreads ncores :
  kept view (Cpu.ReserveCpus parent nthreads ncores).
Proof.
  intros w. unfold Cpu.ReserveCpus. destruct (cts w !! parent); [|done].
  destruct (_ || _); cbn [snd]; by apply view_cpu.
Qed.

Lemma kept_read_cpus path : kept view (Cpu.read_cpus path).
Proof. intros w. apply view_trace. Qed.

Lemma kept_read_each mask path store l :
  (forall i v w, view (store i v w) = view w) ->
  kept view (Cpu.read_each mask path store l).
Proof.
  intros Hs. induction l as [|i l IH]; cbn [Cpu.read_each]; [apply kept_ret|].
  destruct (negb _); [done|].
  apply kept_bind; [apply kept_read_cpus|]. intros r.
  apply kept_if; [apply kept_ret|].
  apply kept_bind; [|by intros]. apply kept_change. intros w. apply Hs.
Qed.

Lemma kept_read_topology this : kept view (Cpu.read_topology this).
Proof.
  unfold Cpu.read_topology.
  apply kept_bind; [apply kept_read_cpus|]. intros r.
  apply kept_if; [apply kept_ret|]. cbv zeta.
  apply kept_bind; [apply kept_modify; cpu_leaf|]. intros _.
  apply kept_bind; [apply kept_change; intros; apply view_CoreThreads|]. intros _.
  apply kept_bind.
  { apply kept_read_each. intros; apply view_CoreThreads. }
  intros e. apply kept_if; [apply kept_ret|].
  apply kept_bind; [apply kept_read_cpus|]. intros r'.
  apply kept_if; [apply kept_ret|].
  apply kept_bind.
  { apply kept_change. intros w. by rewrite view_NodeThreads, view_NumaNodes. }
  intros _. apply kept_read_each. intros; apply view_NodeThreads.
Qed.

Lemma kept_choose_affinity parent ct type p c :
  kept view (Cpu.choose_affinity parent ct type p c).
Proof.
  unfold Cpu.choose_affinity. destruct type;
    repeat first [apply kept_ReserveCpus | cpu_step].
Qed.

Lemma kept_place_child parent type ct vg :
  kept view (Cpu.place_child parent type ct vg).
Proof.
  unfold Cpu.place_child.
  repeat first [apply kept_choose_affinity | cpu_step].
Qed.

Lemma kept_place_children parent l : forall vg,
  kept view (Cpu.place_children parent l vg).
Proof.
  induction l as [|[type ct] l IH]; intros vg; cbn [Cpu.place_children];
    [apply kept_ret|].
  apply kept_bind; [apply kept_place_child|]. intros r.
  apply kept_if; [apply kept_ret|apply IH].
Qed.

Variable CPU_POWER_PER_SEC : Z.

Lemma kept_check_guarantee this parent vg :
  kept view (Cpu.check_guarantee CPU_POWER_PER_SEC this parent vg).
Proof. unfold Cpu.check_guarantee. repeat cpu_step. Qed.

Lemma kept_distribute_parent this parent :
  kept view (Cpu.distribute_parent CPU_POWER_PER_SEC this parent).
Proof.
  unfold Cpu.distribute_parent.
  repeat first [apply kept_place_children | apply kept_check_guarantee | cpu_step].
Qed.

Lemma kept_distribute_parents this l :
  kept view (Cpu.distribute_parents CPU_POWER_PER_SEC this l).
Proof.
  induction l as [|parent l IH]; cbn [Cpu.distribute_parents]; [apply kept_ret|].
  apply kept_bind; [apply kept_distribute_parent|].
  intros [out|]; [apply kept_ret|apply IH].
Qed.

Lemma kept_write_widest this affinity ct :
  kept view (Cpu.write_widest this affinity ct).
Proof. unfold Cpu.write_widest. repeat cpu_step. Qed.

Lemma kept_write_narrowest this ct : kept view (Cpu.write_narrowest this ct).
Proof. unfold Cpu.write_narrowest. repeat cpu_step. Qed.

Lemma kept_DistributeCpus this :
  kept view (Cpu.DistributeCpus CPU_POWER_PER_SEC this).
Proof.
  unfold Cpu.DistributeCpus.
  apply kept_bind; [apply kept_gets|]. intros [c|]; [|apply kept_ret].
  apply kept_bind; [apply kept_if; [apply kept_read_topology|apply kept_ret]|].
  intros e. apply kept_if; [apply kept_ret|].
  apply kept_bind; [apply kept_modify; cpu_leaf|]. intros _.
  apply kept_bind; [apply kept_gets|]. intros subtree.
  apply kept_bind; [apply kept_distribute_parents|].
  intros [out|]; [apply kept_ret|].
  apply kept_bind; [apply kept_gets|]. intros affinity.
  apply kept_bind; [apply kept_for_each_err, kept_write_widest|]. intros e1.
  apply kept_if; [apply kept_ret|].
  apply kept_bind; [apply kept_for_each_err, kept_write_narrowest|]. intros e2.
  apply kept_ret.
Qed.

Lemma kept_add_guarantee x child : kept view (Cpu.add_guarantee x child).
Proof. unfold Cpu.add_guarantee. repeat cpu_step. Qed.

Lemma kept_ApplyCpuGuarantee x : kept view (Cpu.ApplyCpuGuarantee x).
Proof.
  unfold Cpu.ApplyCpuGuarantee.
  apply kept_bind; [apply kept_gets|]. intros propagate.
  apply kept_bind.
  { apply kept_if; [|apply kept_ret].
    apply kept_bind; [apply kept_modify; cpu_leaf|]. intros _.
    apply kept_bind; [apply kept_gets|]. intros childs.
    apply kept_for_each, kept_add_guarantee. }
  intros _. repeat cpu_step.
Qed.

Lemma kept_FreeRuntimeResources x :
  kept view (FreeRuntimeResources CPU_POWER_PER_SEC x).
Proof.
  unfold FreeRuntimeResources.
  apply kept_bind; [apply kept_emit; cpu_leaf|]. intros _.
  apply kept_bind; [apply kept_call; cpu_leaf|]. intros e.
  apply kept_bind; [apply kept_if; [apply kept_emit; cpu_leaf|apply kept_ret]|].
  intros _. apply kept_bind; [apply kept_gets|]. intros [c|]; [|apply kept_ret].
  apply kept_bind.
  { destruct (Parent c); [|apply kept_ret].
    apply kept_if; [apply kept_DistributeCpus|apply kept_ret]. }
  intros [e'|]; [|apply kept_ret].
  apply kept_bind; [apply kept_if; [apply kept_emit; cpu_leaf|apply kept_ret]|].
  intros _. apply kept_bind; [apply kept_emit; cpu_leaf|]. intros _.
  apply kept_bind; [apply kept_gets|]. intros propagate.
  apply kept_bind; [|intros _; apply kept_ret].
  apply kept_if; [|apply kept_ret].
  apply kept_bind; [apply kept_gets|]. intros up.
  apply kept_for_each. intros p.
  apply kept_bind; [apply kept_ApplyCpuGuarantee|]. intros _. apply kept_ret.
Qed.

Lemma kept_FreeResources x : kept view (FreeResources CPU_POWER_PER_SEC x).
Proof.
  unfold FreeResources.
  apply kept_bind; [apply kept_FreeRuntimeResources|].
  intros [|]; [|apply kept_ret].
  apply kept_bind; [apply kept_emit; cpu_leaf|]. intros _.
  apply kept_bind; [apply kept_gets|]. intros [c|]; [|apply kept_ret].
  apply kept_if; [apply kept_ret|].
  apply kept_bind; [apply kept_gets|]. intros hierarchies.
  apply kept_bind.
  { apply kept_for_each. intros hy.
    apply kept_if; [apply kept_emit; cpu_leaf|apply kept_ret]. }
  intros _. repeat cpu_step.
Qed.

(** Pushing the dirty properties to the kernel clears dirty marks and
    distributes CPUs and CPU guarantees. *)
Lemma kept_test_dirty x p : kept view (test_dirty x p).
Proof. apply kept_gets. Qed.

Lemma kept_test_clear x p : kept view (test_clear x p).
Proof.
  unfold test_clear.
  apply kept_bind; [apply kept_test_dirty|]. intros dirty.
  apply kept_bind; [apply kept_modify; cpu_leaf|]. intros _. apply kept_ret.
Qed.

Lemma kept_push e quiet text : kept view (push e quiet text).
Proof. unfold push. repeat cpu_step. Qed.

Lemma kept_push_dirty x p e quiet text :
  kept view (push_dirty x p e quiet text).
Proof.
  unfold push_dirty.
  apply kept_bind; [apply kept_test_clear|]. intros dirty.
  apply kept_if; [|apply kept_ret]. apply kept_returned, kept_push.
Qed.

Lemma kept_apply_guarantees propagate l :
  kept view (apply_guarantees propagate l).
Proof.
  induction l as [|ct l IH]; cbn [apply_guarantees]; [apply kept_ret|].
  apply kept_bind; [apply kept_ApplyCpuGuarantee|]. intros e.
  apply kept_if; [apply kept_ret|]. apply kept_if; [apply kept_ret|apply IH].
Qed.

Lemma kept_apply_ulimit_node ct : kept view (apply_ulimit_node ct).
Proof.
  unfold apply_ulimit_node.
  apply kept_bind; [apply kept_gets|]. intros [c|]; [|apply kept_ret].
  apply kept_if; [apply kept_ret|apply kept_push].
Qed.

Ltac push_step :=
  first
    [ match goal with
      | |- kept _ (bind _ _) => apply kept_bind; [|intros ?]
      end
    | apply kept_test_dirty | apply kept_test_clear | apply kept_push
    | apply kept_DistributeCpus
    | apply kept_apply_guarantees
    | apply kept_for_each_err; intros ?; apply kept_apply_ulimit_node
    | apply kept_returned
    | cpu_step ].

Lemma kept_ApplyDynamicProperties x :
  kept view (ApplyDynamicProperties CPU_POWER_PER_SEC x).
Proof.
  unfold ApplyDynamicProperties. apply kept_steps.
  repeat (apply Forall_cons; split); [..|by apply Forall_nil];
    try apply kept_push_dirty.
  - unfold apply_mem_limit. repeat push_step.
  - unfold apply_io_limit. repeat push_step.
  - unfold apply_io_limit. repeat push_step.
  - unfold apply_io_weight. repeat push_step.
  - unfold apply_hugetlb. repeat push_step.
  - unfold apply_cpu_guarantee. repeat push_step.
  - unfold propagate_cpu_limit. repeat push_step.
  - unfold apply_cpu_limit. repeat push_step.
  - unfold apply_sched_policy. repeat push_step.
  - unfold apply_cpu_set. repeat push_step.
  - unfold apply_net. repeat push_step.
  - unfold apply_ulimit. repeat push_step.
Qed.

End Cpu.

(** The distribution of CPUs, the CPU guarantees and the release of
    resources write the CPU fields of containers, and nothing else of the
    containers or of the key-value store. *)
Section Rest.

Variable CPU_POWER_PER_SEC : Z.

Lemma rest_trace t w : rest (set_trace t w) = rest w.
Proof. done. Qed.


Lemma rest_DistributeCpus this :
  kept rest (Cpu.DistributeCpus CPU_POWER_PER_SEC this).
Proof.
  apply kept_DistributeCpus;
    [apply rest_trace | intros; by apply rest_modify | done | done | done].
Qed.

Lemma rest_ApplyCpuGuarantee x : kept rest (Cpu.ApplyCpuGuarantee x).
Proof.
  apply kept_ApplyCpuGuarantee; [apply rest_trace | intros; by apply rest_modify].
Qed.

Lemma rest_FreeRuntimeResources x :
  kept rest (FreeRuntimeResources CPU_POWER_PER_SEC x).
Proof.
  apply kept_FreeRuntimeResources;
    [apply rest_trace | intros; by apply rest_modify | done | done | done].
Qed.

Lemma rest_FreeResources x : kept rest (FreeResources CPU_POWER_PER_SEC x).
Proof.
  apply kept_FreeResources;
    [apply rest_trace | intros; by apply rest_modify | done | done | done].
Qed.

Lemma rest_push e quiet text : kept rest (push e quiet text).
Proof.
  apply kept_push. apply rest_trace.
Qed.

Lemma rest_ApplyDynamicProperties x :
  kept rest (ApplyDynamicProperties CPU_POWER_PER_SEC x).
Proof.
  apply kept_ApplyDynamicProperties;
    [apply rest_trace | intros; by apply rest_modify | done | done | done].
Qed.

End Rest.

End FrameFacts.

(** ** Stopping, pausing, resuming, starting *)

Module LifecycleFacts.

Import StateMachine Lifecycle Outcome HeapFacts FrameFacts.

(** *** What a computation leaves alone *)

Lemma stable_refl id0 w : stable id0 w w.
Proof. by split. Qed.

Lemma stable_trans id0 w1 w2 w3 :
  stable id0 w1 w2 -> stable id0 w2 w3 -> stable id0 w1 w3.
Proof.
  intros [H1 K1] [H2 K2]. split; [congruence|].
  intros id Hid. rewrite K2, K1; auto.
Qed.

Lemma stable_id id0 x w w' :
  stable id0 w w' -> Id <$> cts w !! x = Some id0 -> Id <$> cts w' !! x = Some id0.
Proof.
  intros [H _] Hx. by rewrite <- !list_lookup_fmap, H, list_lookup_fmap.
Qed.

Lemma map_Id_update x f (h : list TContainer) :
  (forall c, Id (f c) = Id c) -> Id <$> update x f h = Id <$> h.
Proof.
  intros Hf. apply list_eq. intros i. unfold update.
  rewrite !list_lookup_fmap.
  destruct (decide (x = i)) as [->|Hne].
  - rewrite list_lookup_alter_eq. destruct (h !! i); simpl; by rewrite ?Hf.
  - by rewrite list_lookup_alter_ne.
Qed.

Section Keeps.

Variable CPU_POWER_PER_SEC : Z.
Variable id0 : Z.
Variable x : ptr.

Lemma keeps_ret {A} (a : A) : keeps id0 x (ret a).
Proof. intros w _. apply stable_refl. Qed.

Lemma keeps_bind {A B} (m : M A) (k : A -> M B) :
  keeps id0 x m -> (forall a, keeps id0 x (k a)) -> keeps id0 x (bind m k).
Proof.
  intros Hm Hk w Hw. unfold bind. specialize (Hm w Hw).
  destruct (m w) as [a w1]. simpl in Hm.
  eapply stable_trans; [exact Hm|]. apply Hk. by eapply stable_id.
Qed.

Lemma keeps_gets {A} (f : World -> A) : keeps id0 x (gets f).
Proof. intros w _. apply stable_refl. Qed.

Lemma keeps_emit e : keeps id0 x (emit e).
Proof. intros w _. by split. Qed.

Lemma keeps_call e : keeps id0 x (call e).
Proof. intros w _. by split. Qed.

Lemma keeps_query e : keeps id0 x (query e).
Proof. intros w _. by split. Qed.

Lemma keeps_get_ct y : keeps id0 x (get_ct y).
Proof. apply keeps_gets. Qed.

Lemma keeps_modify y f :
  (forall c, Id (f c) = Id c) -> keeps id0 x (modify y f).
Proof. intros Hf w _. split; [by apply map_Id_update|done]. Qed.

Lemma keeps_for_each {A} (l : list A) (body : A -> M unit) :
  (forall a, keeps id0 x (body a)) -> keeps id0 x (for_each l body).
Proof.
  intros Hb. induction l as [|a l IH]; simpl; [apply keeps_ret|].
  apply keeps_bind; auto.
Qed.

Lemma keeps_if {A} (b : bool) (m1 m2 : M A) :
  keeps id0 x m1 -> keeps id0 x m2 -> keeps id0 x (if b then m1 else m2).
Proof. by destruct b. Qed.

Lemma keeps_SetState y s : keeps id0 x (SetState y s).
Proof.
  unfold SetState. apply keeps_bind; [apply keeps_get_ct|].
  intros [c|]; [|apply keeps_ret].
  apply keeps_if; [apply keeps_ret|].
  apply keeps_bind; [by apply keeps_modify|]. intros _.
  apply keeps_bind; [apply keeps_gets|]. intros up.
  repeat (apply keeps_bind; [|intros _]); repeat apply keeps_if;
    try apply keeps_ret; try apply keeps_emit.
  - apply keeps_for_each. intros a. by apply keeps_modify.
  - apply keeps_for_each. intros a. unfold count_running.
    apply keeps_bind; [by apply keeps_modify|]. intros _.
    apply keeps_bind; [apply keeps_get_ct|].
    intros [d|]; [|apply keeps_ret].
    apply keeps_if; [apply keeps_emit|apply keeps_ret].
Qed.

(** [Save] called on [x] itself writes under [id0] only. *)
Lemma keeps_Save : keeps id0 x (Save x).
Proof.
  intros w Hw. unfold Save, bind, get_ct, call. simpl.
  destruct (cts w !! x) as [c|] eqn:Ex; [|apply stable_refl].
  simpl in Hw. inversion Hw as [Hid].
  destruct (failed _); simpl; split; try done.
  intros id Hne. apply lookup_insert_ne. congruence.
Qed.

Lemma keeps_IsSelfFreezing y : keeps id0 x (IsSelfFreezing y).
Proof. apply keeps_gets. Qed.

Lemma keeps_IsParentFreezing y : keeps id0 x (IsParentFreezing y).
Proof. apply keeps_gets. Qed.

Lemma keeps_FreezerThaw y b : keeps id0 x (FreezerThaw y b).
Proof.
  unfold FreezerThaw. apply keeps_bind; [apply keeps_call|]. intros e.
  apply keeps_if; [apply keeps_ret|].
  apply keeps_bind; [|intros _; apply keeps_ret]. intros w _. by split.
Qed.

Lemma forget_Id c : Id (forget c) = Id c.
Proof. reflexivity. Qed.

Lemma keeps_stop_tasks deadline y : keeps id0 x (stop_tasks deadline y).
Proof.
  unfold stop_tasks. apply keeps_bind; [apply keeps_get_ct|].
  intros [c|]; [|apply keeps_ret].
  apply keeps_if; [apply keeps_ret|].
  apply keeps_bind; [apply keeps_SetState|]. intros _.
  apply keeps_bind; [apply keeps_call|]. intros e.
  apply keeps_bind; [apply keeps_if; [apply keeps_emit|apply keeps_ret]|]. intros _.
  apply keeps_bind; [apply keeps_IsSelfFreezing|]. intros b.
  apply keeps_if; [|apply keeps_ret].
  apply keeps_bind; [apply keeps_FreezerThaw|]. intros e'.
  apply keeps_if; [apply keeps_emit|apply keeps_ret].
Qed.

(** What leaves the containers apart from their CPU fields, and the
    key-value store, as they were, leaves the ids and the records. *)
Lemma keeps_rest {A} (m : M A) : kept rest m -> keeps id0 x m.
Proof.
  intros H w _. specialize (H w). unfold rest in H.
  injection H as Hc Hk. split.
  - apply (f_equal (fmap Id)) in Hc. by rewrite <- !list_fmap_compose in Hc.
  - intros id _. by rewrite Hk.
Qed.

Lemma keeps_FreeResources y : keeps id0 x (FreeResources CPU_POWER_PER_SEC y).
Proof. apply keeps_rest, rest_FreeResources. Qed.

Lemma keeps_stop_nodes l : keeps id0 x (stop_nodes CPU_POWER_PER_SEC x l).
Proof.
  induction l as [|y l IH]; simpl; [apply keeps_ret|].
  apply keeps_bind; [apply keeps_get_ct|].
  intros [c|]; [|exact IH].
  apply keeps_if; [exact IH|].
  apply keeps_bind; [by apply keeps_modify|]. intros _.
  apply keeps_bind; [apply keeps_FreeResources|]. intros [|]; [|apply keeps_ret].
  apply keeps_bind; [apply keeps_SetState|]. intros _.
  apply keeps_bind; [apply keeps_Save|]. intros e.
  apply keeps_if; [apply keeps_ret|exact IH].
Qed.

Lemma keeps_kill_wait_task y : keeps id0 x (kill_wait_task y).
Proof.
  unfold kill_wait_task. apply keeps_bind; [apply keeps_get_ct|].
  intros [c|]; [|apply keeps_ret].
  apply keeps_if; [|apply keeps_ret].
  apply keeps_bind; [apply keeps_call|]. intros _. apply keeps_ret.
Qed.

Lemma keeps_Stop timeout : keeps id0 x (Stop CPU_POWER_PER_SEC x timeout).
Proof.
  unfold Stop. apply keeps_bind; [apply keeps_gets|]. intros time. cbv zeta.
  apply keeps_bind; [apply keeps_get_ct|].
  intros [c|]; [|apply keeps_ret].
  apply keeps_if; [apply keeps_ret|].
  apply keeps_bind;
    [apply keeps_if; [apply keeps_IsParentFreezing|apply keeps_ret]|].
  intros pf.
  apply keeps_if; [apply keeps_ret|].
  apply keeps_if; [apply keeps_ret|].
  apply keeps_bind; [apply keeps_gets|]. intros subtree.
  apply keeps_bind; [apply keeps_if; [apply keeps_emit|apply keeps_ret]|]. intros _.
  apply keeps_bind.
  { apply keeps_if; [|apply keeps_ret]. apply keeps_for_each.
    apply keeps_kill_wait_task. }
  intros _.
  apply keeps_bind; [apply keeps_for_each, keeps_stop_tasks|]. intros _.
  apply keeps_bind; [apply keeps_if; [apply keeps_emit|apply keeps_ret]|]. intros _.
  apply keeps_stop_nodes.
Qed.

End Keeps.

(** *** Stop *)

(** Property X21.  Whatever the subtree, [Stop] called on [x] writes no record but the one
    of [x]: the record of a descendant that it stops stays as it was. *)
Theorem Stop_writes_only_own_record CPU_POWER_PER_SEC x timeout w c id :
  cts w !! x = Some c -> id <> Id c ->
  kvs (snd (Stop CPU_POWER_PER_SEC x timeout w)) !! id = kvs w !! id.
Proof.
  intros Hx Hid.
  destruct (keeps_Stop CPU_POWER_PER_SEC (Id c) x timeout w) as [_ H];
    [by rewrite Hx|].
  by apply H.
Qed.

(** Claim C3 fails on the code.  ["a"] and its child ["a/b"] run; [Stop(0)]
    on ["a"] stops both, but the record of ["a/b"] in the key-value store
    still says [Running]: the record of ["a"] was written twice and that of
    ["a/b"] never. *)
Theorem Stop_leaves_child_record_stale :
  fst (Stop Examples.CPU_POWER_PER_SEC 1 0 Examples.stop_world) = Cpu.Returned OK /\
  (State <$> cts (snd (Stop Examples.CPU_POWER_PER_SEC 1 0 Examples.stop_world)) !! 2)
    = Some Stopped /\
  (State <$> kvs (snd (Stop Examples.CPU_POWER_PER_SEC 1 0 Examples.stop_world)) !! 3%Z)
    = Some Running /\
  List.filter Examples.is_save
    (trace (snd (Stop Examples.CPU_POWER_PER_SEC 1 0 Examples.stop_world))) =
    [KvSave 2; KvSave 2].
Proof. repeat split; vm_compute; reflexivity. Qed.

(** *** Pause and Resume *)

(** Property X24.  On a container that has the freezer controller (every container has it
    from its constructor on) and is not paused, [Resume] returns
    [InvalidState] and changes nothing. *)
Lemma Resume_not_paused x w c :
  cts w !! x = Some c ->
  Cpu.has_controller c Cpu.CGROUP_FREEZER = true ->
  inb x (frozen w) = false ->
  Error (fst (Resume x w)) = InvalidState /\ snd (Resume x w) = w.
Proof.
  intros Hx Hc Hf.
  unfold Resume, bind, get_ct, gets, IsParentFreezing, IsSelfFreezing, ret.
  rewrite Hx, Hc. simpl.
  destruct (existsb _ _); simpl; [done|].
  by rewrite Hf.
Qed.

(** Claim C4 fails on the code.  ["a"] is a meta container and its child
    ["a/b"] runs a task.  [Pause] on ["a"] moves both to [Paused]; [Resume]
    on ["a"] then moves ["a/b"] to [Meta], not back to [Running]: the state
    is chosen by [IsMeta()] of the container [Resume] was called on. *)
Theorem Resume_restores_by_callers_kind :
  fst (Pause 1 Examples.pause_world) = OK /\
  fst (Resume 1 (snd (Pause 1 Examples.pause_world))) = OK /\
  (State <$> cts Examples.pause_world !! 2) = Some Running /\
  (State <$> cts (snd (Pause 1 Examples.pause_world)) !! 2) = Some Paused /\
  (State <$> cts (snd (Resume 1 (snd (Pause 1 Examples.pause_world)))) !! 2)
    = Some Meta.
Proof. repeat split; reflexivity. Qed.

(** *** Start *)

Section StartFacts.

Variable CPU_POWER_PER_SEC : Z.
Variable format_error : TError -> string.



End StartFacts.


End LifecycleFacts.

(** ** Setting a property *)

Module PropertiesFacts.

Import Properties FrameFacts.

Section RegistryFacts.

Variable CPU_POWER_PER_SEC : Z.
Variable ContainerProperties : string -> option TProperty.
Variable StringTrim : string -> string.
Variable HasResources : TContainer -> bool.

(** Claim C10.  [SetProperty] on the root container returns [Permission],
    whatever the property and the value, and leaves the world as it was. *)
Theorem SetProperty_root_is_read_only x w c property value :
  cts w !! x = Some c -> IsRoot c = true ->
  SetProperty CPU_POWER_PER_SEC ContainerProperties StringTrim HasResources
    x property value w =
    (Cpu.Returned (TError_ Permission "System containers are read only"), w).
Proof.
  intros Hx Hroot. unfold SetProperty, bind, get_ct, gets, ret.
  by rewrite Hx, Hroot.
Qed.




End RegistryFacts.



(** The root of the same world. *)
Lemma SetProperty_root_is_read_only_witness :
  SetProperty Examples.CPU_POWER_PER_SEC private_registry (fun s => s)
    Examples.live 0 "private" "new" Examples.prop_world =
  (Cpu.Returned (TError_ Permission "System containers are read only"),
   Examples.prop_world).
Proof.
  apply (SetProperty_root_is_read_only Examples.CPU_POWER_PER_SEC private_registry
           (fun s => s) Examples.live
           0 Examples.prop_world (Examples.container 1 "/" None [1] Meta true)).
  - reflexivity.
  - reflexivity.
Defined.

End PropertiesFacts.

(** ** States after pausing, stopping and reaping *)

Module OutcomeFacts.

Import StateMachine Lifecycle Outcome HeapFacts StateMachineFacts LockOpsFacts
  FrameFacts LifecycleFacts.

Local Open Scope list_scope.

Lemma fmap_foldl_update {B} (P : TContainer -> B) f (l : list ptr) : forall h : heap,
  (forall c, P (f c) = P c) ->
  P <$> foldl (fun h' a => update a f h') h l = P <$> h.
Proof.
  induction l as [|a l IH]; intros h Hf; simpl; [done|].
  by rewrite IH, fmap_update.
Qed.

Lemma fmap_SetState_heap {B} (P : TContainer -> B) h x next :
  (forall s c, P (set_State s c) = P c) ->
  (forall z c, P (set_StartingChildren z c) = P c) ->
  (forall z c, P (set_RunningChildren z c) = P c) ->
  P <$> SetState_heap h x next = P <$> h.
Proof.
  intros H1 H2 H3. unfold SetState_heap.
  destruct (h !! x) as [c|]; [|done].
  destruct (state_eqb (State c) next); [done|].
  destruct (_ || _), (_ || _);
    rewrite ?fmap_foldl_update, ?fmap_update; try done;
    intros; unfold run_count, count_starting; by rewrite ?H2, ?H3.
Qed.

(** [SetState] sets the state of the container it is called on, and the
    state of no other. *)
Lemma states_SetState_heap h x next :
  State <$> SetState_heap h x next = <[x := next]> (State <$> h).
Proof.
  unfold SetState_heap. destruct (h !! x) as [c|] eqn:Hx.
  2:{ rewrite list_insert_ge; [done|]. rewrite length_fmap.
      by apply lookup_ge_None. }
  destruct (state_eqb (State c) next) eqn:Es.
  { apply state_eqb_eq in Es. rewrite list_insert_id; [done|].
    by rewrite list_lookup_fmap, Hx, <- Es. }
  assert (State <$> update x (set_State next) h = <[x := next]> (State <$> h)) as H0.
  { apply list_eq. intros i. rewrite list_lookup_fmap, lookup_update.
    destruct (Nat.eqb i x) eqn:E.
    - apply Nat.eqb_eq in E. subst i. rewrite Hx. simpl.
      rewrite list_lookup_insert_eq; [done|]. rewrite length_fmap.
      by apply lookup_lt_Some in Hx.
    - apply Nat.eqb_neq in E. rewrite list_lookup_insert_ne by done.
      rewrite list_lookup_fmap. by destruct (h !! i). }
  destruct (_ || _), (_ || _); rewrite ?fmap_foldl_update; try done.
Qed.

Lemma states_SetState x next w :
  State <$> cts (snd (SetState x next w)) = <[x := next]> (State <$> cts w).
Proof. by rewrite cts_SetState, states_SetState_heap. Qed.

Lemma cts_Save x w : cts (snd (Save x w)) = cts w.
Proof.
  unfold Save, bind, get_ct, gets, call, change, ret.
  destruct (cts w !! x); [|done]. by destruct (failed _).
Qed.

Lemma cts_emit e w : cts (snd (emit e w)) = cts w.
Proof. done. Qed.

(** *** Pause *)

Lemma states_pause_node a w :
  State <$> cts (snd (pause_node a w)) =
  match cts w !! a with
  | Some c => if live (State c) then <[a := Paused]> (State <$> cts w)
              else State <$> cts w
  | None => State <$> cts w
  end.
Proof.
  unfold pause_node. rewrite bind_run. unfold get_ct at 1 2, gets at 1 2.
  cbn [fst snd]. destruct (cts w !! a) as [c|]; [|done].
  unfold live. destruct (_ || _); [|done].
  rewrite !bind_run, cts_if_emit, cts_Save, cts_emit.
  apply states_SetState.
Qed.

Lemma states_pause_nodes l : forall w y,
  (State <$> cts (snd (for_each l pause_node w))) !! y =
  (fun s => if inb y l && live s then Paused else s) <$> (State <$> cts w) !! y.
Proof.
  induction l as [|a l IH]; intros w y.
  - simpl. by destruct (_ !! y).
  - cbn [for_each]. rewrite bind_run, IH, states_pause_node.
    unfold inb. cbn [existsb]. fold (inb y l).
    destruct (Nat.eqb y a) eqn:E.
    + apply Nat.eqb_eq in E. subst y. destruct (cts w !! a) as [c|] eqn:Ha.
      * destruct (live (State c)) eqn:El.
        -- rewrite list_lookup_insert_eq
             by (rewrite length_fmap; by apply lookup_lt_Some in Ha).
           rewrite list_lookup_fmap, Ha. simpl. rewrite El.
           by rewrite andb_false_r.
        -- rewrite list_lookup_fmap, Ha. simpl. rewrite El.
           by rewrite !andb_false_r.
      * by rewrite list_lookup_fmap, Ha.
    + apply Nat.eqb_neq in E. cbn [orb].
      destruct (cts w !! a) as [c|]; [|done].
      destruct (live (State c)); [|done].
      by rewrite list_lookup_insert_ne.
Qed.

Lemma cts_FreezerFreeze x w : cts (snd (FreezerFreeze x w)) = cts w.
Proof.
  unfold FreezerFreeze. rewrite bind_run. unfold call at 1 2. cbn [fst snd].
  by destruct (failed _).
Qed.

(** Property X23.  When [Pause] succeeds, the containers of the subtree that were [Running]
    or [Meta] are [Paused], and every other container is in the state it was
    in. *)
Theorem Pause_pauses_subtree x w e w' y s :
  Pause x w = (e, w') -> failed e = false ->
  State <$> cts w !! y = Some s ->
  State <$> cts w' !! y =
    Some (if inb y (Subtree (cts w) x) && live s then Paused else s).
Proof.
  intros H Hf Hy. unfold Pause in H. rewrite bind_run in H.
  unfold get_ct, gets in H. cbn [fst snd] in H.
  destruct (cts w !! x) as [c|] eqn:Hx.
  - destruct (_ && _); [inversion H; subst; discriminate|].
    destruct (negb _); [inversion H; subst; discriminate|].
    rewrite bind_run in H.
    destruct (failed (fst (FreezerFreeze x w))) eqn:Ef;
      [unfold ret in H; inversion H; subst; congruence|].
    rewrite !bind_run in H. unfold ret in H. cbn [fst snd] in H.
    inversion H. subst e w'. clear H.
    rewrite <- list_lookup_fmap, states_pause_nodes, cts_FreezerFreeze.
    by rewrite list_lookup_fmap, Hy.
  - inversion H. subst e w'. rewrite Hy. f_equal.
    destruct (inb y (Subtree (cts w) x)) eqn:Ei; [|done].
    rewrite TreeFacts.Subtree_outside in Ei by done.
    apply inb_In in Ei. destruct Ei as [<-|[]]. by rewrite Hx in Hy.
Qed.

Lemma Pause_pauses_subtree_witness :
  State <$> cts (snd (Pause 1 Examples.pause_world)) !! 2 = Some Paused.
Proof.
  apply (Pause_pauses_subtree 1 Examples.pause_world OK
           (snd (Pause 1 Examples.pause_world)) 2 Running).
  - vm_compute. reflexivity.
  - reflexivity.
  - reflexivity.
Defined.

(** *** Reap *)

Section Reaping.

Variable CPU_POWER_PER_SEC : Z.

(** The heap that [Reap] leaves, apart from the CPU fields that the release
    of reserved CPUs writes. *)
Lemma apart_Reap x oomKilled w :
  apart <$> cts (snd (Reap CPU_POWER_PER_SEC x oomKilled w)) =
  apart <$>
  SetState_heap
    (update x ForgetPid
       (let h1 := update x (fun c => SetProp P_DEATH_TIME (set_DeathTime (now w) c))
                    (cts w) in
        if oomKilled
        then update x (fun c => SetProp P_OOM_KILLED (set_OomKilled true c)) h1
        else h1))
    x Dead.
Proof.
  unfold Reap.
  fwd w1. assert (cts w1 = cts w /\ now w1 = now w) as [C1 N1] by done.
  clearbody w1.
  fwd w2. assert (cts w2 = cts w /\ now w2 = now w) as [C2 N2].
  { unfold w2. by destruct (failed _). }
  clearbody w2. clear C1 N1 w1.
  fwd w3. change (fst (gets now w2)) with (now w2). change w3 with w2.
  clear w3. rewrite N2.
  fwd w3.
  assert (cts w3 =
          update x (fun c => SetProp P_DEATH_TIME (set_DeathTime (now w) c)) (cts w))
    as C3 by (unfold w3; cbn; by rewrite C2).
  clearbody w3. clear C2 N2 w2.
  fwd w4.
  assert (cts w4 =
          if oomKilled
          then update x (fun c => SetProp P_OOM_KILLED (set_OomKilled true c)) (cts w3)
          else cts w3) as C4 by (unfold w4; by destruct oomKilled).
  clearbody w4.
  fwd w5. assert (cts w5 = update x ForgetPid (cts w4)) as C5 by done.
  clearbody w5.
  fwd w6. assert (cts w6 = cts w5) as C6 by done. clearbody w6.
  fwd w7. assert (cts w7 = SetState_heap (cts w6) x Dead) as C7
    by apply cts_SetState.
  clearbody w7.
  fwd w8. assert (apart <$> cts w8 = apart <$> cts w7) as C8.
  { pose proof (rest_FreeRuntimeResources CPU_POWER_PER_SEC x w7) as R.
    unfold rest in R. by injection R. }
  generalize (fst (FreeRuntimeResources CPU_POWER_PER_SEC x w7)). intros o.
  clearbody w8.
  assert (apart <$> cts w8 =
          apart <$>
          SetState_heap
            (update x ForgetPid
               (if oomKilled
                then update x (fun c => SetProp P_OOM_KILLED (set_OomKilled true c))
                       (update x
                          (fun c => SetProp P_DEATH_TIME (set_DeathTime (now w) c))
                          (cts w))
                else update x
                       (fun c => SetProp P_DEATH_TIME (set_DeathTime (now w) c))
                       (cts w)))
            x Dead) as G.
  { rewrite C8, C7, C6, C5, C4, C3. by destruct oomKilled. }
  cbv zeta.
  assert (forall w', cts w' = cts w8 -> apart <$> cts w' = apart <$> cts w8)
    as K by (by intros w' ->).
  destruct o; [|unfold ret; cbn [snd]; by destruct oomKilled].
  fwd w9. assert (cts w9 = cts w8) as C9 by apply cts_Save.
  generalize (fst (Save x w8)). intros e. clearbody w9.
  fwd w10. assert (cts w10 = cts w9) as C10 by apply cts_if_emit.
  clearbody w10.
  fwd w11. change (fst (gets cts w10)) with (cts w10). change w11 with w10.
  clear w11.
  assert (forall b ev, cts (snd ((if b : bool then emit ev else ret tt) w10)) = cts w10)
    as Hif by (intros b ev; by destruct b).
  rewrite <- G. apply K.
  destruct (cts w10 !! x) as [c|]; [|unfold ret; cbn [snd]; congruence].
  destruct (AutoRespawn c); [|unfold ret; cbn [snd]; congruence].
  destruct (MayRespawn (cts w10) c); [|unfold ret; cbn [snd]; congruence].
  rewrite bind_run. unfold ret. cbn [snd]. rewrite Hif. congruence.
Qed.

Lemma lookup_SetState_heap_fmap {B} (P : TContainer -> B) h x next i :
  (forall s c, P (set_State s c) = P c) ->
  (forall z c, P (set_StartingChildren z c) = P c) ->
  (forall z c, P (set_RunningChildren z c) = P c) ->
  P <$> SetState_heap h x next !! i = P <$> h !! i.
Proof.
  intros H1 H2 H3. rewrite <- !list_lookup_fmap.
  by rewrite fmap_SetState_heap.
Qed.

Lemma states_Reap x oomKilled w :
  State <$> cts (snd (Reap CPU_POWER_PER_SEC x oomKilled w)) =
  <[x := Dead]> (State <$> cts w).
Proof.
  pose proof (apart_Reap x oomKilled w) as H.
  apply (f_equal (fmap State)) in H. rewrite <- !list_fmap_compose in H.
  change (State ∘ apart) with State in H. rewrite H. cbv zeta.
  rewrite states_SetState_heap. f_equal.
  destruct oomKilled; by rewrite !fmap_update.
Qed.

Lemma HasProp_apart p c :
  p <> P_CPU_SET_AFFINITY -> HasProp p (apart c) = HasProp p c.
Proof.
  intros Hp. unfold HasProp, apart. setters. rewrite N.clearbit_eqb.
  replace (N.eqb (prop_index P_CPU_SET_AFFINITY) (prop_index p)) with false;
    [by rewrite andb_true_r|].
  by destruct p.
Qed.

(** Property X22.  [Reap] leaves the container [Dead], with no task and with the time of
    its death; it records an OOM kill it is told of; and it changes the state
    of no other container. *)
Theorem Reap_dead x oomKilled w c :
  cts w !! x = Some c ->
  State <$> cts (snd (Reap CPU_POWER_PER_SEC x oomKilled w)) =
    <[x := Dead]> (State <$> cts w) /\
  exists c', cts (snd (Reap CPU_POWER_PER_SEC x oomKilled w)) !! x = Some c' /\
    State c' = Dead /\ Task_Pid c' = 0%Z /\ TaskVPid c' = 0%Z /\
    WaitTask_Pid c' = 0%Z /\ SeizeTask_Pid c' = 0%Z /\
    DeathTime c' = now w /\ HasProp P_DEATH_TIME c' = true /\
    OomKilled c' = (oomKilled || OomKilled c).
Proof.
  intros Hx. split; [apply states_Reap|].
  pose proof (apart_Reap x oomKilled w) as HA. cbv zeta in HA.
  set (h := update x ForgetPid _) in HA.
  assert (exists d, h !! x = Some d /\
            Task_Pid d = 0%Z /\ TaskVPid d = 0%Z /\
            WaitTask_Pid d = 0%Z /\ SeizeTask_Pid d = 0%Z /\
            DeathTime d = now w /\ HasProp P_DEATH_TIME d = true /\
            OomKilled d = (oomKilled || OomKilled c)) as (d & Hd & F).
  { unfold h. destruct oomKilled; rewrite !lookup_update, Nat.eqb_refl, Hx;
      eexists; (split; [reflexivity|]); repeat split; try reflexivity;
      unfold HasProp, ForgetPid, ClearProp, SetProp; setters;
      rewrite ?N.clearbit_eqb, ?N.setbit_eqb; reflexivity. }
  assert (is_Some (SetState_heap h x Dead !! x)) as [c1 Hc1].
  { apply lookup_lt_is_Some.
    rewrite <- (length_fmap State), states_SetState_heap, length_insert, length_fmap.
    by apply lookup_lt_Some in Hd. }
  assert (State c1 = Dead) as HS.
  { pose proof (states_SetState_heap h x Dead) as E.
    apply (f_equal (fun l => l !! x)) in E.
    rewrite list_lookup_fmap, Hc1 in E.
    rewrite list_lookup_insert_eq in E
      by (rewrite length_fmap; by apply lookup_lt_Some in Hd).
    by inversion E. }
  destruct F as (F1 & F2 & F3 & F4 & F5 & F6 & F7).
  pose proof (lookup_SetState_heap_fmap Task_Pid h x Dead x) as G1.
  pose proof (lookup_SetState_heap_fmap TaskVPid h x Dead x) as G2.
  pose proof (lookup_SetState_heap_fmap WaitTask_Pid h x Dead x) as G3.
  pose proof (lookup_SetState_heap_fmap SeizeTask_Pid h x Dead x) as G4.
  pose proof (lookup_SetState_heap_fmap DeathTime h x Dead x) as G5.
  pose proof (lookup_SetState_heap_fmap (HasProp P_DEATH_TIME) h x Dead x) as G6.
  pose proof (lookup_SetState_heap_fmap OomKilled h x Dead x) as G7.
  rewrite Hc1, Hd in G1, G2, G3, G4, G5, G6, G7.
  simpl in G1, G2, G3, G4, G5, G6, G7.
  specialize (G1 (fun _ _ => eq_refl) (fun _ _ => eq_refl) (fun _ _ => eq_refl)).
  specialize (G2 (fun _ _ => eq_refl) (fun _ _ => eq_refl) (fun _ _ => eq_refl)).
  specialize (G3 (fun _ _ => eq_refl) (fun _ _ => eq_refl) (fun _ _ => eq_refl)).
  specialize (G4 (fun _ _ => eq_refl) (fun _ _ => eq_refl) (fun _ _ => eq_refl)).
  specialize (G5 (fun _ _ => eq_refl) (fun _ _ => eq_refl) (fun _ _ => eq_refl)).
  specialize (G6 (fun _ _ => eq_refl) (fun _ _ => eq_refl) (fun _ _ => eq_refl)).
  specialize (G7 (fun _ _ => eq_refl) (fun _ _ => eq_refl) (fun _ _ => eq_refl)).
  inversion G1. inversion G2. inversion G3. inversion G4. inversion G5.
  inversion G6. inversion G7.
  apply (f_equal (fun l => l !! x)) in HA.
  rewrite !list_lookup_fmap, Hc1 in HA.
  destruct (cts (snd (Reap CPU_POWER_PER_SEC x oomKilled w)) !! x) as [c'|];
    [|discriminate].
  exists c'. split; [done|]. apply (inj Some) in HA.
  repeat split.
  - change (State c') with (State (apart c')). rewrite HA. exact HS.
  - change (Task_Pid c') with (Task_Pid (apart c')). rewrite HA. cbn. congruence.
  - change (TaskVPid c') with (TaskVPid (apart c')). rewrite HA. cbn. congruence.
  - change (WaitTask_Pid c') with (WaitTask_Pid (apart c')). rewrite HA. cbn.
    congruence.
  - change (SeizeTask_Pid c') with (SeizeTask_Pid (apart c')). rewrite HA. cbn.
    congruence.
  - change (DeathTime c') with (DeathTime (apart c')). rewrite HA. cbn. congruence.
  - rewrite <- (HasProp_apart P_DEATH_TIME c') by discriminate.
    rewrite HA, HasProp_apart by discriminate. congruence.
  - change (OomKilled c') with (OomKilled (apart c')). rewrite HA. cbn. congruence.
Qed.

End Reaping.

Lemma Reap_dead_witness :
  State <$> cts (snd (Reap Examples.CPU_POWER_PER_SEC 2 true Examples.stop_world)) =
    <[2 := Dead]> (State <$> cts Examples.stop_world) /\
  exists c',
    cts (snd (Reap Examples.CPU_POWER_PER_SEC 2 true Examples.stop_world)) !! 2
      = Some c' /\
    State c' = Dead /\ Task_Pid c' = 0%Z /\ TaskVPid c' = 0%Z /\
    WaitTask_Pid c' = 0%Z /\ SeizeTask_Pid c' = 0%Z /\
    DeathTime c' = now Examples.stop_world /\ HasProp P_DEATH_TIME c' = true /\
    OomKilled c' = true.
Proof.
  apply (Reap_dead Examples.CPU_POWER_PER_SEC 2 true Examples.stop_world
           (set_WaitTask_Pid 11
              (set_Task_Pid 11
                 (Examples.container 3 "a/b" (Some 1) [] Running false)))).
  reflexivity.
Defined.

(** *** Stop *)

Lemma length_SetState x next w :
  length (cts (snd (SetState x next w))) = length (cts w).
Proof.
  rewrite <- (length_fmap State), states_SetState, length_insert.
  apply length_fmap.
Qed.

Lemma length_for_each {A} (body : A -> M unit) (l : list A) :
  (forall a w, length (cts (snd (body a w))) = length (cts w)) ->
  forall w, length (cts (snd (for_each l body w))) = length (cts w).
Proof.
  intros Hb. induction l as [|a l IH]; intros w; [done|].
  cbn [for_each]. rewrite bind_run, IH. apply Hb.
Qed.

Lemma cts_FreezerThaw x b w : cts (snd (FreezerThaw x b w)) = cts w.
Proof.
  unfold FreezerThaw. rewrite bind_run. unfold call at 1 2. cbn [fst snd].
  by destruct (failed _).
Qed.

Lemma cts_kill_wait_task a w : cts (snd (kill_wait_task a w)) = cts w.
Proof.
  unfold kill_wait_task. rewrite bind_run. unfold get_ct, gets. cbn [fst snd].
  destruct (cts w !! a) as [c|]; [|done]. by destruct (_ && _).
Qed.

Lemma cts_kill_spree l : forall w,
  cts (snd (for_each l kill_wait_task w)) = cts w.
Proof.
  induction l as [|a l IH]; intros w; [done|].
  cbn [for_each]. rewrite bind_run, IH. apply cts_kill_wait_task.
Qed.

Lemma length_stop_tasks deadline a w :
  length (cts (snd (stop_tasks deadline a w))) = length (cts w).
Proof.
  unfold stop_tasks. rewrite bind_run. unfold get_ct, gets. cbn [fst snd].
  destruct (cts w !! a) as [c|]; [|done].
  destruct (_ || _); [done|].
  fwd w1. assert (length (cts w1) = length (cts w)) as L1 by apply length_SetState.
  clearbody w1.
  fwd w2. assert (cts w2 = cts w1) as C2 by done.
  generalize (fst (call (Terminate a deadline) w1)). intros e. clearbody w2.
  fwd w3. assert (cts w3 = cts w2) as C3 by apply cts_if_emit. clearbody w3.
  fwd w4. change w4 with w3. clear w4.
  generalize (fst (IsSelfFreezing a w3)). intros [|]; [|unfold ret; cbn [snd]; congruence].
  fwd w4. assert (cts w4 = cts w3) as C4 by apply cts_FreezerThaw.
  generalize (fst (FreezerThaw a false w3)). intros e'. clearbody w4.
  rewrite cts_if_emit. congruence.
Qed.

Section Stopping.

Variable CPU_POWER_PER_SEC : Z.

Lemma states_FreeResources x w :
  State <$> cts (snd (FreeResources CPU_POWER_PER_SEC x w)) = State <$> cts w.
Proof.
  apply shape_State, rest_shape, (rest_FreeResources CPU_POWER_PER_SEC x w).
Qed.

(** The second loop of [Stop]: a container that is [Stopped] stays so, and
    when the loop runs to its end every container it visited is [Stopped]. *)
Lemma stop_nodes_stops this l : forall w,
  length (cts (snd (stop_nodes CPU_POWER_PER_SEC this l w))) = length (cts w) /\
  (forall y, State <$> cts w !! y = Some Stopped ->
     State <$> cts (snd (stop_nodes CPU_POWER_PER_SEC this l w)) !! y = Some Stopped) /\
  (forall e, fst (stop_nodes CPU_POWER_PER_SEC this l w) = Cpu.Returned e ->
   failed e = false ->
   forall y, In y l -> is_Some (cts w !! y) ->
     State <$> cts (snd (stop_nodes CPU_POWER_PER_SEC this l w)) !! y = Some Stopped).
Proof.
  induction l as [|ct l IH]; intros w; cbn [stop_nodes].
  - split; [done|]. split; [done|]. by intros e _ _ y [].
  - rewrite bind_run. unfold get_ct, gets. cbn [fst snd].
    destruct (IH w) as (L0 & M0 & P0).
    destruct (cts w !! ct) as [c|] eqn:Hc.
    2:{ split; [done|]. split; [done|]. intros e He Hf y [<-|Hy] [d Hd];
          [congruence|]. eapply P0; [done|done|done|by exists d]. }
    destruct (state_eqb (State c) Stopped) eqn:Es.
    { apply state_eqb_eq in Es. split; [done|]. split; [done|].
      intros e He Hf y [<-|Hy] Hd.
      - apply M0. by rewrite Hc, <- Es.
      - by eapply P0. }
    clear L0 M0 P0.
    fwd w1. assert (State <$> cts w1 = State <$> cts w) as S1
      by (unfold w1; cbn; by rewrite fmap_update).
    clearbody w1.
    fwd w2. assert (State <$> cts w2 = State <$> cts w1) as C2
      by apply states_FreeResources.
    generalize (fst (FreeResources CPU_POWER_PER_SEC ct w1)). intros o.
    clearbody w2.
    assert (L2 : length (cts w2) = length (cts w)).
    { rewrite <- (length_fmap State), C2, S1. apply length_fmap. }
    destruct o.
    2:{ unfold ret. cbn [fst snd]. split; [done|]. split; [|discriminate].
        intros y Hy. by rewrite <- !list_lookup_fmap, C2, S1, list_lookup_fmap. }
    fwd w3. assert (State <$> cts w3 = <[ct := Stopped]> (State <$> cts w)) as S3
      by (unfold w3; by rewrite states_SetState, C2, S1).
    clearbody w3. clear S1 C2 L2 w1 w2.
    fwd w4. assert (cts w4 = cts w3) as C4 by apply cts_Save.
    generalize (fst (Save this w3)). intros e. clearbody w4.
    rewrite <- C4 in S3. clear C4 w3.
    assert (L4 : length (cts w4) = length (cts w)).
    { rewrite <- (length_fmap State), S3, length_insert. apply length_fmap. }
    assert (K4 : forall y, State <$> cts w4 !! y =
                   if Nat.eqb y ct then Some Stopped else State <$> cts w !! y).
    { intros y. rewrite <- !list_lookup_fmap, S3.
      destruct (Nat.eqb y ct) eqn:E.
      - apply Nat.eqb_eq in E. subst y. apply list_lookup_insert_eq.
        rewrite length_fmap. by apply lookup_lt_Some in Hc.
      - apply Nat.eqb_neq in E. by rewrite list_lookup_insert_ne. }
    assert (M4 : forall y, State <$> cts w !! y = Some Stopped ->
                   State <$> cts w4 !! y = Some Stopped).
    { intros y Hy. rewrite K4. by destruct (Nat.eqb y ct). }
    destruct (failed e) eqn:Ef.
    + unfold ret. cbn [fst snd]. split; [done|]. split; [done|].
      intros e' He'. inversion He'. congruence.
    + destruct (IH w4) as (L5 & M5 & P5).
      split; [congruence|]. split; [by auto|].
      intros e' He' Hf y [<-|Hy] [d Hd].
      * apply M5. by rewrite K4, Nat.eqb_refl.
      * eapply P5; [done|done|done|]. apply lookup_lt_is_Some. rewrite L4.
        by apply lookup_lt_Some in Hd.
Qed.

Lemma Stop_run x timeout w c :
  cts w !! x = Some c -> State c <> Stopped ->
  (exists e, fst (Stop CPU_POWER_PER_SEC x timeout w) = Cpu.Returned e /\
             failed e = true) \/
  exists w3, length (cts w3) = length (cts w) /\
    Stop CPU_POWER_PER_SEC x timeout w =
    stop_nodes CPU_POWER_PER_SEC x (Subtree (cts w) x) w3.
Proof.
  intros Hx Hs.
  set (Q := fun r : Cpu.Outcome * World =>
    (exists e, fst r = Cpu.Returned e /\ failed e = true) \/
    exists w3, length (cts w3) = length (cts w) /\
      r = stop_nodes CPU_POWER_PER_SEC x (Subtree (cts w) x) w3).
  change (Q (Stop CPU_POWER_PER_SEC x timeout w)).
  unfold Stop. rewrite bind_run, gets_fst, gets_snd. cbv zeta.
  rewrite bind_run. unfold get_ct. rewrite gets_fst, gets_snd, Hx.
  destruct (state_eqb (State c) Stopped) eqn:Es; [by apply state_eqb_eq in Es|].
  rewrite bind_run.
  assert (forall b, snd ((if b : bool then IsParentFreezing x else ret false) w) = w)
    as -> by by intros [].
  destruct (_ && _); [left; by eexists|].
  destruct (fst _); [left; by eexists|].
  right. rewrite bind_run, gets_fst, gets_snd.
  fwd w1. assert (cts w1 = cts w) as C1 by apply cts_if_emit. clearbody w1.
  fwd w2. assert (cts w2 = cts w1) as C2.
  { unfold w2. destruct (timeout =? 0)%Z; [|done]. apply cts_kill_spree. }
  clearbody w2.
  fwd w3. assert (length (cts w3) = length (cts w2)) as L3
    by apply length_for_each, length_stop_tasks.
  clearbody w3.
  fwd w4. assert (cts w4 = cts w3) as C4 by apply cts_if_emit. clearbody w4.
  exists w4. split; [congruence|done].
Qed.

(** Property X20.  When [Stop] is called on a container that is not [Stopped] and returns
    without an error, every container of the subtree is [Stopped]. *)
Theorem Stop_stops_subtree x timeout w c e w' y :
  cts w !! x = Some c -> State c <> Stopped ->
  Stop CPU_POWER_PER_SEC x timeout w = (Cpu.Returned e, w') -> failed e = false ->
  In y (Subtree (cts w) x) -> is_Some (cts w !! y) ->
  State <$> cts w' !! y = Some Stopped.
Proof.
  intros Hx Hs HS Hf Hy Hd.
  destruct (Stop_run x timeout w c Hx Hs) as [(e' & E & F)|(w3 & L3 & E)].
  { rewrite HS in E. cbn in E. congruence. }
  rewrite E in HS.
  destruct (stop_nodes_stops x (Subtree (cts w) x) w3) as (_ & _ & P).
  rewrite HS in P. cbn [fst snd] in P.
  eapply P; [done|done|done|]. apply lookup_lt_is_Some. rewrite L3.
  by apply lookup_lt_is_Some.
Qed.

End Stopping.

Lemma Stop_stops_subtree_witness :
  State <$> cts (snd (Stop Examples.CPU_POWER_PER_SEC 1 0 Examples.stop_world)) !! 2
    = Some Stopped.
Proof.
  apply (Stop_stops_subtree Examples.CPU_POWER_PER_SEC 1 0 Examples.stop_world
           (set_WaitTask_Pid 10
              (set_Task_Pid 10 (Examples.container 2 "a" (Some 0) [2] Running false)))
           OK).
  - reflexivity.
  - discriminate.
  - vm_compute. reflexivity.
  - reflexivity.
  - vm_compute. tauto.
  - by eexists.
Defined.

(** *** The earlier theorems at work *)

Lemma Stop_writes_only_own_record_witness :
  kvs (snd (Stop Examples.CPU_POWER_PER_SEC 1 0 Examples.stop_world)) !! 3%Z =
  kvs Examples.stop_world !! 3%Z.
Proof.
  apply (Stop_writes_only_own_record Examples.CPU_POWER_PER_SEC 1 0
           Examples.stop_world
           (set_WaitTask_Pid 10
              (set_Task_Pid 10 (Examples.container 2 "a" (Some 0) [2] Running false)))
           3%Z).
  - reflexivity.
  - discriminate.
Defined.

Lemma Resume_not_paused_witness :
  Error (fst (Resume 1 Examples.pause_world)) = InvalidState /\
  snd (Resume 1 Examples.pause_world) = Examples.pause_world.
Proof.
  apply (Resume_not_paused 1 Examples.pause_world
           (Examples.container 2 "a" (Some 0) [2] Meta true)).
  - reflexivity.
  - reflexivity.
  - reflexivity.
Defined.

(** Two guarantees of 32 GiB and a little more on a host of 64 GiB: the sum
    fits 64 bits, the host is overcommitted and the check fails. *)
Lemma CheckMemGuarantee_without_overflow_witness :
  (failed (MemGuarantee.CheckMemGuarantee Examples.guarantee_world) = true <->
   MemGuarantee.overcommitted Examples.guarantee_world) /\
  failed (MemGuarantee.CheckMemGuarantee Examples.guarantee_world) = true /\
  MemGuarantee.overcommitted Examples.guarantee_world.
Proof.
  pose proof (MemFacts.CheckMemGuarantee_without_overflow Examples.guarantee_world)
    as H.
  assert (failed (MemGuarantee.CheckMemGuarantee Examples.guarantee_world) = true)
    as F by (vm_compute; reflexivity).
  split; [|split; [exact F|]].
  - apply H; [vm_compute; discriminate | vm_compute; reflexivity].
  - apply H; [vm_compute; discriminate | vm_compute; reflexivity | exact F].
Defined.

End OutcomeFacts.

(** ** Starting *)

Module StartFacts.

Import StateMachine Lifecycle Outcome HeapFacts StateMachineFacts LockOpsFacts
  FrameFacts LifecycleFacts OutcomeFacts.

Local Open Scope list_scope.

(** *** Steps that move no container *)

Lemma still_RecvOomEvents x : still (RecvOomEvents x).
Proof.
  intros w. unfold RecvOomEvents. destruct (negb _); [|done].
  cbn [snd]. by apply shape_modify.
Qed.

Lemma still_Save x : still (Save x).
Proof. intros w. unfold shape. by rewrite cts_Save. Qed.

Lemma still_push e quiet text : still (push e quiet text).
Proof. apply kept_rest_shape, rest_push. Qed.

Lemma still_PrepareOomMonitor x : still (PrepareOomMonitor x).
Proof. unfold PrepareOomMonitor. repeat kept_step. Qed.

Lemma still_prepare_hierarchies x l : forall missing,
  still (prepare_hierarchies x l missing).
Proof.
  induction l as [|hy l IH]; intros missing; cbn [prepare_hierarchies];
    [apply kept_ret|].
  apply kept_bind; [apply kept_gets|]. intros [c|]; [|apply kept_ret].
  apply kept_if; [apply IH|].
  apply kept_bind.
  { apply kept_if; [|apply kept_ret]. apply kept_modify. kept_leaf. }
  intros _. apply kept_bind; [apply kept_query; kept_leaf|]. intros ex.
  apply kept_if; [apply IH|].
  apply kept_bind; [apply kept_call; kept_leaf|]. intros e.
  apply kept_if; [apply kept_ret|apply IH].
Qed.

Lemma still_PrepareCgroups x : still (PrepareCgroups x).
Proof.
  unfold PrepareCgroups.
  apply kept_bind; [apply kept_gets|]. intros [c|]; [|apply kept_ret].
  apply kept_bind; [apply kept_gets|]. intros op.
  apply kept_bind.
  { destruct op as [p|]; [|apply kept_ret].
    apply kept_if; [|apply kept_ret].
    apply kept_if; repeat kept_step. }
  intros _. apply kept_bind.
  { apply kept_modify. intros w. apply shape_modify. intros c0.
    by destruct (Cpu.has_controller _ _). }
  intros _. apply kept_bind; [apply kept_gets|]. intros oc.
  apply kept_bind; [apply kept_if; [apply kept_query; kept_leaf|apply kept_ret]|].
  intros systemd. apply kept_bind; [apply kept_if; repeat kept_step|].
  intros _. apply kept_bind; [apply kept_gets|]. intros missing.
  apply kept_bind; [apply kept_gets|]. intros hierarchies.
  apply kept_bind; [apply still_prepare_hierarchies|]. intros r.
  apply kept_if; [apply kept_ret|].
  apply kept_if; [repeat kept_step|].
  apply kept_bind; [apply kept_gets|]. intros [c1|]; [|apply kept_ret].
  repeat first [apply still_PrepareOomMonitor | apply still_push | kept_step].
Qed.

Section Still.

Variable CPU_POWER_PER_SEC : Z.
Variable format_error : TError -> string.

Lemma still_DistributeCpus this :
  still (Cpu.DistributeCpus CPU_POWER_PER_SEC this).
Proof. apply kept_rest_shape, rest_DistributeCpus. Qed.

(** Property X18.  [DistributeCpus] moves CPUs between containers and nothing else: every
    container keeps its id, its state, its parent and its children. *)
Theorem DistributeCpus_moves_no_container this w :
  (fun c => (Id c, State c, Parent c, Children c)) <$>
    cts (snd (Cpu.DistributeCpus CPU_POWER_PER_SEC this w)) =
  (fun c => (Id c, State c, Parent c, Children c)) <$> cts w.
Proof. apply still_DistributeCpus. Qed.

Lemma still_ApplyCpuGuarantee x : still (Cpu.ApplyCpuGuarantee x).
Proof. apply kept_rest_shape, rest_ApplyCpuGuarantee. Qed.

Lemma still_FreeRuntimeResources x :
  still (FreeRuntimeResources CPU_POWER_PER_SEC x).
Proof. apply kept_rest_shape, rest_FreeRuntimeResources. Qed.

Lemma still_FreeResources x : still (FreeResources CPU_POWER_PER_SEC x).
Proof. apply kept_rest_shape, rest_FreeResources. Qed.

Lemma still_ApplyDynamicProperties x :
  still (ApplyDynamicProperties CPU_POWER_PER_SEC x).
Proof. apply kept_rest_shape, rest_ApplyDynamicProperties. Qed.

Lemma still_task_prepare x c : still (task_prepare CPU_POWER_PER_SEC x c).
Proof.
  unfold task_prepare.
  apply kept_bind; [apply kept_modify; kept_leaf|]. intros _.
  apply kept_bind.
  { apply kept_steps. repeat (apply Forall_cons; split); [..|by apply Forall_nil].
    - apply still_ApplyDynamicProperties.
    - repeat kept_step.
    - repeat kept_step. }
  intros [e|]; [|apply kept_ret].
  repeat kept_step.
Qed.

Lemma still_StartTask x : still (StartTask CPU_POWER_PER_SEC format_error x).
Proof.
  unfold StartTask.
  apply kept_bind; [apply kept_call; kept_leaf|]. intros e.
  apply kept_if; [apply kept_ret|].
  apply kept_bind; [apply kept_gets|]. intros [c|]; [|apply kept_ret].
  apply kept_if; [apply kept_ret|].
  apply kept_bind; [apply still_task_prepare|]. intros [out|]; [apply kept_ret|].
  repeat first [apply still_RecvOomEvents | kept_step].
Qed.

Lemma still_undo x e : still (undo CPU_POWER_PER_SEC x e).
Proof. unfold undo. repeat first [apply still_FreeResources | kept_step]. Qed.

Lemma still_PrepareResources x : still (PrepareResources CPU_POWER_PER_SEC x).
Proof.
  unfold PrepareResources.
  apply kept_bind; [apply kept_gets|]. intros [c|]; [|apply kept_ret].
  apply kept_bind; [apply kept_if; [apply still_DistributeCpus|apply kept_ret]|].
  intros [e|]; [|apply kept_ret].
  apply kept_if; [apply kept_ret|].
  apply kept_bind; [apply kept_gets|]. intros e1.
  apply kept_if; [apply kept_ret|].
  apply kept_bind; [apply kept_call; kept_leaf|]. intros e2.
  apply kept_if; [apply kept_ret|].
  apply kept_bind; [apply kept_emit; kept_leaf|]. intros _.
  apply kept_bind; [apply still_PrepareCgroups|]. intros e3.
  apply kept_if.
  { apply kept_bind; [apply kept_emit; kept_leaf|]. intros _. apply still_undo. }
  apply kept_bind; [apply kept_call; kept_leaf|]. intros e4.
  apply kept_if; [apply still_undo|].
  apply kept_bind; [apply kept_call; kept_leaf|]. intros e5.
  apply kept_if; [apply still_undo|].
  apply kept_bind; [apply kept_emit; kept_leaf|]. intros _. apply kept_ret.
Qed.

End Still.

(** *** What a start of a container leaves alone *)

Lemma shape_beyond y w w' : shape w' = shape w -> beyond y w' = beyond y w.
Proof.
  intros H. unfold beyond. by rewrite (shape_tree _ _ H), (shape_State _ _ H).
Qed.

Lemma still_beyond {A} (m : M A) y : still m -> kept (beyond y) m.
Proof. intros H w. apply shape_beyond, H. Qed.

Lemma beyond_cts y w w' : cts w' = cts w -> beyond y w' = beyond y w.
Proof. intros H. unfold beyond, tree. by rewrite H. Qed.

Lemma beyond_tree y w w' : beyond y w' = beyond y w -> tree w' = tree w.
Proof. intros H. by apply (f_equal fst) in H. Qed.

Lemma beyond_State y w w' z :
  beyond y w' = beyond y w -> y <= z ->
  (State <$> cts w') !! z = (State <$> cts w) !! z.
Proof.
  intros H Hz. apply (f_equal snd) in H. cbn [snd beyond] in H.
  replace z with (y + (z - y)) by lia. rewrite <- !lookup_drop. by rewrite H.
Qed.

Lemma beyond_le y y' w w' :
  y <= y' -> beyond y w' = beyond y w -> beyond y' w' = beyond y' w.
Proof.
  intros Hle H. unfold beyond. f_equal; [by apply beyond_tree in H|].
  apply (f_equal snd) in H. cbn [snd beyond] in H.
  replace y' with (y + (y' - y)) by lia. rewrite <- !drop_drop. by rewrite H.
Qed.

Lemma tree_lookup w w' i :
  tree w' = tree w -> links <$> cts w' !! i = links <$> cts w !! i.
Proof. unfold tree. intros H. by rewrite <- !list_lookup_fmap, H. Qed.

Lemma tree_length w w' : tree w' = tree w -> length (cts w') = length (cts w).
Proof.
  unfold tree. intros H. apply (f_equal length) in H.
  by rewrite !length_fmap in H.
Qed.

Lemma tree_parent_of w w' i :
  tree w' = tree w -> parent_of (cts w') i = parent_of (cts w) i.
Proof.
  intros H. pose proof (tree_lookup w w' i H) as E. unfold parent_of.
  destruct (cts w' !! i) as [c'|], (cts w !! i) as [c|]; try done.
  cbn in E. by inversion E.
Qed.

Lemma tree_ancestors w w' x :
  tree w' = tree w -> ancestors (cts w') x = ancestors (cts w) x.
Proof.
  intros H. apply ancestors_same; [by apply tree_length|].
  intros i. by apply tree_parent_of.
Qed.

Lemma tree_wf w w' : tree w' = tree w -> wf (cts w) -> wf (cts w').
Proof.
  intros H Hwf i c' Hi. pose proof (tree_lookup w w' i H) as E.
  rewrite Hi in E. destruct (cts w !! i) as [c|] eqn:Ei; [|done].
  cbn in E. inversion E as [[E1 E2 E3]].
  destruct (Hwf i c Ei) as [Hp Hc]. rewrite E2, E3, (tree_length w w' H).
  by split.
Qed.

Lemma beyond_update y x f w :
  x < y -> (forall c, links (f c) = links c) ->
  beyond y (set_cts (update x f (cts w)) w) = beyond y w.
Proof.
  intros Hy Hf. unfold beyond. f_equal; [by apply tree_modify|].
  cbn. apply list_eq. intros i. rewrite !lookup_drop, !list_lookup_fmap.
  unfold update. rewrite list_lookup_alter_ne; [done|lia].
Qed.

Lemma beyond_SetState y x s : x < y -> kept (beyond y) (SetState x s).
Proof.
  intros Hy w. unfold beyond. f_equal.
  - unfold tree. rewrite cts_SetState. by apply fmap_SetState_heap.
  - rewrite states_SetState. by apply drop_insert_lt.
Qed.

Lemma chain_length h : wf h -> forall n p,
  length (chain n h p) <= match p with Some b => S b | None => 0 end.
Proof.
  intros Hwf. induction n as [|n IH]; intros p; [simpl; lia|].
  rewrite chain_parent_of. destruct p as [b|]; [|simpl; lia].
  cbn [length]. specialize (IH (parent_of h b)). unfold parent_of in *.
  destruct (h !! b) as [cb|] eqn:Eb; [|lia].
  destruct (Parent cb) as [q|] eqn:Eq; [|lia].
  destruct (Hwf b cb Eb) as [Hpar _]. specialize (Hpar q Eq). lia.
Qed.

Lemma ancestors_length h x c :
  wf h -> h !! x = Some c -> length (ancestors h x) < length h.
Proof.
  intros Hwf Hx. unfold ancestors. rewrite Hx.
  pose proof (chain_length h Hwf (length h) (Parent c)) as L.
  destruct (Hwf x c Hx) as [Hpar _]. apply lookup_lt_Some in Hx.
  destruct (Parent c) as [q|]; [|lia]. specialize (Hpar q eq_refl). lia.
Qed.

(** *** The climb of [StartParents] *)

Lemma asleep_length h up : asleep h up <= length up.
Proof.
  induction up as [|a up IH]; cbn [asleep length]; [lia|].
  destruct (h !! a) as [ca|]; [|lia]. destruct (live _); lia.
Qed.

(** The climb ends at the last container that is asleep. *)
Lemma climb_asleep h up : forall target,
  (asleep h up = 0 /\ climb h target up = target) \/
  (exists k c, asleep h up = S k /\ up !! k = Some (climb h target up) /\
     h !! climb h target up = Some c).
Proof.
  induction up as [|a up IH]; intros target; cbn [asleep climb]; [by left|].
  destruct (h !! a) as [ca|] eqn:Ha; [|by left].
  unfold live.
  destruct (state_eqb (State ca) Running || state_eqb (State ca) Meta);
    [by left|].
  right. destruct (IH a) as [[E0 Ec]|(k & c & Ek & Hk & Hc)].
  - exists 0, ca. by rewrite E0, Ec.
  - exists (S k), c. by rewrite Ek.
Qed.

(** A container of the chain that is up bounds the climb. *)
Lemma asleep_le h up : forall k t c,
  up !! k = Some t -> h !! t = Some c -> live (State c) = true ->
  asleep h up <= k.
Proof.
  induction up as [|a up IH]; intros k t c Hk Ht Hl; [done|].
  cbn [asleep]. destruct k as [|k]; cbn in Hk.
  - inversion Hk. subst a. rewrite Ht, Hl. lia.
  - destruct (h !! a) as [ca|]; [|lia]. destruct (live (State ca)); [lia|].
    specialize (IH k t c Hk Ht Hl). lia.
Qed.

Section Run.

Variable CPU_POWER_PER_SEC : Z.
Variable format_error : TError -> string.

Lemma beyond_Reap y x oomKilled :
  x < y -> kept (beyond y) (Reap CPU_POWER_PER_SEC x oomKilled).
Proof.
  intros Hy w. unfold beyond. f_equal.
  - pose proof (apart_Reap CPU_POWER_PER_SEC x oomKilled w) as H.
    apply (f_equal (fmap links)) in H. rewrite <- !list_fmap_compose in H.
    change (links ∘ apart) with links in H. unfold tree. rewrite H. cbv zeta.
    rewrite fmap_SetState_heap by done.
    destruct oomKilled; by rewrite !fmap_update.
  - rewrite states_Reap. by apply drop_insert_lt.
Qed.

Lemma beyond_start_task y x c :
  x < y -> kept (beyond y) (start_task CPU_POWER_PER_SEC format_error x c).
Proof.
  intros Hy. unfold start_task.
  apply kept_bind; [by apply kept_emit|]. intros _.
  apply kept_bind; [apply still_beyond, still_StartTask|]. intros o.
  apply kept_bind; [by apply kept_emit|]. intros _.
  destruct o as [e|]; [|apply kept_ret].
  apply kept_if.
  - apply kept_bind; [by apply beyond_SetState|]. intros _.
    apply kept_bind; [by apply kept_call|]. intros _.
    apply kept_bind; [apply still_beyond, still_FreeResources|].
    intros [|]; [|apply kept_ret].
    apply kept_bind; [by apply beyond_SetState|]. intros _. apply kept_ret.
  - apply kept_bind; [by apply beyond_SetState|]. intros _.
    apply kept_bind; [apply still_beyond; apply kept_modify; kept_leaf|].
    intros _.
    apply kept_bind; [apply still_beyond, still_Save|]. intros e1.
    apply kept_if; [|apply kept_ret].
    apply kept_bind; [by apply kept_emit|]. intros _.
    apply kept_bind; [by apply beyond_Reap|]. intros [|]; apply kept_ret.
Qed.

Lemma lookup_set (l : list EContainerState) (x : nat) (s s0 : EContainerState) :
  l !! x = Some s0 -> <[x := s]> l !! x = Some s.
Proof. intros H. apply list_lookup_insert_eq. by apply lookup_lt_Some in H. Qed.

(** [Start] from the task on: the container ends [Meta] or [Running] when
    all went well, [Stopped] when the task was not started and [Dead] when
    its record could not be saved. *)
Lemma start_task_outcome x c w s e :
  (State <$> cts w) !! x = Some s ->
  fst (start_task CPU_POWER_PER_SEC format_error x c w) = Cpu.Returned e ->
  (failed e = false ->
   (State <$> cts (snd (start_task CPU_POWER_PER_SEC format_error x c w))) !! x =
   Some (if IsMeta c then Meta else Running)) /\
  (failed e = true ->
   (State <$> cts (snd (start_task CPU_POWER_PER_SEC format_error x c w))) !! x =
     Some Stopped \/
   (State <$> cts (snd (start_task CPU_POWER_PER_SEC format_error x c w))) !! x =
     Some Dead).
Proof.
  intros X0.
  set (Q := fun r : Cpu.Outcome * World =>
    fst r = Cpu.Returned e ->
    (failed e = false ->
     (State <$> cts (snd r)) !! x = Some (if IsMeta c then Meta else Running)) /\
    (failed e = true ->
     (State <$> cts (snd r)) !! x = Some Stopped \/
     (State <$> cts (snd r)) !! x = Some Dead)).
  change (Q (start_task CPU_POWER_PER_SEC format_error x c w)).
  unfold start_task.
  fwd w2. assert (X2 : (State <$> cts w2) !! x = Some s) by exact X0.
  clearbody w2.
  run o w3 E3.
  pose proof (shape_State _ _ (still_StartTask CPU_POWER_PER_SEC format_error x w2))
    as K3.
  rewrite E3 in K3. cbn [snd] in K3.
  fwd w4. assert (X4 : (State <$> cts w4) !! x = Some s)
    by (unfold w4; cbn; by rewrite K3).
  clearbody w4. clear K3 E3 X2 w2 w3.
  destruct o as [e1|]; [|by intros He].
  destruct (failed e1) eqn:F.
  - run u5 w5 E5.
    pose proof (states_SetState x Stopping w4) as S5. rewrite E5 in S5.
    cbn [snd] in S5.
    run e6 w6 E6. assert (C6 : cts w6 = cts w5) by (by inversion E6).
    run o7 w7 E7.
    pose proof (shape_State _ _ (still_FreeResources CPU_POWER_PER_SEC x w6)) as K7.
    rewrite E7 in K7. cbn [snd] in K7.
    destruct o7; [|by intros He].
    run u8 w8 E8.
    pose proof (states_SetState x Stopped w7) as S8. rewrite E8 in S8.
    cbn [snd] in S8.
    intros He. inversion He. subst e1. split; [congruence|]. intros _.
    left. unfold ret. cbn [snd]. rewrite S8. apply (lookup_set _ _ _ Stopping).
    rewrite K7, C6, S5. by apply (lookup_set _ _ _ s).
  - run u5 w5 E5.
    pose proof (states_SetState x (if IsMeta c then Meta else Running) w4) as S5.
    rewrite E5 in S5. cbn [snd] in S5.
    run u6 w6 E6.
    assert (K6 : State <$> cts w6 = State <$> cts w5).
    { inversion E6. cbn. by apply fmap_update. }
    run e7 w7 E7.
    pose proof (cts_Save x w6) as K7. rewrite E7 in K7. cbn [snd] in K7.
    assert (X7 : (State <$> cts w7) !! x =
                 Some (if IsMeta c then Meta else Running)).
    { rewrite K7, K6, S5. by apply (lookup_set _ _ _ s). }
    destruct (failed e7) eqn:F7.
    + fwd w8. assert (C8 : cts w8 = cts w7) by done. clearbody w8.
      run o9 w9 E9.
      pose proof (states_Reap CPU_POWER_PER_SEC x false w8) as S9.
      rewrite E9 in S9. cbn [snd] in S9.
      destruct o9; [|by intros He].
      intros He. inversion He. subst e7. split; [congruence|]. intros _. right.
      unfold ret. cbn [snd]. rewrite S9.
      apply (lookup_set _ _ _ (if IsMeta c then Meta else Running)).
      by rewrite C8.
    + intros He. inversion He. subst e7. split; [|congruence]. intros _.
      exact X7.
Qed.

(** The calls of [Start] on the containers above [x], as [Start] on [x]
    needs them: they end, they leave alone the containers from [x] on, and
    the container they start without an error is up. *)
Section Nested.

Variable start : ptr -> M (option Cpu.Outcome).
Variable x : ptr.

Hypothesis start_ends : forall t w,
  wf (cts w) -> t < x -> fst (start t w) <> None.
Hypothesis start_beyond : forall t w y,
  wf (cts w) -> t < x -> t < y -> beyond y (snd (start t w)) = beyond y w.
Hypothesis start_live : forall t w c e,
  wf (cts w) -> t < x -> cts w !! t = Some c ->
  fst (start t w) = Some (Cpu.Returned e) -> failed e = false ->
  exists c', cts (snd (start t w)) !! t = Some c' /\ live (State c') = true.

(** The loop of [StartParents] ends before its bound: every turn but the
    last wakes one container of the chain. *)
Lemma start_parents_run n parent : forall w,
  wf (cts w) -> parent < x ->
  asleep (cts w) (ancestors (cts w) parent) < n ->
  fst (start_parents start n parent w) <> Unfinished /\
  (forall y, parent < y ->
     beyond y (snd (start_parents start n parent w)) = beyond y w) /\
  (forall e, fst (start_parents start n parent w) = Ended (Cpu.Returned e) ->
     failed e = true).
Proof.
  induction n as [|n IH]; intros w Hwf Hp Hk; [lia|].
  set (Q := fun r : Progress * World =>
    fst r <> Unfinished /\
    (forall y, parent < y -> beyond y (snd r) = beyond y w) /\
    (forall e, fst r = Ended (Cpu.Returned e) -> failed e = true)).
  change (Q (start_parents start (S n) parent w)).
  cbn [start_parents]. rewrite bind_run, gets_fst, gets_snd.
  set (up := ancestors (cts w) parent) in *.
  set (target := climb (cts w) parent up).
  assert (Ht : target <= parent).
  { destruct (climb_asleep (cts w) up parent) as [[_ E]|(k & c & _ & Hk' & _)].
    - fold target in E. lia.
    - fold target in Hk'. apply list_elem_of_lookup_2, list_elem_of_In in Hk'.
      apply (ancestors_lt _ _ _ Hwf) in Hk'. lia. }
  run e1 w1 E1. assert (C1 : cts w1 = cts w) by (by inversion E1). clear E1.
  destruct (failed e1) eqn:F1.
  { unfold Q, ret. cbn [fst snd]. split; [done|]. split.
    - intros y Hy. by apply beyond_cts.
    - intros e He. congruence. }
  assert (Hwf1 : wf (cts w1)) by by rewrite C1.
  pose proof (start_ends target w1 Hwf1 ltac:(lia)) as Hends.
  assert (Hbey : forall y, parent < y -> beyond y (snd (start target w1)) = beyond y w).
  { intros y Hy. rewrite start_beyond; [by apply beyond_cts|done|lia|lia]. }
  pose proof (fun c e => start_live target w1 c e Hwf1 ltac:(lia)) as Hlive.
  run o w2 E2. rewrite ?E2 in Hends, Hbey, Hlive. cbn [fst snd] in *.
  destruct o as [[e2|]|]; [| |done].
  2:{ unfold Q, ret. cbn [fst snd]. by split. }
  destruct (failed e2) eqn:F2.
  { unfold Q, ret. cbn [fst snd]. split; [done|]. split; [done|].
    intros e He. congruence. }
  destruct (Nat.eqb target parent) eqn:Et.
  { unfold Q, ret. cbn [fst snd]. by split. }
  apply Nat.eqb_neq in Et.
  assert (Htree : tree w2 = tree w).
  { apply (beyond_tree (S parent)). apply Hbey. lia. }
  destruct (IH w2) as (I1 & I2 & I3).
  - by apply (tree_wf w).
  - done.
  - rewrite (tree_ancestors w w2 parent Htree). fold up.
    destruct (climb_asleep (cts w) up parent) as [[_ E]|(k & c & Ek & Hk' & Hc)].
    { fold target in E. done. }
    fold target in Hk', Hc. rewrite <- C1 in Hc.
    destruct (Hlive c e2 Hc eq_refl F2) as (c' & Hc' & Hl').
    pose proof (asleep_le (cts w2) up k target c' Hk' Hc' Hl'). lia.
  - unfold Q. split; [done|]. split; [|done].
    intros y Hy. rewrite I2 by done. by apply Hbey.
Qed.

Lemma StartParents_run w c :
  wf (cts w) -> cts w !! x = Some c ->
  fst (StartParents start x w) <> Unfinished /\
  beyond x (snd (StartParents start x w)) = beyond x w /\
  (forall e, fst (StartParents start x w) = Ended (Cpu.Returned e) ->
     failed e = true).
Proof.
  intros Hwf Hx.
  set (Q := fun r : Progress * World =>
    fst r <> Unfinished /\ beyond x (snd r) = beyond x w /\
    (forall e, fst r = Ended (Cpu.Returned e) -> failed e = true)).
  change (Q (StartParents start x w)).
  unfold StartParents.
  rewrite bind_run, gets_fst, gets_snd, Hx. cbn [mbind option_bind].
  destruct (Parent c) as [parent|] eqn:Ep; [|done].
  destruct (Hwf x c Hx) as [Hpar _]. specialize (Hpar parent Ep).
  run frozen_ w1 E1. assert (C1 : cts w1 = cts w) by (by inversion E1). clear E1.
  destruct frozen_.
  { unfold Q, ret. cbn [fst snd]. split; [done|]. split; [by apply beyond_cts|].
    intros e He. by inversion He. }
  rewrite bind_run. unfold get_ct. rewrite gets_fst, gets_snd, C1.
  destruct (cts w !! parent) as [pc|] eqn:Epc.
  2:{ unfold Q, ret. cbn [fst snd]. split; [done|]. split; [by apply beyond_cts|done]. }
  destruct (state_eqb (State pc) Running || state_eqb (State pc) Meta).
  { unfold Q, ret. cbn [fst snd]. split; [done|]. split; [by apply beyond_cts|done]. }
  rewrite bind_run, gets_fst, gets_snd.
  destruct (start_parents_run (length (cts w1)) parent w1) as (R1 & R2 & R3).
  - by rewrite C1.
  - done.
  - rewrite C1.
    pose proof (asleep_length (cts w) (ancestors (cts w) parent)).
    pose proof (ancestors_length (cts w) parent pc Hwf Epc). lia.
  - unfold Q. split; [done|]. split; [|done]. rewrite R2 by done.
    by apply beyond_cts.
Qed.

Lemma failed_wrap e text : failed (TError_wrap e text) = failed e.
Proof. done. Qed.

(** [Start] up to [PrepareResources()] leaves alone the containers
    after [x]. *)
Lemma start_prepare_beyond w c y :
  wf (cts w) -> cts w !! x = Some c -> x < y ->
  beyond y (snd (start_prepare CPU_POWER_PER_SEC start x c w)) = beyond y w.
Proof.
  intros Hwf Hx Hy. unfold start_prepare.
  destruct (negb _); [done|].
  destruct (StartParents_run w c Hwf Hx) as (_ & Hb & _).
  apply (beyond_le x y) in Hb; [|lia].
  rewrite bind_run. destruct (StartParents start x w) as [p w1].
  cbn [fst snd] in *. rewrite <- Hb.
  destruct p; [|done|done].
  match goal with
  | |- beyond y (snd (?m w1)) = _ => enough (kept (beyond y) m) as Hk by apply Hk
  end.
  apply kept_bind; [by apply kept_call|]. intros e.
  apply kept_if; [apply kept_ret|].
  apply kept_bind; [by apply beyond_SetState|]. intros _.
  apply kept_bind; [apply kept_gets|]. intros time.
  apply kept_bind; [apply still_beyond; apply kept_modify; kept_leaf|].
  intros _.
  apply kept_bind; [apply still_beyond, still_PrepareResources|].
  intros [e1|]; [|apply kept_ret].
  apply kept_if; [|apply kept_ret].
  apply kept_bind; [by apply beyond_SetState|]. intros _. apply kept_ret.
Qed.

(** [Start] up to [PrepareResources()]: it ends; when it returns an error
    from there the container is [Stopped], and when it goes on the container
    is [Starting]. *)
Lemma start_prepare_outcome w c :
  wf (cts w) -> cts w !! x = Some c -> State c = Stopped ->
  match fst (start_prepare CPU_POWER_PER_SEC start x c w) with
  | GoOn =>
    (State <$> cts (snd (start_prepare CPU_POWER_PER_SEC start x c w))) !! x =
    Some Starting
  | Ended (Cpu.Returned e) =>
    failed e = true /\
    (State <$> cts (snd (start_prepare CPU_POWER_PER_SEC start x c w))) !! x =
    Some Stopped
  | Ended Cpu.Crashed => True
  | Unfinished => False
  end.
Proof.
  intros Hwf Hx Hs.
  assert (X0 : (State <$> cts w) !! x = Some Stopped)
    by by rewrite list_lookup_fmap, Hx, <- Hs.
  set (Q := fun r : Progress * World =>
    match fst r with
    | GoOn => (State <$> cts (snd r)) !! x = Some Starting
    | Ended (Cpu.Returned e) =>
      failed e = true /\ (State <$> cts (snd r)) !! x = Some Stopped
    | Ended Cpu.Crashed => True
    | Unfinished => False
    end).
  change (Q (start_prepare CPU_POWER_PER_SEC start x c w)).
  unfold start_prepare. rewrite Hs. cbn [state_eqb negb].
  destruct (StartParents_run w c Hwf Hx) as (Hne & Hb & Hf).
  run p w1 E1. cbn [fst snd] in *.
  assert (X1 : (State <$> cts w1) !! x = Some Stopped)
    by by rewrite (beyond_State x w w1 x Hb).
  destruct p as [|[e|]|]; [|unfold Q, ret; cbn [fst snd]..].
  2:{ split; [by apply Hf|done]. }
  2:{ done. }
  2:{ done. }
  clear Hne Hb Hf E1.
  run e2 w2 E2.
  assert (X2 : (State <$> cts w2) !! x = Some Stopped) by (by inversion E2).
  clear E2.
  destruct (failed e2) eqn:F2.
  { unfold Q, ret. cbn [fst snd]. by rewrite failed_wrap. }
  run u3 w3 E3.
  pose proof (states_SetState x Starting w2) as S3. rewrite E3 in S3. cbn [snd] in S3.
  run time w4 E4. unfold gets in E4. inversion E4. subst time w4. clear E4.
  run u5 w5 E5.
  assert (K5 : State <$> cts w5 = State <$> cts w3).
  { inversion E5. cbn. by apply fmap_update. }
  run o w6 E6.
  pose proof (shape_State _ _ (still_PrepareResources CPU_POWER_PER_SEC x w5)) as K6.
  rewrite E6 in K6. cbn [snd] in K6.
  assert (X6 : (State <$> cts w6) !! x = Some Starting).
  { rewrite K6, K5, S3. by apply (lookup_set _ _ _ Stopped). }
  destruct o as [e6|]; [|done].
  destruct (failed e6) eqn:F6; [|done].
  run u7 w7 E7.
  pose proof (states_SetState x Stopped w6) as S7. rewrite E7 in S7. cbn [snd] in S7.
  unfold Q, ret. cbn [fst snd]. split; [done|]. rewrite S7.
  by apply (lookup_set _ _ _ Starting).
Qed.

Lemma Stopped_or_not (s : EContainerState) : s = Stopped \/ s <> Stopped.
Proof. destruct s; (by left) || (by right). Qed.

(** A container that is not [Stopped] is not started. *)
Lemma start_prepare_refused w c :
  State c <> Stopped ->
  exists e, start_prepare CPU_POWER_PER_SEC start x c w =
            (Ended (Cpu.Returned e), w) /\ failed e = true.
Proof.
  intros Hs. unfold start_prepare.
  destruct (state_eqb (State c) Stopped) eqn:E;
    [by apply state_eqb_eq in E|].
  by eexists.
Qed.

End Nested.

(** A call of [Start] on a container of a well-formed heap ends within the
    bound; it leaves alone the containers after [x]; a container that is not
    [Stopped] is refused, and a [Stopped] container ends as the outcome
    says. *)
Lemma Start_run n : forall x w,
  wf (cts w) -> x < n ->
  fst (Start_ CPU_POWER_PER_SEC format_error n x w) <> None /\
  (forall y, x < y ->
     beyond y (snd (Start_ CPU_POWER_PER_SEC format_error n x w)) = beyond y w) /\
  (forall c e, cts w !! x = Some c ->
     fst (Start_ CPU_POWER_PER_SEC format_error n x w) = Some (Cpu.Returned e) ->
     (failed e = false ->
      State c = Stopped /\
      (State <$> cts (snd (Start_ CPU_POWER_PER_SEC format_error n x w))) !! x =
      Some (if IsMeta c then Meta else Running)) /\
     (failed e = true -> State c = Stopped ->
      (State <$> cts (snd (Start_ CPU_POWER_PER_SEC format_error n x w))) !! x =
        Some Stopped \/
      (State <$> cts (snd (Start_ CPU_POWER_PER_SEC format_error n x w))) !! x =
        Some Dead)).
Proof.
  induction n as [|n IH]; intros x w Hwf Hn; [lia|].
  assert (start_ends : forall t w, wf (cts w) -> t < x ->
            fst (Start_ CPU_POWER_PER_SEC format_error n t w) <> None).
  { intros t w0 H0 Ht. apply IH; [done|lia]. }
  assert (start_beyond : forall t w y, wf (cts w) -> t < x -> t < y ->
            beyond y (snd (Start_ CPU_POWER_PER_SEC format_error n t w)) =
            beyond y w).
  { intros t w0 y H0 Ht Hy. apply IH; [done|lia|done]. }
  assert (start_live : forall t w c e, wf (cts w) -> t < x ->
            cts w !! t = Some c ->
            fst (Start_ CPU_POWER_PER_SEC format_error n t w) =
              Some (Cpu.Returned e) -> failed e = false ->
            exists c', cts (snd (Start_ CPU_POWER_PER_SEC format_error n t w)) !! t
                       = Some c' /\ live (State c') = true).
  { intros t w0 c e H0 Ht Hc He Hf.
    destruct (IH t w0 H0 ltac:(lia)) as (_ & _ & I3).
    destruct (I3 c e Hc He) as [I4 _]. destruct (I4 Hf) as [_ I5].
    rewrite list_lookup_fmap in I5.
    destruct (cts (snd (Start_ CPU_POWER_PER_SEC format_error n t w0)) !! t)
      as [c'|]; [|done].
    exists c'. split; [done|].
    cbn in I5. inversion I5 as [I6]. rewrite I6. by destruct (IsMeta c). }
  cbn [Start_]. rewrite bind_run. unfold get_ct. rewrite gets_fst, gets_snd.
  destruct (cts w !! x) as [c|] eqn:Hx.
  2:{ unfold ret. cbn [fst snd]. split; [done|]. split; [done|]. by intros c e. }
  pose proof (start_prepare_beyond (Start_ CPU_POWER_PER_SEC format_error n) x
                start_ends start_beyond start_live w c) as PB.
  pose proof (start_prepare_outcome (Start_ CPU_POWER_PER_SEC format_error n) x
                start_ends start_beyond start_live w c Hwf Hx) as PO.
  pose proof (start_prepare_refused (Start_ CPU_POWER_PER_SEC format_error n) x w c)
    as PR.
  rewrite bind_run.
  destruct (start_prepare CPU_POWER_PER_SEC
              (Start_ CPU_POWER_PER_SEC format_error n) x c w) as [p w1].
  cbn [fst snd] in *.
  assert (Hs : State c <> Stopped -> exists e, p = Ended (Cpu.Returned e) /\
                 failed e = true).
  { intros H. destruct (PR H) as (e & E & F). exists e. by inversion E. }
  clear PR.
  destruct p as [|o|].
  - (* the task *)
    rewrite bind_run. unfold ret. cbn [fst snd].
    split; [done|]. split.
    + intros y Hy.
      rewrite (beyond_start_task y x c Hy w1). by apply PB.
    + intros c0 e Hc0 He. inversion Hc0. subst c0. inversion He as [He'].
      destruct (Stopped_or_not (State c)) as [Hst|Hst].
      2:{ destruct (Hs Hst) as (e' & E' & _). discriminate. }
      specialize (PO Hst).
      destruct (start_task_outcome x c w1 Starting e PO He') as [T1 T2].
      split; [by auto|]. intros Hf _. by apply T2.
  - unfold ret. cbn [fst snd]. split; [done|]. split; [by intros; apply PB|].
    intros c0 e Hc0 He. inversion Hc0. subst c0. inversion He. subst o.
    destruct (Stopped_or_not (State c)) as [Hst|Hst].
    + destruct (PO Hst) as [Pf Ps]. split; [congruence|]. intros _ _. by left.
    + destruct (Hs Hst) as (e' & E' & F'). inversion E'. subst e'.
      split; [congruence|done].
  - destruct (Stopped_or_not (State c)) as [Hst|Hst].
    + by specialize (PO Hst).
    + destruct (Hs Hst) as (e' & E' & _). discriminate.
Qed.

(** Property X19.  A start does not leave the container half-way.  [Start], called on a
    [Stopped] container of a well-formed heap, ends, the starts of the
    containers above included.  When it returns without an error the
    container is [Meta] or [Running], as its kind demands; when it returns an
    error the container is [Stopped] again, or [Dead] when its record could
    not be saved. *)
Theorem Start_final_state x w c :
  wf (cts w) -> cts w !! x = Some c -> State c = Stopped ->
  exists o,
    fst (Start CPU_POWER_PER_SEC format_error x w) = Some o /\
    forall e, o = Cpu.Returned e ->
      (failed e = false ->
       State <$> cts (snd (Start CPU_POWER_PER_SEC format_error x w)) !! x =
       Some (if IsMeta c then Meta else Running)) /\
      (failed e = true ->
       State <$> cts (snd (Start CPU_POWER_PER_SEC format_error x w)) !! x =
         Some Stopped \/
       State <$> cts (snd (Start CPU_POWER_PER_SEC format_error x w)) !! x =
         Some Dead).
Proof.
  intros Hwf Hx Hs. unfold Start.
  destruct (Start_run (S (length (cts w))) x w Hwf) as (R1 & _ & R3).
  { apply lookup_lt_Some in Hx. lia. }
  destruct (fst (Start_ CPU_POWER_PER_SEC format_error (S (length (cts w))) x w))
    as [o|] eqn:Eo; [|done].
  exists o. split; [done|]. intros e ->.
  destruct (R3 c e Hx eq_refl) as [T1 T2]. rewrite <- !list_lookup_fmap.
  split; [intros Hf; by apply T1|intros Hf; by apply T2].
Qed.

End Run.

(** ["a/b"] is started while ["a"], above it, is [Stopped]: ["a"] is
    started first, and both run in the end. *)
Lemma Start_final_state_witness :
  fst (Start Examples.CPU_POWER_PER_SEC Examples.format_error 2
         (Examples.world (Examples.chain3 Meta Stopped Stopped false false))) =
    Some (Cpu.Returned OK) /\
  State <$> cts (snd (Start Examples.CPU_POWER_PER_SEC Examples.format_error 2
                        (Examples.world
                           (Examples.chain3 Meta Stopped Stopped false false))))
    !! 2 = Some Running.
Proof.
  destruct (Start_final_state Examples.CPU_POWER_PER_SEC Examples.format_error 2
              (Examples.world (Examples.chain3 Meta Stopped Stopped false false))
              (Examples.container 3 "a/b" (Some 1) [] Stopped false))
    as (o & Ho & H).
  - apply wfb_wf. reflexivity.
  - reflexivity.
  - reflexivity.
  - assert (E : fst (Start Examples.CPU_POWER_PER_SEC Examples.format_error 2
                       (Examples.world
                          (Examples.chain3 Meta Stopped Stopped false false))) =
                Some (Cpu.Returned OK)) by (vm_compute; reflexivity).
    split; [exact E|]. rewrite E in Ho. apply (inj Some) in Ho.
    apply (H OK); [by symmetry|reflexivity].
Defined.

End StartFacts.

(** ** What a successful [SetProperty] has saved *)

Module PersistFacts.

Import Lifecycle Properties OutcomeFacts.

Lemma bind_inv {A B} (m : M A) (k : A -> M B) w r :
  bind m k w = r -> exists a w1, m w = (a, w1) /\ k a w1 = r.
Proof. unfold bind. destruct (m w) as [a w1]. intros H. by exists a, w1. Qed.

(** When [Save] succeeds, the record under the id of the container is the
    container. *)
Lemma Save_stores x w e w' :
  Save x w = (e, w') -> failed e = false ->
  forall c', cts w' !! x = Some c' -> kvs w' !! Id c' = Some c'.
Proof.
  unfold Save, bind, get_ct, gets, call, change, ret. intros H Hf c' Hc'.
  destruct (cts w !! x) as [c|] eqn:Hx.
  - destruct (failed (kernel w (trace w) (KvSave (Id c)))) eqn:Ek;
      inversion H; subst; [congruence|].
    cbn in Hc'. rewrite Hx in Hc'. inversion Hc'. subst c'.
    cbn. apply lookup_insert_eq.
  - inversion H. subst. congruence.
Qed.

Section Registry.

Variable CPU_POWER_PER_SEC : Z.
Variable ContainerProperties : string -> option TProperty.
Variable StringTrim : string -> string.
Variable HasResources : TContainer -> bool.

Lemma returned_Save_persists x w e w' :
  returned (Save x) w = (Cpu.Returned e, w') -> failed e = false ->
  forall c', cts w' !! x = Some c' -> kvs w' !! Id c' = Some c'.
Proof.
  unfold returned. intros H Hf.
  apply bind_inv in H as (e1 & w1 & HS & H).
  unfold ret in H. inversion H. subst e1 w1.
  by apply (Save_stores x w e w').
Qed.

Lemma set_and_apply_persists x prop idx value w e w' :
  set_and_apply CPU_POWER_PER_SEC HasResources x prop idx value w =
    (Cpu.Returned e, w') ->
  failed e = false ->
  forall c', cts w' !! x = Some c' -> kvs w' !! Id c' = Some c'.
Proof.
  unfold set_and_apply. intros H Hf.
  apply bind_inv in H as ([e0 old] & w0 & _ & H).
  apply bind_inv in H as (oc & w1 & H1 & H).
  unfold get_ct, gets in H1. inversion H1. subst oc w1. clear H1.
  destruct (negb (failed e0) && _).
  - apply bind_inv in H as (o & w2 & _ & H).
    destruct o as [e2|]; [|unfold ret in H; by inversion H].
    destruct (failed e2) eqn:F2.
    + apply bind_inv in H as (u3 & w3 & _ & H).
      apply bind_inv in H as (u4 & w4 & _ & H).
      unfold ret in H. inversion H. congruence.
    + by apply (returned_Save_persists x w2 e w').
  - destruct (failed e0) eqn:F0; cbn [negb] in H.
    + unfold ret in H. inversion H. congruence.
    + by apply (returned_Save_persists x w0 e w').
Qed.

(** Property X26.  When [SetProperty] returns without an error, the record of the container
    in the key-value store is the container as [SetProperty] leaves it. *)
Theorem SetProperty_persists x property value w e w' :
  SetProperty CPU_POWER_PER_SEC ContainerProperties StringTrim HasResources
    x property value w = (Cpu.Returned e, w') ->
  failed e = false ->
  forall c', cts w' !! x = Some c' -> kvs w' !! Id c' = Some c'.
Proof.
  unfold SetProperty. intros H Hf.
  apply bind_inv in H as (oc & w0 & H0 & H).
  unfold get_ct, gets in H0. inversion H0. subst oc w0. clear H0.
  destruct (cts w !! x) as [c|] eqn:Hx.
  - destruct (IsRoot c); [unfold ret in H; inversion H; by subst|].
    destruct (ParsePropertyName property "") as [[indexed name] idx].
    destruct (_ && _); [unfold ret in H; inversion H; by subst|].
    destruct (ContainerProperties name) as [prop|];
      [|unfold ret in H; inversion H; by subst].
    by apply (set_and_apply_persists x prop idx (StringTrim value) w e w').
  - unfold ret in H. inversion H. subst. intros c' Hc'. congruence.
Qed.

End Registry.

Lemma SetProperty_persists_witness :
  kvs (snd (SetProperty Examples.CPU_POWER_PER_SEC private_registry (fun s => s)
              (fun _ => false) 1 "private" "new" Examples.prop_world)) !! 2%Z =
  Some (SetProp P_PRIVATE
          (set_Private "new"
             (set_Private "old"
                (Examples.container 2 "a" (Some 0) [] Running false)))).
Proof.
  apply (SetProperty_persists Examples.CPU_POWER_PER_SEC private_registry
           (fun s => s) (fun _ => false) 1
           "private" "new" Examples.prop_world OK
           (snd (SetProperty Examples.CPU_POWER_PER_SEC private_registry
                   (fun s => s) (fun _ => false) 1
                   "private" "new" Examples.prop_world))
           eq_refl eq_refl
           (SetProp P_PRIVATE
              (set_Private "new"
                 (set_Private "old"
                    (Examples.container 2 "a" (Some 0) [] Running false))))).
  reflexivity.
Defined.

End PersistFacts.
